(** * Chunk identity, cutout geometry and entity reconciliation

    A shallow embedding of the contract-extraction core:
    - [pdf_parser.parse_pdf_to_chunks]          (chunk list and chunk ids),
    - [cutout_extractor.CutoutExtractor]        (bbox parsing, geometry,
                                                 artifact naming, cutout map),
    - [main.upload_cutouts_to_s3],
      [main.merge_results_with_cutouts] and the combining loop of [main.main].

    Conventions of the embedding.
    - Python [str] is the [string] of its UTF-8 bytes.  The functions the
      code applies to strings look for ASCII characters only ([split],
      [replace], [startswith], [splitext], the slices), except [str.strip]
      and [float], whose whitespace class is [str.isspace]: its characters
      beyond ASCII are recognised by their two- and three-byte encodings.
    - Python [float] is modelled by exact rationals [Q]: rounding and the
      non-finite values are outside the model.
    - A [dict] read only through [get]/[update] is a [gmap string _]; the
      cutout map, which the code iterates in insertion order, is an
      association list kept in insertion order.
    - Calls that leave the repository (the docling converter, the PyMuPDF
      rasterizer, the S3 client, the file system) are parameters. *)

From Stdlib Require Import ZArith QArith Lia Lqa Ascii.
From stdpp Require Import base gmap strings list pretty.

Local Open Scope Z_scope.

(** ** Python values, exceptions and results *)

#[local] Set Warnings "-register-all".

Inductive value : Type :=
  | VNone
  | VBool (b : bool)
  | VInt (z : Z)
  | VFloat (q : Q)
  | VStr (s : string)
  | VList (l : list value)
  | VTuple (l : list value)
  | VDict (d : list (string * value)).

Inductive exn : Type :=
  | ValueError
  | TypeError
  | AttributeError
  | OverflowError
  | FileNotFoundError
  | ClientError.

Inductive result (A : Type) : Type :=
  | Ok (a : A)
  | Raise (e : exn).
Arguments Ok {A} a.
Arguments Raise {A} e.

(** Exceptions propagate through sequencing: [result] is an error monad
    and uses the monadic notation [x ← r; k]. *)
#[global] Instance result_ret : MRet result := λ A a, Ok a.
#[global] Instance result_bind : MBind result := λ A B k r,
  match r with
  | Ok a => k a
  | Raise e => Raise e
  end.

(** [[f(x) for x in l]]: the first exception aborts the comprehension. *)
Fixpoint map_result {A B} (f : A → result B) (l : list A) : result (list B) :=
  match l with
  | [] => Ok []
  | x :: l' => y ← f x; ys ← map_result f l'; Ok (y :: ys)
  end.

(** Truth value of an object, as tested by [if x:] and [not x]. *)
Definition truthy (v : value) : bool :=
  match v with
  | VNone => false
  | VBool b => b
  | VInt z => negb (z =? 0)
  | VFloat q => negb (Qeq_bool q 0)
  | VStr s => negb (bool_decide (s = ""))
  | VList l | VTuple l => negb (bool_decide (l = []))
  | VDict d => match d with [] => false | _ => true end
  end.

(** ** Strings *)

Section strings.

(** ASCII part of [str.isspace]. *)
Definition is_py_space (c : ascii) : bool :=
  let n := nat_of_ascii c in
  ((9 <=? n) && (n <=? 13) || (28 <=? n) && (n <=? 32))%nat.

Definition is_digit (c : ascii) : bool :=
  match Ascii.is_nat c with Some _ => true | None => false end.

Fixpoint all_chars (P : ascii → bool) (s : string) : bool :=
  match s with
  | "" => true
  | String c s' => P c && all_chars P s'
  end.

(** [s.lstrip(chars)] for a character class. *)
Fixpoint lstrip (P : ascii → bool) (s : string) : string :=
  match s with
  | "" => ""
  | String c s' => if P c then lstrip P s' else s
  end.

(** [s.strip(chars)]: leading, then trailing characters of the class. *)
Definition strip_class (P : ascii → bool) (s : string) : string :=
  String.rev (lstrip P (String.rev (lstrip P s))).

(** The whitespace characters beyond ASCII, by their UTF-8 encodings:
    U+0085 and U+00A0 (two bytes); U+1680, U+2000 to U+200A, U+2028, U+2029,
    U+202F, U+205F and U+3000 (three bytes). *)
Definition is_space2 (c1 c2 : ascii) : bool :=
  let n1 := nat_of_ascii c1 in
  let n2 := nat_of_ascii c2 in
  ((n1 =? 194) && ((n2 =? 133) || (n2 =? 160)))%nat.

Definition is_space3 (c1 c2 c3 : ascii) : bool :=
  let n1 := nat_of_ascii c1 in
  let n2 := nat_of_ascii c2 in
  let n3 := nat_of_ascii c3 in
  ((n1 =? 225) && (n2 =? 154) && (n3 =? 128)
   || (n1 =? 226) && (n2 =? 128)
      && ((128 <=? n3) && (n3 <=? 138) || (n3 =? 168) || (n3 =? 169) || (n3 =? 175))
   || (n1 =? 226) && (n2 =? 129) && (n3 =? 159)
   || (n1 =? 227) && (n2 =? 128) && (n3 =? 128))%nat.

(** [s.lstrip()] for a class of characters that are encoded in one, two
    or three bytes: [m1], [m2] and [m3] recognise the encodings. *)
Fixpoint lstrip_tokens (m1 : ascii → bool) (m2 : ascii → ascii → bool)
    (m3 : ascii → ascii → ascii → bool) (s : string) : string :=
  match s with
  | "" => ""
  | String c1 s1 =>
      if m1 c1 then lstrip_tokens m1 m2 m3 s1
      else
        match s1 with
        | "" => s
        | String c2 s2 =>
            if m2 c1 c2 then lstrip_tokens m1 m2 m3 s2
            else
              match s2 with
              | "" => s
              | String c3 s3 => if m3 c1 c2 c3 then lstrip_tokens m1 m2 m3 s3 else s
              end
        end
  end.

(** Leading, then trailing characters of the class; the trailing ones
    are read off the reversed string, last byte first. *)
Definition strip_tokens (m1 : ascii → bool) (m2 : ascii → ascii → bool)
    (m3 : ascii → ascii → ascii → bool) (s : string) : string :=
  String.rev
    (lstrip_tokens m1 (λ a b, m2 b a) (λ a b c, m3 c b a)
       (String.rev (lstrip_tokens m1 m2 m3 s))).

(** [s.strip()] *)
Definition py_strip (s : string) : string :=
  strip_tokens is_py_space is_space2 is_space3 s.

(** The whitespace that [float] strips from a string: the characters
    beyond ASCII as above (it replaces them by blanks first) and the
    whitespace of C, which does not hold the separators 0x1C to 0x1F. *)
Definition is_c_space (c : ascii) : bool :=
  let n := nat_of_ascii c in
  ((9 <=? n) && (n <=? 13) || (n =? 32))%nat.

Definition float_strip (s : string) : string :=
  strip_tokens is_c_space is_space2 is_space3 s.

(** [str.zfill]-style padding of the [{:0wd}] format for a non-negative
    number: zeros on the left up to width [w]. *)
Fixpoint zeros (n : nat) : string :=
  match n with
  | O => ""
  | S n' => String "0" (zeros n')
  end.

Definition zero_pad (w : nat) (s : string) : string :=
  zeros (w - String.length s) +:+ s.

(** Reading a decimal numeral back (Horner), used to show that the
    printed numbers determine the numbers. *)
Definition digit_val (c : ascii) : N :=
  N.of_nat (default O (Ascii.is_nat c)).

Fixpoint read_acc (s : string) (a : N) : N :=
  match s with
  | "" => a
  | String c s' => read_acc s' (10 * a + digit_val c)%N
  end.

End strings.

(** ** pdf_parser.py *)

(** The part of a docling document that [parse_pdf_to_chunks] reads.  A
    provenance entry carries the page number and the bounding box; an
    element without the [prov] attribute is an element whose provenance
    list is empty (the code treats both alike). *)
Record prov_item := {
  prov_l : Q; prov_t : Q; prov_r : Q; prov_b : Q;
  page_no : Z
}.

Record table_item := {
  table_prov : list prov_item;
  table_markdown : string          (* table.export_to_markdown() *)
}.

Record doc_item := {
  item_text : option string;       (* getattr(item, "text", None) *)
  item_prov : list prov_item;
  item_label : option string       (* item.label.value, when present *)
}.

Record document := {
  doc_tables : list table_item;    (* doc.tables *)
  doc_items : list doc_item        (* doc.iterate_items(), in order *)
}.

(** A chunk dictionary.  [page] and [bbox] are read with [get] by the cutout
    extractor, so an absent entry is [None] / [VNone]. *)
Record chunk := {
  chunk_id : string;
  text : string;
  page : option Z;
  bbox : value;
  element_type : option string
}.

(** [f"chunk_{chunk_counter:03d}"] *)
Definition chunk_label (chunk_counter : nat) : string :=
  "chunk_" +:+ zero_pad 3 (pretty chunk_counter).

Definition prov_bbox (p : prov_item) : value :=
  VTuple [VFloat (prov_l p); VFloat (prov_t p); VFloat (prov_r p); VFloat (prov_b p)].

Definition table_chunk (table : table_item) (p : prov_item) (id : string) : chunk :=
  {| chunk_id := id;
     text := table_markdown table;
     page := Some (page_no p - 1 + 1);
     bbox := prov_bbox p;
     element_type := Some "table" |}.

Definition text_chunk (item : doc_item) (txt : string) (p : prov_item) (id : string) : chunk :=
  {| chunk_id := id;
     text := txt;
     page := Some (page_no p - 1 + 1);
     bbox := prov_bbox p;
     element_type := item_label item |}.

(** One iteration of [for table in doc.tables], on the pair
    [(chunks, chunk_counter)]. *)
Definition table_step (st : list chunk * nat) (table : table_item) : list chunk * nat :=
  let '(chunks, chunk_counter) := st in
  match table_prov table with
  | p :: _ => (chunks ++ [table_chunk table p (chunk_label chunk_counter)], S chunk_counter)
  | [] => st
  end.

(** [not text or not text.strip()] *)
Definition blank_text (t : option string) : bool :=
  match t with
  | None => true
  | Some s => bool_decide (s = "") || bool_decide (py_strip s = "")
  end.

(** One iteration of [for item, _level in doc.iterate_items()]. *)
Definition item_step (st : list chunk * nat) (item : doc_item) : list chunk * nat :=
  let '(chunks, chunk_counter) := st in
  if blank_text (item_text item) then st
  else match item_prov item with
       | [] => st
       | p :: _ =>
           (chunks ++ [text_chunk item (default "" (item_text item)) p (chunk_label chunk_counter)],
            S chunk_counter)
       end.

Definition parse_pdf_to_chunks (doc : document) : list chunk :=
  let st0 : list chunk * nat := ([], O) in
  let st1 := foldl table_step st0 (doc_tables doc) in
  let st2 := foldl item_step st1 (doc_items doc) in
  st2.1.

(** The chunk list as the specification words it: the elements that are
    emitted, tables first, each waiting for its identifier. *)
Definition table_emitter (table : table_item) : option (string → chunk) :=
  match table_prov table with
  | p :: _ => Some (table_chunk table p)
  | [] => None
  end.

Definition text_emitter (item : doc_item) : option (string → chunk) :=
  match item_text item, item_prov item with
  | Some txt, p :: _ =>
      if bool_decide (py_strip txt = "") then None else Some (text_chunk item txt p)
  | _, _ => None
  end.

Definition emitted (doc : document) : list (string → chunk) :=
  omap table_emitter (doc_tables doc) ++ omap text_emitter (doc_items doc).

Definition number_chunks (start : nat) (es : list (string → chunk)) : list chunk :=
  imap (λ i mk, mk (chunk_label (start + i))) es.

(** ** cutout_extractor.py *)

(** *** Numbers *)

(** [max(a, b)] and [min(a, b)]: the first argument is kept unless the
    second is strictly greater (smaller). *)
Definition py_max (a b : Q) : Q := if Qlt_le_dec a b then b else a.
Definition py_min (a b : Q) : Q := if Qlt_le_dec b a then b else a.

(** *** [float] of a string

    The finite decimal literals of [float(str)]: surrounding whitespace,
    an optional sign, digits with an optional fraction (one of the two digit
    groups may be empty), an optional exponent; single underscores are
    allowed between digits.  The literals for infinities and NaN denote no
    rational and are not accepted by the model, nor are decimal digits
    beyond ASCII. *)

(** A group of digits: value read so far, number of digits read, rest. *)
Fixpoint read_digitpart (s : string) (acc : N) (cnt : nat) : N * nat * string :=
  match s with
  | "" => (acc, cnt, "")
  | String c s' =>
      match Ascii.is_nat c with
      | Some d => read_digitpart s' (10 * acc + N.of_nat d)%N (S cnt)
      | None =>
          match cnt, s' with
          | S _, String c' s'' =>
              if bool_decide (c = "_"%char) then
                match Ascii.is_nat c' with
                | Some d => read_digitpart s'' (10 * acc + N.of_nat d)%N (S cnt)
                | None => (acc, cnt, s)
                end
              else (acc, cnt, s)
          | _, _ => (acc, cnt, s)
          end
      end
  end.

(** An optional sign: [true] for a leading minus. *)
Definition read_sign (s : string) : bool * string :=
  match s with
  | String c s' =>
      if bool_decide (c = "-"%char) then (true, s')
      else if bool_decide (c = "+"%char) then (false, s')
      else (false, s)
  | "" => (false, "")
  end.

Definition is_exp_mark (c : ascii) : bool :=
  bool_decide (c = "e"%char) || bool_decide (c = "E"%char).

(** [m * 10^e] *)
Definition scale10 (m : Z) (e : Z) : Q :=
  if (0 <=? e)%Z then inject_Z (m * 10 ^ e) else (m # Pos.pow 10 (Z.to_pos (- e)))%Q.

Definition read_exponent (s : string) : option (Z * string) :=
  match s with
  | String c s' =>
      if is_exp_mark c then
        let '(neg, s1) := read_sign s' in
        let '(e, cnt, rest) := read_digitpart s1 0 0 in
        match cnt with
        | O => None
        | S _ => Some (if neg then (- Z.of_N e)%Z else Z.of_N e, rest)
        end
      else Some (0%Z, s)
  | "" => Some (0%Z, "")
  end.

Definition parse_float (s : string) : option Q :=
  let '(neg, s1) := read_sign s in
  let '(ip, icnt, s2) := read_digitpart s1 0 0 in
  let '(m, fcnt, s3) :=
    match s2 with
    | String c s2' =>
        if bool_decide (c = "."%char) then read_digitpart s2' ip 0 else (ip, O, s2)
    | "" => (ip, O, "")
    end in
  match (icnt + fcnt)%nat with
  | O => None
  | S _ =>
      match read_exponent s3 with
      | Some (e, "") =>
          let q := scale10 (Z.of_N m) (e - Z.of_nat fcnt) in
          Some (if neg then (- q)%Q else q)
      | _ => None
      end
  end.

(** [float(s)] for a string [s]. *)
Definition float_of_string (s : string) : option Q := parse_float (float_strip s).

(** The integers from [float_int_bound] on (in absolute value) have no
    double: rounded to the nearest double they would exceed the largest
    one, [2^1024 - 2^971]. *)
Definition float_int_bound : Z := 2 ^ 1024 - 2 ^ 970.

(** [float(x)] *)
Definition py_float (x : value) : result Q :=
  match x with
  | VFloat q => Ok q
  | VInt z =>
      if (Z.abs z <? float_int_bound)%Z then Ok (inject_Z z) else Raise OverflowError
  | VBool b => Ok (if b then 1%Q else 0%Q)
  | VStr s =>
      match float_of_string s with
      | Some q => Ok q
      | None => Raise ValueError
      end
  | VNone | VList _ | VTuple _ | VDict _ => Raise TypeError
  end.

(** [s.split(sep)] for a one-character separator. *)
Fixpoint split_on (sep : ascii) (s : string) : list string :=
  match s with
  | "" => [""]
  | String c s' =>
      if bool_decide (c = sep) then "" :: split_on sep s'
      else match split_on sep s' with
           | w :: ws => String c w :: ws
           | [] => [String c ""]
           end
  end.

Definition is_paren (c : ascii) : bool :=
  bool_decide (c = "("%char) || bool_decide (c = ")"%char).

(** [try: ... except (ValueError, AttributeError): return None] *)
Definition except_value_attribute {A} (r : result (option A)) : result (option A) :=
  match r with
  | Raise ValueError | Raise AttributeError => Ok None
  | _ => r
  end.

(** [CutoutExtractor._parse_bbox] *)
Definition _parse_bbox (bbox : value) : result (option (list Q)) :=
  except_value_attribute
    match bbox with
    | VList l | VTuple l =>
        if (length l =? 4)%nat then
          coords ← map_result py_float l; Ok (Some coords)
        else Ok None
    | VStr s =>
        let bbox_str := strip_class is_paren s in
        coords ← map_result (λ x, py_float (VStr (py_strip x))) (split_on "," bbox_str);
        if (length coords =? 4)%nat then Ok (Some coords) else Ok None
    | _ => Ok None
    end.

(** *** Geometry *)

(** [fitz.Rect] *)
Record rect := { x0 : Q; y0 : Q; x1 : Q; y1 : Q }.

(** [page.rect]: width and height of a page in native units. *)
Record page_rect := { width : Q; height : Q }.

(** The padded and clamped clip rectangle of [_extract_single_cutout]. *)
Definition padded_rect (pr : page_rect) (l t r b : Q) (padding : Z) : rect :=
  let page_height := height pr in
  let pdf_y_top := (page_height - t)%Q in
  let pdf_y_bottom := (page_height - b)%Q in
  {| x0 := py_max 0 (l - inject_Z padding);
     y0 := py_max 0 (pdf_y_top - inject_Z padding);
     x1 := py_min (width pr) (r + inject_Z padding);
     y1 := py_min (height pr) (pdf_y_bottom + inject_Z padding) |}.

(** [f"unit{unit_index + 1}_{field}_{chunk_id}_page{page_num}.png"] *)
Definition cutout_filename (unit_index : nat) (field chunk_id : string) (page_num : Z) : string :=
  "unit" +:+ pretty (unit_index + 1)%nat +:+ "_" +:+ field +:+ "_" +:+ chunk_id
    +:+ "_page" +:+ pretty page_num +:+ ".png".

(** [f"unit{unit_idx + 1}_{field}"], also built by
    [merge_results_with_cutouts] as [f"unit{unit_number}_{field}"]. *)
Definition field_key (unit_number : nat) (field : string) : string :=
  "unit" +:+ pretty unit_number +:+ "_" +:+ field.

(** *** Paths: [str(Path(output_dir) / filename)]

    A pure POSIX path keeps a root of one slash, or of exactly two, drops
    the empty components and the components [.], and is printed with single
    slashes between the components that remain; the path without root and
    components is printed as [.].  Joining a relative file name appends its
    components. *)
Definition path_root (s : string) : string :=
  match s with
  | String "/" (String "/" (String "/" _)) => "/"
  | String "/" (String "/" _) => "//"
  | String "/" _ => "/"
  | _ => ""
  end.

Definition path_parts (s : string) : list string :=
  filter (λ x, x ≠ "" ∧ x ≠ ".") (split_on "/" s).

(** [sep.join(l)] *)
Fixpoint join_with (sep : string) (l : list string) : string :=
  match l with
  | [] => ""
  | x :: l' =>
      match l' with
      | [] => x
      | _ :: _ => x +:+ sep +:+ join_with sep l'
      end
  end.

(** [str(Path(output_dir) / filename)], for a relative [filename]. *)
Definition path_str (output_dir filename : string) : string :=
  let root := path_root output_dir in
  let parts := path_parts output_dir ++ path_parts filename in
  if bool_decide (root = "") && bool_decide (parts = []) then "."
  else root +:+ join_with "/" parts.

(** *** Insertion-ordered dictionaries of lists ([cutout_paths]) *)

Definition dict (V : Type) : Type := list (string * V).

Fixpoint dict_get {V} (d : dict V) (k : string) : option V :=
  match d with
  | [] => None
  | (k', v) :: d' => if bool_decide (k' = k) then Some v else dict_get d' k
  end.

(** [d[k] = v] *)
Fixpoint dict_set {V} (k : string) (v : V) (d : dict V) : dict V :=
  match d with
  | [] => [(k, v)]
  | (k', v') :: d' =>
      if bool_decide (k' = k) then (k, v) :: d' else (k', v') :: dict_set k v d'
  end.

(** [if k not in d: d[k] = []] followed by [d[k].append(x)] *)
Definition dict_append {V} (k : string) (x : V) (d : dict (list V)) : dict (list V) :=
  dict_set k (default [] (dict_get d k) ++ [x]) d.

(** *** The extractor *)

(** A source citation and the output of one extraction pass for one unit.
    Absent [unit], [sources] and [confidence] entries are read with
    [get(.., default)] and are the empty map or list here. *)
Record source := {
  src_field : string;
  src_chunk_id : string
}.

Record extraction_unit := {
  eu_unit : gmap string value;
  eu_sources : list source;
  eu_confidence : gmap string value
}.

Section extractor.

(** [self.doc]: the page rectangles of the open document. *)
Variable doc : list page_rect.

(** [page.get_pixmap(clip, matrix)] followed by [pix.save]: [true] when
    neither raises.  Arguments: page index, clip rectangle, scale. *)
Variable render : nat → rect → Q → bool.

(** [self.chunks] *)
Variable chunks : list chunk.

(** Lines 180-204: the page lookup and the clip rectangle.  [None] stands
    for the early [return None] and for an exception caught by the
    enclosing [try] (a bbox that does not unpack into four values). *)
Definition resolve_region (page_num : Z) (bbox : list Q) (padding : Z)
    : option (nat * rect) :=
  let page_idx := page_num - 1 in
  if (page_idx <? 0) || (Z.of_nat (length doc) <=? page_idx) then None
  else
    match doc !! Z.to_nat page_idx, bbox with
    | Some pr, [l; t; r; b] => Some (Z.to_nat page_idx, padded_rect pr l t r b padding)
    | _, _ => None
    end.

Definition _extract_single_cutout (field : string) (unit_index : nat)
    (chunk_id : string) (page_num : Z) (bbox : list Q) (output_dir : string)
    (padding : Z) (scale : Q) : option string :=
  match resolve_region page_num bbox padding with
  | None => None
  | Some (page_idx, clip) =>
      if render page_idx clip scale then
        Some (path_str output_dir (cutout_filename unit_index field chunk_id page_num))
      else None
  end.

(** The linear search for the cited chunk. *)
Definition find_chunk (cid : string) : option chunk :=
  List.find (λ c, bool_decide (chunk_id c = cid)) chunks.

(** The body of [for source in sources], on the cutout map. *)
Definition source_step (output_dir : string) (padding : Z) (scale : Q)
    (unit_idx : nat) (cutout_paths : dict (list string)) (src : source)
    : result (dict (list string)) :=
  let field := src_field src in
  let cid := src_chunk_id src in
  if bool_decide (field = "") || bool_decide (cid = "") then Ok cutout_paths
  else
    match find_chunk cid with
    | None => Ok cutout_paths
    | Some chunk_data =>
        match page chunk_data with
        | None => Ok cutout_paths
        | Some page_num =>
            if negb (truthy (bbox chunk_data)) then Ok cutout_paths
            else
              parsed ← _parse_bbox (bbox chunk_data);
              match parsed with
              | None => Ok cutout_paths
              | Some parsed_bbox =>
                  match _extract_single_cutout field unit_idx cid page_num
                          parsed_bbox output_dir padding scale with
                  | Some cutout_path =>
                      Ok (dict_append (field_key (unit_idx + 1) field) cutout_path cutout_paths)
                  | None => Ok cutout_paths
                  end
              end
        end
    end.

(** A loop whose body may raise. *)
Fixpoint for_each {A S} (body : S → A → result S) (l : list A) (s : S) : result S :=
  match l with
  | [] => Ok s
  | x :: l' => s' ← body s x; for_each body l' s'
  end.

(** [CutoutExtractor.extract_cutouts] on a list of units. *)
Definition extract_cutouts (extraction_result : list extraction_unit)
    (output_dir : string) (padding : Z) (scale : Q) : result (dict (list string)) :=
  for_each
    (λ cutout_paths '(unit_idx, unit_data),
       for_each (source_step output_dir padding scale unit_idx)
                (eu_sources unit_data) cutout_paths)
    (imap pair extraction_result) [].

End extractor.

(** ** main.py *)

(** *** String helpers of [upload_cutouts_to_s3] *)

(** [s.split(sep, 1)] when [sep] occurs in [s]: the parts before and after
    the first occurrence; [None] when [sep not in s]. *)
Fixpoint split_once (sep : ascii) (s : string) : option (string * string) :=
  match s with
  | "" => None
  | String c s' =>
      if bool_decide (c = sep) then Some ("", s')
      else match split_once sep s' with
           | Some (a, b) => Some (String c a, b)
           | None => None
           end
  end.

Fixpoint strip_prefix (p s : string) : option string :=
  match p, s with
  | "", _ => Some s
  | String a p', String b s' => if bool_decide (a = b) then strip_prefix p' s' else None
  | String _ _, "" => None
  end.

(** [s.replace(old, new)] for a non-empty [old]: occurrences are replaced
    from the left and do not overlap. *)
Fixpoint replace_go (fuel : nat) (old new s : string) : string :=
  match fuel with
  | O => s
  | S fuel' =>
      match strip_prefix old s with
      | Some rest => new +:+ replace_go fuel' old new rest
      | None =>
          match s with
          | "" => ""
          | String c s' => String c (replace_go fuel' old new s')
          end
      end
  end.

Definition py_replace (old new s : string) : string :=
  replace_go (S (String.length s)) old new s.

(** [os.path.splitext(p)[1]]: the suffix from the last dot, when that dot
    lies in the last path component and some character of the component
    before it is not a dot; otherwise the empty string.  The scan runs over
    the reversed path. *)
Fixpoint has_nondot (rev_head : string) : bool :=
  match rev_head with
  | "" => false
  | String c r =>
      if bool_decide (c = "/"%char) then false
      else if bool_decide (c = "."%char) then has_nondot r
      else true
  end.

Fixpoint ext_scan (rev_p : string) (acc : string) : string :=
  match rev_p with
  | "" => ""
  | String c r =>
      if bool_decide (c = "."%char) then
        if has_nondot r then String c acc else ""
      else if bool_decide (c = "/"%char) then ""
      else ext_scan r (String c acc)
  end.

Definition splitext_ext (p : string) : string := ext_scan (String.rev p) "".

(** [s.lower()] on ASCII letters. *)
Definition lower_char (c : ascii) : ascii :=
  let n := nat_of_ascii c in
  if ((65 <=? n) && (n <=? 90))%nat then ascii_of_nat (n + 32) else c.

Fixpoint py_lower (s : string) : string :=
  match s with
  | "" => ""
  | String c s' => String (lower_char c) (py_lower s')
  end.

(** [content_type_map.get(ext.lower(), 'application/octet-stream')] *)
Definition content_type_of (ext : string) : string :=
  let e := py_lower ext in
  if bool_decide (e = ".png") then "image/png"
  else if bool_decide (e = ".jpg") then "image/jpeg"
  else if bool_decide (e = ".jpeg") then "image/jpeg"
  else if bool_decide (e = ".gif") then "image/gif"
  else if bool_decide (e = ".webp") then "image/webp"
  else "application/octet-stream".

(** *** s3_provider.py: [S3Provider.upload_file_from_path] *)

(** An object of the bucket: the local file it was uploaded from and its
    content type. *)
Record s3_object := {
  obj_source : string;
  obj_content_type : string
}.

Section s3.

(** [os.path.exists] *)
Variable local_exists : string → bool.

(** [s3_client.upload_file(local_path, bucket, key, ExtraArgs)]: [true]
    unless the client raises. *)
Variable client_upload : string → string → string → string → bool.

(** The objects of all buckets, by bucket name and key. *)
Definition upload_file_from_path (store : gmap (string * string) s3_object)
    (local_path bucket_name key content_type : string)
    : gmap (string * string) s3_object * result string :=
  if negb (local_exists local_path) then (store, Raise FileNotFoundError)
  else if client_upload local_path bucket_name key content_type then
    (<[(bucket_name, key) := {| obj_source := local_path;
                                obj_content_type := content_type |}]> store,
     Ok ("s3://" +:+ bucket_name +:+ "/" +:+ key))
  else (store, Raise ClientError).

(** *** [upload_cutouts_to_s3] *)

(** The unit index and the field name read off a field key. *)
Definition split_field_key (field_key : string) : string * string :=
  match split_once "_" field_key with
  | Some (unit_part, field_name) => (py_replace "unit" "" unit_part, field_name)
  | None => ("0", field_key)
  end.

(** [f"contracts/{job_id}/unit_{unit_index}/{field_name}{ext}"] *)
Definition s3_key_of (job_id unit_index field_name ext : string) : string :=
  "contracts/" +:+ job_id +:+ "/unit_" +:+ unit_index +:+ "/" +:+ field_name +:+ ext.

(** The body of [for local_path in local_paths]: an exception of the
    upload is caught and the path skipped. *)
Definition upload_path (bucket_name job_id unit_index field_name : string)
    (st : gmap (string * string) s3_object * list string) (local_path : string)
    : gmap (string * string) s3_object * list string :=
  let '(store, uris) := st in
  let ext := splitext_ext local_path in
  let s3_key := s3_key_of job_id unit_index field_name ext in
  let content_type := content_type_of ext in
  match upload_file_from_path store local_path bucket_name s3_key content_type with
  | (store', Ok s3_uri) => (store', uris ++ [s3_uri])
  | (store', Raise _) => (store', uris)
  end.

(** The body of [for field_key, local_paths in cutout_paths.items()]. *)
Definition upload_field (bucket_name job_id : string)
    (st : gmap (string * string) s3_object * dict (list string))
    (item : string * list string)
    : gmap (string * string) s3_object * dict (list string) :=
  let '(store, s3_cutout_paths) := st in
  let '(field_key, local_paths) := item in
  let '(unit_index, field_name) := split_field_key field_key in
  let '(store', uris) :=
    foldl (upload_path bucket_name job_id unit_index field_name) (store, []) local_paths in
  (store', dict_set field_key uris s3_cutout_paths).

Definition upload_cutouts_to_s3 (store : gmap (string * string) s3_object)
    (cutout_paths : dict (list string)) (bucket_name job_id : string)
    : gmap (string * string) s3_object * dict (list string) :=
  foldl (upload_field bucket_name job_id) (store, []) cutout_paths.

End s3.

(** *** [merge_results_with_cutouts] *)

Record merged_source := {
  ms_field : string;
  chunk_file_key : option string
}.

Record merged_unit := {
  mu_unit : gmap string value;
  mu_sources : list merged_source;
  mu_confidence : gmap string value
}.

(** [s3_uris[0]] when [s3_cutout_paths.get(field_key, [])] is not empty. *)
Definition first_uri (s3_cutout_paths : dict (list string)) (key : string) : option string :=
  match default [] (dict_get s3_cutout_paths key) with
  | u :: _ => Some u
  | [] => None
  end.

(** The entry appended for a source of the contract pass. *)
Definition contract_source (s3_cutout_paths : dict (list string)) (unit_number : nat)
    (src : source) : merged_source :=
  let field := src_field src in
  let cid := src_chunk_id src in
  {| ms_field := field;
     chunk_file_key :=
       match first_uri s3_cutout_paths (field_key unit_number field) with
       | Some u => Some u
       | None => if bool_decide (cid = "calculated") then None else Some cid
       end |}.

(** The body of [for source in installment_sources]. *)
Definition installment_source_step (s3_cutout_paths : dict (list string))
    (unit_number : nat) (merged_sources : list merged_source) (src : source)
    : list merged_source :=
  let field := src_field src in
  let cid := src_chunk_id src in
  if existsb (λ s, bool_decide (ms_field s = field)) merged_sources then merged_sources
  else
    merged_sources ++
      [{| ms_field := field;
          chunk_file_key :=
            match first_uri s3_cutout_paths (field_key unit_number field) with
            | Some u => Some u
            | None => Some cid
            end |}].

(** [installment_unit.get('unit', {}).get('installmentPlans', [])] *)
Definition installment_plans_of (installment_unit : extraction_unit) : value :=
  default (VList []) (eu_unit installment_unit !! "installmentPlans").

(** The body of [for unit_idx, contract_unit in enumerate(contract_result)]. *)
Definition merge_unit (installment_result : list extraction_unit)
    (s3_cutout_paths : dict (list string)) (unit_idx : nat)
    (contract_unit : extraction_unit) : merged_unit :=
  let unit_number := (unit_idx + 1)%nat in
  let unit0 := eu_unit contract_unit in
  let confidence0 := eu_confidence contract_unit in
  let '(unit1, confidence1) :=
    match installment_result !! unit_idx with
    | Some installment_unit =>
        let installment_plans := installment_plans_of installment_unit in
        (if truthy installment_plans
         then <["installmentPlans" := installment_plans]> unit0 else unit0,
         eu_confidence installment_unit ∪ confidence0)
    | None => (unit0, confidence0)
    end in
  let sources1 := contract_source s3_cutout_paths unit_number <$> eu_sources contract_unit in
  let sources2 :=
    match installment_result !! unit_idx with
    | Some installment_unit =>
        foldl (installment_source_step s3_cutout_paths unit_number) sources1
              (eu_sources installment_unit)
    | None => sources1
    end in
  {| mu_unit := unit1; mu_sources := sources2; mu_confidence := confidence1 |}.

Definition merge_results_with_cutouts (contract_result installment_result : list extraction_unit)
    (s3_cutout_paths : dict (list string)) : list merged_unit :=
  imap (merge_unit installment_result s3_cutout_paths) contract_result.

(** *** The combining loop of [main] (step 5)

    [combined_result] starts as a shallow copy of [contract_result]: both
    lists hold the same unit dictionaries, so the updates below are also
    seen through [contract_result]. *)
Definition combine_step (combined_result : list extraction_unit)
    (entry : nat * extraction_unit) : list extraction_unit :=
  let '(unit_idx, installment_unit) := entry in
  match combined_result !! unit_idx with
  | Some cu =>
      <[unit_idx :=
          {| eu_unit := <["installmentPlans" := installment_plans_of installment_unit]> (eu_unit cu);
             eu_sources := eu_sources cu ++ eu_sources installment_unit;
             eu_confidence := eu_confidence installment_unit ∪ eu_confidence cu |}]>
        combined_result
  | None => combined_result ++ [installment_unit]
  end.

Definition combine_results (contract_result installment_result : list extraction_unit)
    : list extraction_unit :=
  foldl combine_step contract_result (imap pair installment_result).

(** *** Steps 5 to 7 of [main]: cutouts, upload, merge *)

Section pipeline.

Variable doc : list page_rect.
Variable render : nat → rect → Q → bool.
Variable local_exists : string → bool.
Variable client_upload : string → string → string → string → bool.

Definition reconcile (chunks : list chunk)
    (store : gmap (string * string) s3_object) (bucket_name job_id : string)
    (contract_result installment_result : list extraction_unit)
    : result (list merged_unit) :=
  let combined_result := combine_results contract_result installment_result in
  (* contract_result as the combining loop left it *)
  let contract_result' := take (length contract_result) combined_result in
  cutout_paths ← extract_cutouts doc render chunks combined_result
                    "/tmp/output/cutouts" 10 2;
  let '(_, s3_cutout_paths) :=
    upload_cutouts_to_s3 local_exists client_upload store cutout_paths bucket_name job_id in
  Ok (merge_results_with_cutouts contract_result' installment_result s3_cutout_paths).

End pipeline.

(** ** The specification's wording, for comparison with the code *)

(** *** GeometryResolver *)

(** Steps 3 to 5 of the resolver: convert to the top-left origin, pad on
    all four sides, clamp to the page. *)
Definition to_top_left (page_height l t r b : Q) : rect :=
  {| x0 := l; y0 := (page_height - t)%Q; x1 := r; y1 := (page_height - b)%Q |}.

Definition expand (pad : Q) (bx : rect) : rect :=
  {| x0 := (x0 bx - pad)%Q; y0 := (y0 bx - pad)%Q;
     x1 := (x1 bx + pad)%Q; y1 := (y1 bx + pad)%Q |}.

Definition clamp_to_page (pr : page_rect) (bx : rect) : rect :=
  {| x0 := py_max 0 (x0 bx); y0 := py_max 0 (y0 bx);
     x1 := py_min (width pr) (x1 bx); y1 := py_min (height pr) (y1 bx) |}.

Definition spec_region (pr : page_rect) (l t r b : Q) (padding : Z) : rect :=
  clamp_to_page pr (expand (inject_Z padding) (to_top_left (height pr) l t r b)).

(** A region that can be rasterized: strictly positive width and height. *)
Definition positive_area (rc : rect) : Prop :=
  (x0 rc < x1 rc)%Q ∧ (y0 rc < y1 rc)%Q.

(** "Resolution yields a region of positive area or a Failure", for one
    input of the resolver. *)
Definition positive_or_failure (doc : list page_rect) (page_num : Z)
    (bbox : list Q) (padding : Z) : Prop :=
  match resolve_region doc page_num bbox padding with
  | Some (_, rc) => positive_area rc
  | None => True
  end.

(** *** CutoutRenderer *)


(** *** EntityReconciler *)

(** The [chunk_file_key] of a citation for which no artifact exists. *)
Definition fallback_key (cid : string) : option string :=
  if bool_decide (cid = "calculated") then None else Some cid.

(** "Every field of every pass's unit [i] is in merged unit [i]", for the
    two passes of [merge_results_with_cutouts]. *)
Definition merge_keeps_every_field (contract_result installment_result : list extraction_unit)
    (s3_cutout_paths : dict (list string)) : Prop :=
  ∀ (i : nat) (u : extraction_unit) (f : string),
    contract_result !! i = Some u ∨ installment_result !! i = Some u →
    is_Some (eu_unit u !! f) →
    ∃ mu, merge_results_with_cutouts contract_result installment_result s3_cutout_paths !! i
          = Some mu
          ∧ is_Some (mu_unit mu !! f).

(** "A citation of the contract pass whose chunk does not exist keeps its
    literal chunk id (null when it is the calculated marker)", for one run
    of the pipeline. *)
Definition dangling_citation_keeps_id (doc : list page_rect)
    (render : nat → rect → Q → bool) (local_exists : string → bool)
    (client_upload : string → string → string → string → bool)
    (chunks : list chunk) (store : gmap (string * string) s3_object)
    (bucket_name job_id : string)
    (contract_result installment_result : list extraction_unit) : Prop :=
  ∀ (merged : list merged_unit) (i j : nat) (u : extraction_unit) (src : source),
    reconcile doc render local_exists client_upload chunks store bucket_name job_id
      contract_result installment_result = Ok merged →
    contract_result !! i = Some u →
    eu_sources u !! j = Some src →
    find_chunk chunks (src_chunk_id src) = None →
    ∃ mu e, merged !! i = Some mu
            ∧ mu_sources mu !! j = Some e
            ∧ chunk_file_key e = fallback_key (src_chunk_id src).

(** ** Whitespace, as the specification words it *)

(** A string made only of characters of a class whose characters are
    encoded in one, two or three bytes. *)
Inductive tokens (m1 : ascii → bool) (m2 : ascii → ascii → bool)
    (m3 : ascii → ascii → ascii → bool) : string → Prop :=
  | tokens_nil : tokens m1 m2 m3 ""
  | tokens_1 c s :
      m1 c = true → tokens m1 m2 m3 s → tokens m1 m2 m3 (String c s)
  | tokens_2 c1 c2 s :
      m2 c1 c2 = true → tokens m1 m2 m3 s → tokens m1 m2 m3 (String c1 (String c2 s))
  | tokens_3 c1 c2 c3 s :
      m3 c1 c2 c3 = true → tokens m1 m2 m3 s →
      tokens m1 m2 m3 (String c1 (String c2 (String c3 s))).

(** A text that holds whitespace characters only (the empty text
    included). *)
Definition whitespace_only (s : string) : Prop :=
  tokens is_py_space is_space2 is_space3 s.

(** *** ChunkModel *)

(** The counter of [chunk_000], [chunk_001], ...: its decimal digits,
    filled with zeros on the left up to three digits. *)
Definition padded_counter (i : nat) : string :=
  (if (i <? 10)%nat then "00" else if (i <? 100)%nat then "0" else "") +:+ pretty i.

(** "A text element with empty/whitespace-only text or missing location
    metadata". *)
Definition skipped_text (item : doc_item) : Prop :=
  item_prov item = []
  ∨ match item_text item with
    | None => True
    | Some s => whitespace_only s
    end.

(** The chunks of the tables alone. *)
Definition table_chunks (doc : document) : list chunk :=
  parse_pdf_to_chunks {| doc_tables := doc_tables doc; doc_items := [] |}.

(** An ASCII character that is not whitespace. *)
Definition ascii_plain(c : ascii) : bool :=
  negb (is_py_space c) && (nat_of_ascii c <? 128)%nat.

(** The characters of a decimal literal. *)
Definition lit_char (c : ascii) : bool :=
  is_digit c
  || bool_decide (c = "_"%char) || bool_decide (c = "."%char)
  || bool_decide (c = "e"%char) || bool_decide (c = "E"%char)
  || bool_decide (c = "+"%char) || bool_decide (c = "-"%char).

(** ** Auxiliary notions of the proofs *)

(** The characters of a string, for list reasoning. *)
Definition chars (s : string) : list ascii := String.list_ascii_of_string s.

(** [enumerate(l)], counting from [start]. *)
Definition enumerate_from {A} (start : nat) (l : list A) : list (nat * A) :=
  imap (λ i x, ((start + i)%nat, x)) l.

(** Equality of rectangles, coordinate by coordinate. *)
Definition rect_eqb (a b : rect) : bool :=
  Qeq_bool (x0 a) (x0 b) && Qeq_bool (y0 a) (y0 b)
  && Qeq_bool (x1 a) (x1 b) && Qeq_bool (y1 a) (y1 b).

(** The characters that structure a bbox string: the separator and the
    parentheses. *)
Definition is_bbox_punct (c : ascii) : bool :=
  bool_decide (c = ","%char) || is_paren c.

(** A numeral: a string that [float] accepts and that holds no separator
    and no parenthesis. *)
Definition numeral_of (s : string) (q : Q) : Prop :=
  float_of_string s = Some q ∧ all_chars (λ c, negb (is_bbox_punct c)) s = true.

(** [f"({a}, {b}, {c}, {d})"] *)
Definition bbox_string (a b c d : string) : string :=
  "(" +:+ a +:+ ", " +:+ b +:+ ", " +:+ c +:+ ", " +:+ d +:+ ")".

(** The local path of an artifact: [str(output_dir / filename)]. *)
Definition artifact_path (output_dir : string) (unit_index : nat)
    (field cid : string) (page_num : Z) : string :=
  path_str output_dir (cutout_filename unit_index field cid page_num).

(** The S3 key and URI that [upload_cutouts_to_s3] computes for a local
    path filed under a field key. *)
Definition s3_key_for (job_id field_key local_path : string) : string :=
  s3_key_of job_id (split_field_key field_key).1 (split_field_key field_key).2
            (splitext_ext local_path).

Definition s3_uri_for (bucket_name job_id field_key local_path : string) : string :=
  "s3://" +:+ bucket_name +:+ "/" +:+ s3_key_for job_id field_key local_path.

(** The upload of a local path goes through: the file exists and the
    client accepts it. *)
Definition upload_succeeds (local_exists : string → bool)
    (client_upload : string → string → string → string → bool)
    (bucket_name job_id field_key local_path : string) : bool :=
  local_exists local_path
  && client_upload local_path bucket_name (s3_key_for job_id field_key local_path)
       (content_type_of (splitext_ext local_path)).

(** The object stored for a local path. *)
Definition s3_object_of (local_path : string) : s3_object :=
  {| obj_source := local_path;
     obj_content_type := content_type_of (splitext_ext local_path) |}.

(** Where an entry of the cutout map comes from: a citation of some unit,
    filed under that unit's and field's key, whose chunk was found, and
    stored under the artifact name of that citation. *)
Definition cutout_justified (chunks : list chunk) (units : list extraction_unit)
    (k p : string) : Prop :=
  ∃ (i : nat) (u : extraction_unit) (src : source) (c : chunk) (dir : string) (pg : Z),
    units !! i = Some u
    ∧ src ∈ eu_sources u
    ∧ k = field_key (i + 1) (src_field src)
    ∧ find_chunk chunks (src_chunk_id src) = Some c
    ∧ p = artifact_path dir i (src_field src) (src_chunk_id src) pg.

(** A merged citation follows the artifact map: when the map has a first
    URI under the citation's field key, that URI is its [chunk_file_key]. *)
Definition uses_first_uri (s3_cutout_paths : dict (list string)) (unit_number : nat)
    (e : merged_source) : Prop :=
  ∀ u, first_uri s3_cutout_paths (field_key unit_number (ms_field e)) = Some u →
       chunk_file_key e = Some u.

(** The artifact map with every list cut down to its first entry. *)
Definition heads_only (s3_cutout_paths : dict (list string)) : dict (list string) :=
  (λ '(k, uris), (k, take 1 uris)) <$> s3_cutout_paths.

(** ** Example data *)

(** A one-page document, 600 wide and 800 high. *)
Definition page_600_800 : page_rect := {| width := 600; height := 800 |}.
Definition one_page_doc : list page_rect := [page_600_800].

(** The clip rectangle of the bbox (700, 700, 800, 650) on that page with
    padding 10: its right edge is clamped to 600, left of its left edge. *)
Definition off_page_clip : rect := {| x0 := 690; y0 := 90; x1 := 600; y1 := 160 |}.

(** A provenance entry on page 1, and a document with two tables (the
    first without provenance) and five elements in reading order: a
    heading, a blank paragraph, a paragraph without provenance, an element
    without text and a paragraph. *)
Definition prov_page_1 : prov_item :=
  {| prov_l := 72; prov_t := 700; prov_r := 300; prov_b := 650; page_no := 1 |}.

Definition sample_document : document :=
  {| doc_tables :=
       [{| table_prov := []; table_markdown := "| a |" |};
        {| table_prov := [prov_page_1]; table_markdown := "| parcela | valor |" |}];
     doc_items :=
       [{| item_text := Some "CONTRATO"; item_prov := [prov_page_1];
           item_label := Some "section_header" |};
        {| item_text := Some "   "; item_prov := [prov_page_1];
           item_label := Some "paragraph" |};
        {| item_text := Some "Unidade 64"; item_prov := [];
           item_label := Some "paragraph" |};
        {| item_text := None; item_prov := [prov_page_1]; item_label := Some "table" |};
        {| item_text := Some "Compradora: Ana"; item_prov := [prov_page_1];
           item_label := Some "paragraph" |}] |}.

(** A chunk on page 1 with the bbox of the worked example. *)
Definition chunk_000 : chunk :=
  {| chunk_id := "chunk_000"; text := "Compradora: Ana"; page := Some 1;
     bbox := VTuple [VFloat 100; VFloat 700; VFloat 300; VFloat 650];
     element_type := Some "paragraph" |}.

(** A chunk whose bbox list holds a null coordinate, and a unit citing it. *)
Definition null_bbox_chunk : chunk :=
  {| chunk_id := "chunk_000"; text := "Unidade 64"; page := Some 1;
     bbox := VList [VNone; VFloat 20; VFloat 100; VFloat 200];
     element_type := Some "paragraph" |}.

Definition unit_citing_chunk_000 : extraction_unit :=
  {| eu_unit := {["unitCode" := VStr "64"]};
     eu_sources := [{| src_field := "unitCode"; src_chunk_id := "chunk_000" |}];
     eu_confidence := {["unitCode" := VStr "high"]} |}.

(** A contract unit whose field is cited twice: from [chunk_000] and from
    [chunk_999], which is in no chunk list here. *)
Definition unit_cited_twice : extraction_unit :=
  {| eu_unit := {["buyerName" := VStr "Ana"]};
     eu_sources := [{| src_field := "buyerName"; src_chunk_id := "chunk_000" |};
                    {| src_field := "buyerName"; src_chunk_id := "chunk_999" |}];
     eu_confidence := {["buyerName" := VStr "high"]} |}.

(** One unit from the contract pass (no unit code found), and two units
    from the installment pass. *)
Definition contract_unit_ana : extraction_unit :=
  {| eu_unit := {["buyerName" := VStr "Ana"]};
     eu_sources := [{| src_field := "buyerName"; src_chunk_id := "chunk_001" |}];
     eu_confidence := {["buyerName" := VStr "high"]} |}.

Definition plan_atos : value :=
  VList [VDict [("series", VStr "ATO"); ("totalInstallments", VInt 1)]].

Definition installment_unit_64 : extraction_unit :=
  {| eu_unit := <["unitCode" := VStr "64"]> {["installmentPlans" := plan_atos]};
     eu_sources := [{| src_field := "installmentPlans"; src_chunk_id := "chunk_002" |}];
     eu_confidence := {["installmentPlans" := VStr "medium"]} |}.

Definition installment_unit_65 : extraction_unit :=
  {| eu_unit := <["unitCode" := VStr "65"]> {["installmentPlans" := plan_atos]};
     eu_sources := [{| src_field := "installmentPlans"; src_chunk_id := "chunk_004" |}];
     eu_confidence := {["installmentPlans" := VStr "low"]} |}.

(** Two artifacts of one field (the field spans two chunks), as filed by
    [extract_cutouts] under the key [unit1_buyerName]. *)
Definition two_cutouts : dict (list string) :=
  [("unit1_buyerName",
    [artifact_path "/tmp/output/cutouts" 0 "buyerName" "chunk_001" 1;
     artifact_path "/tmp/output/cutouts" 0 "buyerName" "chunk_002" 1])].

(** An artifact map with two artifacts under one field key. *)
Definition two_artifacts : dict (list string) :=
  [("unit1_buyerName",
    ["s3://bucket/contracts/job/unit_1/buyerName.png";
     "s3://bucket/contracts/job/unit_1/buyerName_2.png"])].

(** ** Further notions used by the additional properties *)

(** The values that [float] rejects with [TypeError]. *)
Definition float_type_error (x : value) : Prop :=
  match x with
  | VNone | VList _ | VTuple _ | VDict _ => True
  | _ => False
  end.

(** The values that [float] rejects with [OverflowError]. *)
Definition float_overflow (x : value) : Prop :=
  match x with
  | VInt z => (float_int_bound <= Z.abs z)%Z
  | _ => False
  end.

(** The exceptions of [float] that the handler of [_parse_bbox] does not
    catch. *)
Definition float_escapes (x : value) (e : exn) : Prop :=
  (e = TypeError ∧ float_type_error x) ∨ (e = OverflowError ∧ float_overflow x).

(** A citation on which the body of the source loop raises: it names a
    field and a chunk, the chunk is found and has a page and a non-empty
    bbox, and [_parse_bbox] raises [e] on that bbox. *)
Definition raising_citation (chunks : list chunk) (src : source) (e : exn) : Prop :=
  src_field src ≠ "" ∧ src_chunk_id src ≠ ""
  ∧ ∃ (c : chunk) (pg : Z),
      find_chunk chunks (src_chunk_id src) = Some c
      ∧ page c = Some pg
      ∧ truthy (bbox c) = true
      ∧ _parse_bbox (bbox c) = Raise e.

(** A citation that yields the cutout [p]: it names a field and a chunk,
    the chunk is found and has a page and a bbox that parses, and
    [_extract_single_cutout] returns [p] for it. *)
Definition rendered_citation (doc : list page_rect) (render : nat → rect → Q → bool)
    (chunks : list chunk) (output_dir : string) (padding : Z) (scale : Q)
    (unit_idx : nat) (src : source) (p : string) : Prop :=
  src_field src ≠ "" ∧ src_chunk_id src ≠ ""
  ∧ ∃ (c : chunk) (pg : Z) (coords : list Q),
      find_chunk chunks (src_chunk_id src) = Some c
      ∧ page c = Some pg
      ∧ truthy (bbox c) = true
      ∧ _parse_bbox (bbox c) = Ok (Some coords)
      ∧ _extract_single_cutout doc render (src_field src) unit_idx (src_chunk_id src)
          pg coords output_dir padding scale = Some p.

(** The unit that the combining loop of [main] leaves at an index held by
    both passes: the installment pass's [installmentPlans] is set, its
    sources are appended and its confidence entries are added. *)
Definition combined_unit (cu iu : extraction_unit) : extraction_unit :=
  {| eu_unit := <["installmentPlans" := installment_plans_of iu]> (eu_unit cu);
     eu_sources := eu_sources cu ++ eu_sources iu;
     eu_confidence := eu_confidence iu ∪ eu_confidence cu |}.

(** The entry that [merge_results_with_cutouts] appends for a source of
    the installment pass whose field is not cited yet. *)
Definition installment_source (s3_cutout_paths : dict (list string)) (unit_number : nat)
    (src : source) : merged_source :=
  {| ms_field := src_field src;
     chunk_file_key :=
       Some (default (src_chunk_id src)
               (first_uri s3_cutout_paths (field_key unit_number (src_field src)))) |}.

(** ** main.py: chunk statistics and the local path of the handler *)

(** [chunk['element_type'] or 'unknown'] *)
Definition etype_of (c : chunk) : string :=
  match element_type c with
  | Some etype => if bool_decide (etype = "") then "unknown" else etype
  | None => "unknown"
  end.

(** The body of [for chunk in chunks]:
    [element_types[etype] = element_types.get(etype, 0) + 1]. *)
Definition count_step (element_types : gmap string nat) (c : chunk) : gmap string nat :=
  let etype := etype_of c in
  <[etype := (default O (element_types !! etype) + 1)%nat]> element_types.

(** The histogram of element types that [main] (and the script of
    pdf_parser.py) prints. *)
Definition element_types (chunks : list chunk) : gmap string nat :=
  foldl count_step ∅ chunks.

(** [handler]: [file_name = file_key.split('/')[-1]] and
    [local_file_path = f"/tmp/{file_name}"]. *)
Definition file_name_of (file_key : string) : string :=
  default "" (last (split_on "/" file_key)).

Definition local_file_path (file_key : string) : string :=
  "/tmp/" +:+ file_name_of file_key.

(** The number of chunks of an element type, and the sum of the counts of
    a histogram. *)
Definition chunks_of_type (etype : string) (chunks : list chunk) : nat :=
  length (filter (λ c, etype_of c = etype) chunks).

Definition total_count (element_types : gmap string nat) : nat :=
  map_fold (λ _ n acc, (n + acc)%nat) O element_types.

(** A string without the given character. *)
Definition free_of (sep : ascii) (s : string) : bool :=
  all_chars (λ c, negb (bool_decide (c = sep))) s.

(** ** agents: the code fence around the model's answer

    [ContractInformationAgent.extract_information] and
    [InstallmentSeriesAgent.extract_information] clean the answer of the
    language model in the same way before parsing it as JSON. *)

(** [s.startswith(p)] and [s.endswith(p)] *)
Definition starts_with (p s : string) : bool :=
  match strip_prefix p s with Some _ => true | None => false end.

Definition ends_with (p s : string) : bool :=
  starts_with (String.rev p) (String.rev s).

(** [s[n:]] and [s[:-n]] (for [n > 0]) *)
Fixpoint drop_chars (n : nat) (s : string) : string :=
  match n, s with
  | O, _ => s
  | S _, "" => ""
  | S n', String _ s' => drop_chars n' s'
  end.

Definition drop_last_chars (n : nat) (s : string) : string :=
  String.rev (drop_chars n (String.rev s)).

(** Lines 179 to 186 of contract_information_agent.py (211 to 218 of
    installment_series_agent.py). *)
Definition strip_code_fence (content : string) : string :=
  let content := py_strip content in
  let content := if starts_with "```json" content then drop_chars 7 content else content in
  let content := if starts_with "```" content then drop_chars 3 content else content in
  let content := if ends_with "```" content then drop_last_chars 3 content else content in
  py_strip content.

(** A text that starts with an opening bracket or brace and ends with a
    closing one, as a JSON array or object does. *)
Definition bracketed (body : string) : Prop :=
  ∃ (a z : ascii) (mid front : string),
    body = String a mid ∧ body = front +:+ String z ""
    ∧ (a = "["%char ∨ a = "{"%char) ∧ (z = "]"%char ∨ z = "}"%char).

(** A line break, as it surrounds a fenced answer. *)
Definition line_break : string := String "010"%char "".

(** * Properties *)

(** ** Decimal numerals *)

Section numerals.

Lemma digit_val_pretty_N_char (d : N) :
  (d < 10)%N → digit_val (pretty_N_char d) = d.
Proof.
  intros Hd.
  assert (d = 0 ∨ d = 1 ∨ d = 2 ∨ d = 3 ∨ d = 4 ∨ d = 5 ∨ d = 6
          ∨ d = 7 ∨ d = 8 ∨ d = 9)%N as Hcases by lia.
  repeat (destruct Hcases as [-> | Hcases]; [reflexivity |]).
  by subst.
Qed.

Lemma is_digit_pretty_N_char (d : N) : is_digit (pretty_N_char d) = true.
Proof. unfold pretty_N_char. by repeat case_match. Qed.

Lemma read_acc_pretty_N_go (x : N) (s : string) :
  read_acc (pretty_N_go x s) 0 = read_acc s x.
Proof.
  revert s. induction (N.lt_wf_0 x) as [x _ IH]; intros s.
  destruct (decide (x = 0)%N) as [-> | Hx].
  - by rewrite pretty_N_go_0.
  - rewrite pretty_N_go_step by lia.
    rewrite IH by (apply N.div_lt; lia). simpl.
    rewrite digit_val_pretty_N_char by (apply N.mod_lt; lia).
    f_equal. pose proof (N.div_mod x 10). lia.
Qed.

Lemma read_acc_pretty_nat (n : nat) : read_acc (pretty n) 0 = N.of_nat n.
Proof.
  unfold pretty, pretty_nat, pretty, pretty_N.
  case_decide as Hn; [by rewrite Hn |].
  by rewrite read_acc_pretty_N_go.
Qed.

Lemma read_acc_zeros (k : nat) (s : string) :
  read_acc (zeros k +:+ s) 0 = read_acc s 0.
Proof. induction k as [| k IH]; [done | exact IH]. Qed.

Lemma all_digits_pretty_N_go (x : N) (s : string) :
  all_chars is_digit s = true → all_chars is_digit (pretty_N_go x s) = true.
Proof.
  revert s. induction (N.lt_wf_0 x) as [x _ IH]; intros s Hs.
  destruct (decide (x = 0)%N) as [-> | Hx].
  - by rewrite pretty_N_go_0.
  - rewrite pretty_N_go_step by lia.
    apply IH; [apply N.div_lt; lia |]. simpl.
    by rewrite is_digit_pretty_N_char.
Qed.

Lemma all_digits_pretty_nat (n : nat) : all_chars is_digit (pretty n) = true.
Proof.
  unfold pretty, pretty_nat, pretty, pretty_N.
  case_decide; [done |]. by apply all_digits_pretty_N_go.
Qed.

Lemma chunk_label_inj (m n : nat) : chunk_label m = chunk_label n → m = n.
Proof.
  unfold chunk_label, zero_pad. intros H.
  apply (inj (String.app "chunk_")) in H.
  apply (f_equal (λ s, read_acc s 0)) in H.
  rewrite !read_acc_zeros, !read_acc_pretty_nat in H. lia.
Qed.

End numerals.

(** ** ChunkModel: [parse_pdf_to_chunks] *)

Section chunk_model.

Implicit Types (doc : document) (es : list (string → chunk)).

#[local] Arguments table_step : simpl never.
#[local] Arguments item_step : simpl never.

Lemma number_chunks_app (n : nat) es1 es2 :
  number_chunks n (es1 ++ es2)
  = number_chunks n es1 ++ number_chunks (n + length es1) es2.
Proof.
  unfold number_chunks. rewrite imap_app. f_equal.
  apply imap_ext; intros i mk _; simpl. by rewrite Nat.add_assoc.
Qed.

Lemma number_chunks_cons (n : nat) (mk : string → chunk) es :
  number_chunks n (mk :: es) = mk (chunk_label n) :: number_chunks (S n) es.
Proof.
  unfold number_chunks. rewrite imap_cons, Nat.add_0_r. f_equal.
  apply imap_ext; intros i mk' _; simpl. f_equal. f_equal. lia.
Qed.

Lemma table_step_emitter (t : table_item) (chunks : list chunk) (n : nat) :
  table_step (chunks, n) t
  = match table_emitter t with
    | Some mk => (chunks ++ [mk (chunk_label n)], S n)
    | None => (chunks, n)
    end.
Proof. unfold table_step, table_emitter. by destruct (table_prov t). Qed.

(** The table loop: the counter advances exactly with the emitted chunks. *)
Lemma foldl_table_step (ts : list table_item) (chunks : list chunk) (n : nat) :
  foldl table_step (chunks, n) ts
  = (chunks ++ number_chunks n (omap table_emitter ts),
     (n + length (omap table_emitter ts))%nat).
Proof.
  revert chunks n. induction ts as [| t ts IH]; intros chunks n; simpl.
  - by rewrite app_nil_r, Nat.add_0_r.
  - rewrite table_step_emitter. destruct (table_emitter t) as [mk |]; simpl.
    + rewrite IH, number_chunks_cons, <- app_assoc. simpl. f_equal.
      unfold omap. lia.
    + apply IH.
Qed.

Lemma py_strip_empty : py_strip "" = "".
Proof. reflexivity. Qed.

(** The two guards of the text loop skip exactly the elements that the
    specification does not emit. *)
Lemma item_step_emitter (item : doc_item) (chunks : list chunk) (n : nat) :
  item_step (chunks, n) item
  = match text_emitter item with
    | Some mk => (chunks ++ [mk (chunk_label n)], S n)
    | None => (chunks, n)
    end.
Proof.
  unfold item_step, text_emitter, blank_text.
  destruct (item_text item) as [txt |]; [| done].
  destruct (decide (txt = "")) as [-> | Hne].
  - rewrite py_strip_empty. simpl. by destruct (item_prov item).
  - rewrite (bool_decide_eq_false_2 _ Hne). simpl.
    destruct (bool_decide (py_strip txt = "")); simpl; [by destruct (item_prov item) |].
    by destruct (item_prov item).
Qed.

Lemma foldl_item_step (its : list doc_item) (chunks : list chunk) (n : nat) :
  foldl item_step (chunks, n) its
  = (chunks ++ number_chunks n (omap text_emitter its),
     (n + length (omap text_emitter its))%nat).
Proof.
  revert chunks n. induction its as [| it its IH]; intros chunks n; simpl.
  - by rewrite app_nil_r, Nat.add_0_r.
  - rewrite item_step_emitter. destruct (text_emitter it) as [mk |]; simpl.
    + rewrite IH, number_chunks_cons, <- app_assoc. simpl. f_equal.
      unfold omap. lia.
    + apply IH.
Qed.

Lemma parse_pdf_to_chunks_emitted doc :
  parse_pdf_to_chunks doc = number_chunks 0 (emitted doc).
Proof.
  unfold parse_pdf_to_chunks, emitted.
  rewrite foldl_table_step, foldl_item_step. simpl.
  by rewrite number_chunks_app.
Qed.

(** Every emitter stores the identifier it is given. *)
Lemma emitted_chunk_id doc (mk : string → chunk) (id : string) :
  mk ∈ emitted doc → chunk_id (mk id) = id.
Proof.
  unfold emitted. rewrite elem_of_app, !list_elem_of_omap.
  intros [(t & _ & Ht) | (it & _ & Hit)].
  - unfold table_emitter in Ht. destruct (table_prov t); by simplify_eq.
  - unfold text_emitter in Hit.
    destruct (item_text it), (item_prov it); try done.
    case_bool_decide; by simplify_eq.
Qed.

Lemma parse_pdf_to_chunks_ids doc :
  chunk_id <$> parse_pdf_to_chunks doc
  = chunk_label <$> seq 0 (length (emitted doc)).
Proof.
  rewrite parse_pdf_to_chunks_emitted. unfold number_chunks.
  apply list_eq; intros i.
  rewrite !list_lookup_fmap, list_lookup_imap.
  destruct (emitted doc !! i) as [mk |] eqn:Hi; simpl.
  - rewrite (lookup_seq_lt 0 _ i) by (by eapply lookup_lt_Some). simpl.
    f_equal. eapply emitted_chunk_id, list_elem_of_lookup_2, Hi.
  - rewrite lookup_seq_ge; [done |]. by apply lookup_ge_None.
Qed.

End chunk_model.

(** ** GeometryResolver: the clip rectangle *)

Section geometry.

Implicit Types (pr : page_rect) (l t r b : Q) (padding : Z).

Lemma py_max_lower (a v : Q) : (a <= py_max a v)%Q ∧ (v <= py_max a v)%Q.
Proof. unfold py_max. destruct (Qlt_le_dec a v); split; lra. Qed.

Lemma py_min_upper (a v : Q) : (py_min a v <= a)%Q ∧ (py_min a v <= v)%Q.
Proof. unfold py_min. destruct (Qlt_le_dec v a); split; lra. Qed.

(** A clamped interval is non-empty exactly when the interval and the
    bounds overlap. *)
Lemma clamped_interval_positive (hi a c : Q) :
  (py_max 0 a < py_min hi c)%Q ↔ (0 < hi ∧ 0 < c ∧ a < hi ∧ a < c)%Q.
Proof.
  unfold py_max, py_min.
  destruct (Qlt_le_dec 0 a), (Qlt_le_dec c hi); split; intros; try split; lra.
Qed.

Lemma padded_rect_spec_region pr l t r b padding :
  padded_rect pr l t r b padding = spec_region pr l t r b padding.
Proof. reflexivity. Qed.

Lemma resolve_region_in_range (doc : list page_rect) (page_num : Z) pr l t r b padding :
  1 <= page_num →
  doc !! Z.to_nat (page_num - 1) = Some pr →
  resolve_region doc page_num [l; t; r; b] padding
  = Some (Z.to_nat (page_num - 1), padded_rect pr l t r b padding).
Proof.
  intros Hpage Hpr. unfold resolve_region.
  apply lookup_lt_Some in Hpr as Hlen.
  assert ((page_num - 1 <? 0) = false) as -> by lia.
  assert ((Z.of_nat (length doc) <=? page_num - 1) = false) as -> by lia.
  simpl. by rewrite Hpr.
Qed.

End geometry.

(** C2.  The clip rectangle computed by [_extract_single_cutout] is the
    bottom-left bbox converted by [top = H - t], [bottom = H - b], expanded
    by the padding on all four sides and clamped (left and top to 0, right
    and bottom to the page width and height); it lies within the page
    bounds; and for H = 800, W = 600, bbox = (100, 700, 300, 650) and
    padding 10 the resolved region is left 90, top 90, right 310,
    bottom 160. *)
Theorem padded_rect_convert_pad_clamp (pr : page_rect) (l t r b : Q) (padding : Z) :
  let rc := padded_rect pr l t r b padding in
  rc = clamp_to_page pr (expand (inject_Z padding) (to_top_left (height pr) l t r b))
  ∧ to_top_left (height pr) l t r b
    = {| x0 := l; y0 := (height pr - t)%Q; x1 := r; y1 := (height pr - b)%Q |}
  ∧ (0 <= x0 rc ∧ 0 <= y0 rc ∧ x1 rc <= width pr ∧ y1 rc <= height pr)%Q
  ∧ (l - inject_Z padding <= x0 rc ∧ height pr - t - inject_Z padding <= y0 rc
     ∧ x1 rc <= r + inject_Z padding ∧ y1 rc <= height pr - b + inject_Z padding)%Q
  ∧ resolve_region one_page_doc 1 [100; 700; 300; 650]%Q 10
    = Some (O, {| x0 := 90; y0 := 90; x1 := 310; y1 := 160 |}).
Proof.
  cbv zeta. split; [reflexivity |]. split; [reflexivity |].
  unfold padded_rect; simpl.
  repeat split;
    try (apply py_max_lower); try (apply py_min_upper).
Qed.

(** C3, as stated, fails: a well-formed bbox on a page of positive height
    whose padded box lies right of the page (left 700 on a page 600 wide)
    resolves to a region of negative width, and that region is handed to
    the rasterizer: with a rasterizer that accepts exactly this rectangle
    the extraction succeeds. *)
Lemma degenerate_region_reaches_rasterizer :
  resolve_region one_page_doc 1 [700; 700; 800; 650]%Q 10 = Some (O, off_page_clip)
  ∧ ¬ positive_or_failure one_page_doc 1 [700; 700; 800; 650]%Q 10
  ∧ _extract_single_cutout one_page_doc (λ _ rc _, rect_eqb rc off_page_clip)
      "unitCode" 0 "chunk_000" 1 [700; 700; 800; 650]%Q "/tmp/output/cutouts" 10 2
    = Some "/tmp/output/cutouts/unit1_unitCode_chunk_000_page1.png".
Proof.
  split; [reflexivity |]. split; [| reflexivity].
  unfold positive_or_failure, positive_area. simpl.
  intros [Hw _]. revert Hw. unfold Qlt. simpl. lia.
Qed.

(** C3, amended.  For a 4-tuple bbox on a page of the document, resolution
    never fails and makes no degeneracy check: it yields the padded, clamped
    region, and whether a cutout is produced is then decided by the
    rasterizer alone.  The region has strictly positive width and height
    exactly when the padded box overlaps the interior of the page. *)
Theorem resolve_region_positive_area_iff (doc : list page_rect)
    (render : nat → rect → Q → bool) (page_num : Z) (pr : page_rect)
    (l t r b : Q) (padding : Z) (field cid output_dir : string)
    (unit_index : nat) (scale : Q) :
  1 <= page_num →
  doc !! Z.to_nat (page_num - 1) = Some pr →
  let p := inject_Z padding in
  let rc := padded_rect pr l t r b padding in
  resolve_region doc page_num [l; t; r; b] padding = Some (Z.to_nat (page_num - 1), rc)
  ∧ _extract_single_cutout doc render field unit_index cid page_num [l; t; r; b]
      output_dir padding scale
    = (if render (Z.to_nat (page_num - 1)) rc scale
       then Some (path_str output_dir (cutout_filename unit_index field cid page_num))
       else None)
  ∧ (positive_area rc ↔
       (0 < width pr ∧ 0 < r + p ∧ l - p < width pr ∧ l - p < r + p)%Q
       ∧ (0 < height pr ∧ 0 < height pr - b + p
          ∧ height pr - t - p < height pr ∧ height pr - t - p < height pr - b + p)%Q).
Proof.
  intros Hpage Hpr. cbv zeta.
  pose proof (resolve_region_in_range doc page_num pr l t r b padding Hpage Hpr) as Hres.
  split; [exact Hres |]. split.
  - unfold _extract_single_cutout. by rewrite Hres.
  - unfold positive_area, padded_rect; simpl.
    by rewrite !clamped_interval_positive.
Qed.

Lemma resolve_region_positive_area_iff_witness :
  resolve_region one_page_doc 1 [100; 700; 300; 650]%Q 10
  = Some (Z.to_nat (1 - 1), padded_rect page_600_800 100 700 300 650 10)
  ∧ _extract_single_cutout one_page_doc (λ _ _ _, true) "unitCode" 0 "chunk_000" 1
      [100; 700; 300; 650]%Q "/tmp/output/cutouts" 10 2
    = (if true
       then Some (path_str "/tmp/output/cutouts"
                    (cutout_filename 0 "unitCode" "chunk_000" 1))
       else None)
  ∧ (positive_area (padded_rect page_600_800 100 700 300 650 10) ↔
       (0 < width page_600_800 ∧ 0 < 300 + inject_Z 10
        ∧ 100 - inject_Z 10 < width page_600_800
        ∧ 100 - inject_Z 10 < 300 + inject_Z 10)%Q
       ∧ (0 < height page_600_800 ∧ 0 < height page_600_800 - 650 + inject_Z 10
          ∧ height page_600_800 - 700 - inject_Z 10 < height page_600_800
          ∧ height page_600_800 - 700 - inject_Z 10
            < height page_600_800 - 650 + inject_Z 10)%Q).
Proof.
  apply (resolve_region_positive_area_iff one_page_doc (λ _ _ _, true) 1
           page_600_800 100 700 300 650 10
           "unitCode" "chunk_000" "/tmp/output/cutouts" 0 2).
  - lia.
  - reflexivity.
Defined.

(** ** Strings as character lists *)

Section string_lists.

Implicit Types (s : string) (cs ds : list ascii) (c : ascii).

Lemma chars_app s1 s2 : chars (s1 +:+ s2) = chars s1 ++ chars s2.
Proof. induction s1 as [| c s1 IH]; [done |]. unfold chars in *; simpl. by rewrite <- IH. Qed.

Lemma chars_inj s1 s2 : chars s1 = chars s2 → s1 = s2.
Proof.
  intros H. rewrite <- (String.string_of_list_ascii_of_string s1),
    <- (String.string_of_list_ascii_of_string s2). unfold chars in H. by rewrite H.
Qed.

Lemma chars_rev_app s1 s2 : chars (String.rev_app s1 s2) = reverse (chars s1) ++ chars s2.
Proof.
  revert s2. induction s1 as [| c s1 IH]; intros s2; [done |].
  simpl. rewrite IH. unfold chars; simpl. by rewrite reverse_cons, <- app_assoc.
Qed.

Lemma chars_rev s : chars (String.rev s) = reverse (chars s).
Proof. unfold String.rev. by rewrite chars_rev_app, app_nil_r. Qed.

Lemma all_chars_Forall (P : ascii → bool) s :
  all_chars P s = true ↔ Forall (λ c, P c = true) (chars s).
Proof.
  induction s as [| c s IH]; simpl.
  - split; [constructor | done].
  - unfold chars in *; simpl. rewrite andb_true_iff, Forall_cons, IH. done.
Qed.

(** A run of digits followed by a character that is not a digit is
    determined by the whole string. *)
Lemma digit_prefix_unique ds1 ds2 c1 c2 cs1 cs2 :
  Forall (λ c, is_digit c = true) ds1 →
  Forall (λ c, is_digit c = true) ds2 →
  is_digit c1 = false → is_digit c2 = false →
  ds1 ++ c1 :: cs1 = ds2 ++ c2 :: cs2 →
  ds1 = ds2 ∧ c1 = c2 ∧ cs1 = cs2.
Proof.
  intros H1 H2 Hc1 Hc2. revert ds2 H2.
  induction H1 as [| d ds1 Hd _ IH]; intros ds2 H2 Heq.
  - destruct H2 as [| d2 ds2 Hd2 _]; simplify_eq/=; [done | congruence].
  - destruct H2 as [| d2 ds2 Hd2 H2]; simplify_eq/=; [congruence |].
    match goal with H : ds1 ++ _ = _ |- _ =>
      by destruct (IH ds2 H2 H) as (-> & -> & ->) end.
Qed.


End string_lists.

(** ** CutoutRenderer: artifact names *)

Section naming.

Implicit Types (cs ds : list ascii) (f : string) (k i : nat) (p : Z).

Lemma digits_pretty_N (n : N) : Forall (λ c, is_digit c = true) (chars (pretty n)).
Proof.
  apply all_chars_Forall. unfold pretty, pretty_N.
  case_decide; [done |]. by apply all_digits_pretty_N_go.
Qed.

Lemma digits_pretty_nat (n : nat) : Forall (λ c, is_digit c = true) (chars (pretty n)).
Proof. apply digits_pretty_N. Qed.

(** A printed integer is a run of digits, after a minus sign when it is
    negative. *)
Lemma chars_pretty_Z p :
  ∃ ds, Forall (λ c, is_digit c = true) ds
        ∧ (chars (pretty p) = ds ∨ chars (pretty p) = "-"%char :: ds).
Proof.
  destruct p as [| x | x].
  - exists (chars "0"). split; [by repeat constructor | by left].
  - exists (chars (pretty (N.pos x))). split; [apply digits_pretty_N | by left].
  - exists (chars (pretty (N.pos x))). split; [apply digits_pretty_N | right].
    change (pretty (Z.neg x)) with ("-" +:+ pretty (N.pos x)).
    by rewrite chars_app.
Qed.





Lemma unit_prefix_inj (m n : nat) f1 f2 :
  "unit" +:+ pretty m +:+ "_" +:+ f1 = "unit" +:+ pretty n +:+ "_" +:+ f2 →
  m = n ∧ f1 = f2.
Proof.
  intros Heq. apply (inj (String.app "unit")) in Heq.
  apply (f_equal chars) in Heq. rewrite !chars_app in Heq.
  apply digit_prefix_unique in Heq as (Hm & _ & Hf);
    [| apply digits_pretty_nat | apply digits_pretty_nat | done | done].
  split; [apply (inj pretty); by apply chars_inj | by apply chars_inj].
Qed.

Lemma field_key_inj (m n : nat) f1 f2 :
  field_key m f1 = field_key n f2 → m = n ∧ f1 = f2.
Proof. apply unit_prefix_inj. Qed.



End naming.




(** ** Bounding-box parsing *)

Section parse_bbox.

Lemma parse_bbox_string_list_example :
  _parse_bbox (VStr "(10, 20, 100, 200)") = Ok (Some [10; 20; 100; 200]%Q)
  ∧ _parse_bbox (VList [VFloat 10; VFloat 20; VFloat 100; VFloat 200])
    = Ok (Some [10; 20; 100; 200]%Q)
  ∧ _parse_bbox (VTuple [VFloat 10; VFloat 20; VFloat 100; VFloat 200])
    = Ok (Some [10; 20; 100; 200]%Q).
Proof. repeat split; reflexivity. Qed.

(** Wrong arity is a parse failure, for lists and tuples. *)
Lemma parse_bbox_wrong_arity (l : list value) :
  length l ≠ 4%nat →
  _parse_bbox (VList l) = Ok None ∧ _parse_bbox (VTuple l) = Ok None.
Proof.
  intros Hlen. unfold _parse_bbox.
  assert ((length l =? 4)%nat = false) as -> by (by apply Nat.eqb_neq).
  done.
Qed.

(** A value that is neither a list, a tuple nor a string is a parse failure. *)
Lemma parse_bbox_other_type (v : value) :
  match v with VList _ | VTuple _ | VStr _ => False | _ => True end →
  _parse_bbox v = Ok None.
Proof. by destruct v. Qed.

Lemma parse_bbox_non_numeric_examples :
  _parse_bbox (VStr "(10, 20, abc, 200)") = Ok None
  ∧ _parse_bbox (VStr "10, 20, 100") = Ok None
  ∧ _parse_bbox (VList [VStr "left"; VFloat 20; VFloat 100; VFloat 200]) = Ok None.
Proof. repeat split; reflexivity. Qed.

End parse_bbox.

(** C7.  A bbox of another shape should be a parse Failure, reported by
    [_parse_bbox] as [None] so that the citation is skipped.  For a
    4-element list with a null coordinate the conversion raises [TypeError],
    which the handler for [ValueError] and [AttributeError] does not catch:
    the exception leaves [_parse_bbox] and aborts [extract_cutouts] for the
    whole document. *)
Theorem parse_bbox_null_coordinate_raises :
  _parse_bbox (VList [VNone; VFloat 20; VFloat 100; VFloat 200]) = Raise TypeError
  ∧ extract_cutouts one_page_doc (λ _ _ _, true) [null_bbox_chunk]
      [unit_citing_chunk_000] "/tmp/output/cutouts" 10 2
    = Raise TypeError.
Proof. split; reflexivity. Qed.

(** ** EntityReconciler: [merge_results_with_cutouts] *)

Section merge.

Implicit Types (contract installment : list extraction_unit)
  (uris : dict (list string)) (mu : merged_unit) (e : merged_source).

Lemma length_merge_results contract installment uris :
  length (merge_results_with_cutouts contract installment uris) = length contract.
Proof. unfold merge_results_with_cutouts. apply length_imap. Qed.

Lemma lookup_merge_results contract installment uris (i : nat) :
  merge_results_with_cutouts contract installment uris !! i
  = merge_unit installment uris i <$> contract !! i.
Proof. unfold merge_results_with_cutouts. apply list_lookup_imap. Qed.

(** The field map of a merged unit. *)
Lemma mu_unit_merge_unit installment uris (i : nat) (cu : extraction_unit) :
  mu_unit (merge_unit installment uris i cu)
  = match installment !! i with
    | Some iu =>
        if truthy (installment_plans_of iu)
        then <["installmentPlans" := installment_plans_of iu]> (eu_unit cu)
        else eu_unit cu
    | None => eu_unit cu
    end.
Proof. unfold merge_unit. by destruct (installment !! i). Qed.

Lemma mu_sources_merge_unit installment uris (i : nat) (cu : extraction_unit) :
  mu_sources (merge_unit installment uris i cu)
  = match installment !! i with
    | Some iu =>
        foldl (installment_source_step uris (i + 1))
              (contract_source uris (i + 1) <$> eu_sources cu) (eu_sources iu)
    | None => contract_source uris (i + 1) <$> eu_sources cu
    end.
Proof. unfold merge_unit. by destruct (installment !! i). Qed.

Lemma mu_confidence_merge_unit installment uris (i : nat) (cu : extraction_unit) :
  mu_confidence (merge_unit installment uris i cu)
  = match installment !! i with
    | Some iu => eu_confidence iu ∪ eu_confidence cu
    | None => eu_confidence cu
    end.
Proof. unfold merge_unit. by destruct (installment !! i). Qed.

End merge.

(** C1, as stated, fails: the installment pass reports the unit code 64
    for its unit 0, the contract pass has no [unitCode] field in its unit 0,
    and the merged unit 0 has none either. *)
Lemma merge_drops_installment_unit_code :
  eu_unit installment_unit_64 !! "unitCode" = Some (VStr "64")
  ∧ eu_unit contract_unit_ana !! "unitCode" = None
  ∧ (mu_unit <$> merge_results_with_cutouts [contract_unit_ana] [installment_unit_64] [] !! O)
    = Some (<["installmentPlans" := plan_atos]> {["buyerName" := VStr "Ana"]})
  ∧ ¬ merge_keeps_every_field [contract_unit_ana] [installment_unit_64] [].
Proof.
  split; [vm_compute; reflexivity |]. split; [vm_compute; reflexivity |].
  split; [vm_compute; reflexivity |].
  intros Hkeep.
  destruct (Hkeep O installment_unit_64 "unitCode") as (mu & Hmu & Hf);
    [by right | vm_compute; eauto |].
  rewrite lookup_merge_results in Hmu. simpl in Hmu. simplify_eq.
  rewrite mu_unit_merge_unit in Hf. revert Hf. vm_compute. by intros [? ?].
Qed.

(** C1, amended.  For two passes of K units each, the merge produces
    exactly K merged units, and merged unit [i] holds every field of the
    contract pass's unit [i]; of the installment pass's unit [i] it takes
    the [installmentPlans] field alone, when that value is not empty
    (replacing the contract pass's value), and no other field. *)
Theorem merge_results_fields (contract installment : list extraction_unit)
    (uris : dict (list string)) (K : nat) :
  length contract = K →
  length installment = K →
  length (merge_results_with_cutouts contract installment uris) = K
  ∧ ∀ (i : nat) (cu iu : extraction_unit),
      contract !! i = Some cu →
      installment !! i = Some iu →
      ∃ mu, merge_results_with_cutouts contract installment uris !! i = Some mu
        ∧ (∀ f, is_Some (eu_unit cu !! f) → is_Some (mu_unit mu !! f))
        ∧ (∀ plans, eu_unit iu !! "installmentPlans" = Some plans →
                    truthy plans = true →
                    mu_unit mu !! "installmentPlans" = Some plans)
        ∧ (∀ f, f ≠ "installmentPlans" → mu_unit mu !! f = eu_unit cu !! f)
        ∧ (truthy (installment_plans_of iu) = false → mu_unit mu = eu_unit cu).
Proof.
  intros Hc Hi. split; [by rewrite length_merge_results |].
  intros i cu iu Hcu Hiu. exists (merge_unit installment uris i cu).
  split; [by rewrite lookup_merge_results, Hcu |].
  rewrite mu_unit_merge_unit, Hiu.
  split; [| split; [| split]].
  - intros f Hf. destruct (truthy (installment_plans_of iu)); [| done].
    destruct (decide (f = "installmentPlans")) as [-> | Hne].
    + rewrite lookup_insert_eq. eauto.
    + by rewrite lookup_insert_ne.
  - intros plans Hplans Htruthy. unfold installment_plans_of. rewrite Hplans. simpl.
    rewrite Htruthy. apply lookup_insert_eq.
  - intros f Hne. destruct (truthy (installment_plans_of iu)); [| done].
    by rewrite lookup_insert_ne.
  - by intros ->.
Qed.

Lemma merge_results_fields_witness :
  length (merge_results_with_cutouts [contract_unit_ana] [installment_unit_64] []) = 1%nat
  ∧ ∀ (i : nat) (cu iu : extraction_unit),
      [contract_unit_ana] !! i = Some cu →
      [installment_unit_64] !! i = Some iu →
      ∃ mu, merge_results_with_cutouts [contract_unit_ana] [installment_unit_64] [] !! i = Some mu
        ∧ (∀ f, is_Some (eu_unit cu !! f) → is_Some (mu_unit mu !! f))
        ∧ (∀ plans, eu_unit iu !! "installmentPlans" = Some plans →
                    truthy plans = true →
                    mu_unit mu !! "installmentPlans" = Some plans)
        ∧ (∀ f, f ≠ "installmentPlans" → mu_unit mu !! f = eu_unit cu !! f)
        ∧ (truthy (installment_plans_of iu) = false → mu_unit mu = eu_unit cu).
Proof.
  apply (merge_results_fields [contract_unit_ana] [installment_unit_64] [] 1);
    reflexivity.
Defined.

(** ** The combining loop of [main] *)

Section combine.

Implicit Types (contract installment acc : list extraction_unit).

Lemma enumerate_from_cons {A} (start : nat) (x : A) (l : list A) :
  enumerate_from start (x :: l) = (start, x) :: enumerate_from (S start) l.
Proof.
  unfold enumerate_from. rewrite imap_cons, Nat.add_0_r. f_equal.
  apply imap_ext; intros i y _; simpl. f_equal. lia.
Qed.

Lemma imap_pair_enumerate {A} (l : list A) : imap pair l = enumerate_from 0 l.
Proof. unfold enumerate_from. by apply imap_ext. Qed.

#[local] Arguments combine_step : simpl never.

(** While the loop runs at index [start], the units before [start] are
    settled and the units past the end of the accumulator are the
    installment units appended so far. *)
Lemma foldl_combine_step (l : list extraction_unit) (start : nat) acc :
  (start ≤ length acc)%nat →
  let res := foldl combine_step acc (enumerate_from start l) in
  take start res = take start acc
  ∧ drop (length acc) res = drop (length acc - start) l
  ∧ length res = (length acc `max` (start + length l))%nat.
Proof.
  revert start acc. induction l as [| x l IH]; intros start acc Hstart; cbv zeta.
  - change (enumerate_from start (@nil extraction_unit)) with (@nil (nat * extraction_unit)).
    simpl. rewrite drop_all, drop_nil. split; [done |]. split; [done | lia].
  - rewrite enumerate_from_cons. cbn [foldl]. unfold combine_step at 2 4 6.
    destruct (acc !! start) as [cu |] eqn:Hlook.
    + apply lookup_lt_Some in Hlook.
      set (acc' := <[start := _]> acc).
      assert (length acc' = length acc) as Hlen by apply length_insert.
      destruct (IH (S start) acc') as (Htake & Hdrop & Hlength); [lia |].
      rewrite Hlen in Hdrop, Hlength.
      split; [| split].
      * apply (f_equal (take start)) in Htake.
        rewrite !take_take, Nat.min_l in Htake by lia.
        rewrite Htake. unfold acc'. by rewrite take_insert_ge.
      * rewrite Hdrop.
        replace (length acc - start)%nat with (S (length acc - S start)) by lia.
        done.
      * rewrite Hlength. cbn [length]. lia.
    + apply lookup_ge_None in Hlook.
      assert (start = length acc) as -> by lia.
      destruct (IH (S (length acc)) (acc ++ [x])) as (Htake & Hdrop & Hlength);
        [rewrite length_app; simpl; lia |].
      rewrite length_app in Hdrop, Hlength. simpl in Hdrop, Hlength.
      rewrite Nat.add_1_r in Hdrop, Hlength.
      replace (S (length acc) - S (length acc))%nat with O in Hdrop by lia.
      rewrite Nat.sub_diag. simpl in Hdrop |- *.
      set (res := foldl combine_step (acc ++ [x]) (enumerate_from (S (length acc)) l)) in *.
      assert (res = (acc ++ [x]) ++ l) as Hres.
      { rewrite <- (take_drop (S (length acc)) res), Htake, Hdrop.
        f_equal. apply take_ge. rewrite length_app. simpl. lia. }
      rewrite Hres, <- app_assoc.
      split; [by rewrite take_app_length, take_ge |].
      split; [by rewrite drop_app_length |].
      rewrite !length_app. simpl. lia.
Qed.

(** The units past the contract pass's length are exactly the extra
    units of the installment pass. *)
Lemma combine_results_extra contract installment :
  drop (length contract) (combine_results contract installment)
  = drop (length contract) installment
  ∧ length (combine_results contract installment)
    = (length contract `max` length installment)%nat.
Proof.
  unfold combine_results. rewrite imap_pair_enumerate.
  destruct (foldl_combine_step installment O contract) as (_ & Hdrop & Hlen); [lia |].
  rewrite Nat.sub_0_r in Hdrop. done.
Qed.

End combine.

(** C5.  When the installment pass has more units than the contract pass,
    its extra units should be appended to the merged output as new Merged
    Units.  The combining loop of [main] (which feeds the cutout extractor
    and the report) does append them; [merge_results_with_cutouts], which
    builds the final merged payload, iterates over the contract units only
    and always returns as many units as the contract pass has: for one
    contract unit and two installment units it returns a single unit and
    unit 65 is lost. *)
Theorem merge_results_drops_extra_units (contract installment : list extraction_unit)
    (uris : dict (list string)) :
  length (merge_results_with_cutouts contract installment uris) = length contract
  ∧ drop (length contract) (merge_results_with_cutouts contract installment uris) = []
  ∧ drop (length contract) (combine_results contract installment)
    = drop (length contract) installment
  ∧ length (merge_results_with_cutouts [contract_unit_ana]
              [installment_unit_64; installment_unit_65] []) = 1%nat
  ∧ combine_results [contract_unit_ana] [installment_unit_64; installment_unit_65] !! 1%nat
    = Some installment_unit_65.
Proof.
  split; [apply length_merge_results |].
  split; [apply drop_ge; by rewrite length_merge_results |].
  split; [apply combine_results_extra |].
  split; reflexivity.
Qed.

(** ** EntityReconciler: citations and the artifact map *)

Section citations.

Implicit Types (contract installment : list extraction_unit)
  (uris : dict (list string)) (mu : merged_unit) (e : merged_source).

Lemma first_uri_dict_get uris (k u : string) (rest : list string) :
  dict_get uris k = Some (u :: rest) → first_uri uris k = Some u.
Proof. unfold first_uri. by intros ->. Qed.

Lemma contract_source_uses_first_uri uris (n : nat) (src : source) :
  uses_first_uri uris n (contract_source uris n src).
Proof. intros u Hu. simpl in *. by rewrite Hu. Qed.

Lemma installment_source_step_uses_first_uri uris (n : nat)
    (acc : list merged_source) (src : source) :
  Forall (uses_first_uri uris n) acc →
  Forall (uses_first_uri uris n) (installment_source_step uris n acc src).
Proof.
  intros Hacc. unfold installment_source_step.
  destruct (existsb _ acc); [done |].
  apply Forall_app. split; [done |]. constructor; [| constructor].
  intros u Hu. simpl in *. by rewrite Hu.
Qed.

Lemma foldl_installment_source_step_uses_first_uri uris (n : nat)
    (srcs : list source) (acc : list merged_source) :
  Forall (uses_first_uri uris n) acc →
  Forall (uses_first_uri uris n) (foldl (installment_source_step uris n) acc srcs).
Proof.
  revert acc. induction srcs as [| src srcs IH]; intros acc Hacc; [done |].
  simpl. by apply IH, installment_source_step_uses_first_uri.
Qed.

Lemma merge_unit_uses_first_uri installment uris (i : nat) (cu : extraction_unit) :
  Forall (uses_first_uri uris (i + 1)) (mu_sources (merge_unit installment uris i cu)).
Proof.
  rewrite mu_sources_merge_unit.
  assert (Forall (uses_first_uri uris (i + 1))
            (contract_source uris (i + 1) <$> eu_sources cu)) as Hc.
  { apply Forall_fmap, Forall_forall. intros src _.
    apply contract_source_uses_first_uri. }
  destruct (installment !! i); [| done].
  by apply foldl_installment_source_step_uses_first_uri.
Qed.

(** The merge reads the artifact map through [first_uri] only. *)
Lemma merge_results_first_uri_ext contract installment uris1 uris2 :
  (∀ k, first_uri uris1 k = first_uri uris2 k) →
  merge_results_with_cutouts contract installment uris1
  = merge_results_with_cutouts contract installment uris2.
Proof.
  intros Hext. unfold merge_results_with_cutouts.
  apply imap_ext. intros i cu _.
  assert (∀ n src, contract_source uris1 n src = contract_source uris2 n src) as Hcs.
  { intros n src. unfold contract_source. by rewrite Hext. }
  assert (∀ n srcs acc,
            foldl (installment_source_step uris1 n) acc srcs
            = foldl (installment_source_step uris2 n) acc srcs) as His.
  { intros n srcs. induction srcs as [| src srcs IH]; intros acc; [done |].
    simpl. rewrite IH. f_equal. unfold installment_source_step. by rewrite Hext. }
  unfold merge_unit. destruct (installment !! i) as [iu |]; f_equal.
  - rewrite His. f_equal. apply list_fmap_ext. intros ? src _. apply Hcs.
  - apply list_fmap_ext. intros ? src _. apply Hcs.
Qed.

Lemma dict_get_heads_only uris (k : string) :
  dict_get (heads_only uris) k = take 1 <$> dict_get uris k.
Proof.
  induction uris as [| [k' l] uris IH]; [done |].
  simpl. by destruct (bool_decide (k' = k)).
Qed.

Lemma first_uri_heads_only uris (k : string) :
  first_uri (heads_only uris) k = first_uri uris k.
Proof.
  unfold first_uri. rewrite dict_get_heads_only.
  by destruct (dict_get uris k) as [[| u rest] |].
Qed.

End citations.

(** C10.  When the artifact map holds [u :: rest] under the field key of a
    citation of merged unit [i], the citation's [chunk_file_key] is [u], the
    first URI; and the merged output does not depend on the remaining URIs:
    cutting every list of the map down to its first entry, or replacing the
    map by any map with the same first entries, leaves every unit's sources
    unchanged. *)
Theorem chunk_file_key_is_first_uri (contract installment : list extraction_unit)
    (uris : dict (list string)) (i : nat) (mu : merged_unit) (e : merged_source)
    (u : string) (rest : list string) :
  merge_results_with_cutouts contract installment uris !! i = Some mu →
  e ∈ mu_sources mu →
  dict_get uris (field_key (i + 1) (ms_field e)) = Some (u :: rest) →
  chunk_file_key e = Some u
  ∧ merge_results_with_cutouts contract installment (heads_only uris)
    = merge_results_with_cutouts contract installment uris
  ∧ ∀ uris' : dict (list string),
      (∀ k, first_uri uris' k = first_uri uris k) →
      merge_results_with_cutouts contract installment uris'
      = merge_results_with_cutouts contract installment uris.
Proof.
  intros Hmu He Hget. split; [| split].
  - rewrite lookup_merge_results in Hmu.
    destruct (contract !! i) as [cu |]; [| done]. simplify_eq/=.
    pose proof (merge_unit_uses_first_uri installment uris i cu) as Hall.
    rewrite Forall_forall in Hall.
    by eapply Hall, first_uri_dict_get.
  - apply merge_results_first_uri_ext, first_uri_heads_only.
  - intros uris' Hext. by apply merge_results_first_uri_ext.
Qed.

Lemma chunk_file_key_is_first_uri_witness :
  chunk_file_key
    {| ms_field := "buyerName";
       chunk_file_key := Some "s3://bucket/contracts/job/unit_1/buyerName.png" |}
  = Some "s3://bucket/contracts/job/unit_1/buyerName.png"
  ∧ merge_results_with_cutouts [contract_unit_ana] [] (heads_only two_artifacts)
    = merge_results_with_cutouts [contract_unit_ana] [] two_artifacts
  ∧ ∀ uris' : dict (list string),
      (∀ k, first_uri uris' k = first_uri two_artifacts k) →
      merge_results_with_cutouts [contract_unit_ana] [] uris'
      = merge_results_with_cutouts [contract_unit_ana] [] two_artifacts.
Proof.
  apply (chunk_file_key_is_first_uri [contract_unit_ana] [] two_artifacts O
           (merge_unit [] two_artifacts O contract_unit_ana)
           {| ms_field := "buyerName";
              chunk_file_key := Some "s3://bucket/contracts/job/unit_1/buyerName.png" |}
           "s3://bucket/contracts/job/unit_1/buyerName.png"
           ["s3://bucket/contracts/job/unit_1/buyerName_2.png"]).
  - reflexivity.
  - vm_compute. apply list_elem_of_here.
  - reflexivity.
Defined.

(** ** File extensions of artifact paths *)

Section extensions.

Lemma string_rev_app (s1 s2 : string) :
  String.rev (s1 +:+ s2) = String.rev s2 +:+ String.rev s1.
Proof. apply chars_inj. by rewrite chars_app, !chars_rev, chars_app, reverse_app. Qed.

Lemma read_acc_pretty_N (n : N) : read_acc (pretty n) 0 = n.
Proof.
  unfold pretty, pretty_N. case_decide as Hn; [by rewrite Hn |].
  by rewrite read_acc_pretty_N_go.
Qed.

Lemma pretty_N_nonempty (n : N) : pretty n ≠ "".
Proof.
  intros Hs. pose proof (read_acc_pretty_N n) as Hr. rewrite Hs in Hr.
  simpl in Hr. subst n. done.
Qed.

Lemma digits_rev_head (s : string) :
  s ≠ "" →
  Forall (λ c, is_digit c = true) (chars s) →
  ∃ (d : ascii) (r : string), is_digit d = true ∧ String.rev s = String d r.
Proof.
  intros Hne Hds. apply Forall_reverse in Hds. rewrite <- chars_rev in Hds.
  destruct (String.rev s) as [| d r] eqn:Hrev.
  - exfalso. apply Hne, chars_inj.
    apply (f_equal chars) in Hrev. rewrite chars_rev in Hrev.
    apply (inj reverse). by rewrite Hrev.
  - exists d, r. split; [| done]. by inversion Hds.
Qed.

(** A printed integer ends in a digit. *)
Lemma pretty_Z_ends_with_digit (p : Z) :
  ∃ (d : ascii) (r : string), is_digit d = true ∧ String.rev (pretty p) = String d r.
Proof.
  destruct p as [| x | x].
  - by exists "0"%char, "".
  - apply (digits_rev_head (pretty (N.pos x)));
      [apply pretty_N_nonempty | apply digits_pretty_N].
  - destruct (digits_rev_head (pretty (N.pos x))) as (d & r & Hd & Hrev);
      [apply pretty_N_nonempty | apply digits_pretty_N |].
    exists d, (r +:+ "-"). split; [done |].
    change (pretty (Z.neg x)) with ("-" +:+ pretty (N.pos x)).
    by rewrite string_rev_app, Hrev.
Qed.

Lemma splitext_ext_png (prefix : string) (p : Z) :
  splitext_ext (prefix +:+ pretty p +:+ ".png") = ".png".
Proof.
  unfold splitext_ext. rewrite !string_rev_app.
  destruct (pretty_Z_ends_with_digit p) as (d & r & Hd & ->).
  change (String.rev ".png") with "gnp.".
  change (ext_scan ("gnp." +:+ String d r +:+ String.rev prefix) "")
    with (if has_nondot (String d (r +:+ String.rev prefix)) then ".png" else "").
  simpl. destruct (decide (d = "/"%char)) as [-> | H1]; [done |].
  destruct (decide (d = "."%char)) as [-> | H2]; [done |].
  by rewrite !bool_decide_eq_false_2.
Qed.

(** *** Paths of artifacts *)

Lemma free_of_cons (sep c : ascii) (s : string) :
  free_of sep (String c s) = true ↔ c ≠ sep ∧ free_of sep s = true.
Proof.
  unfold free_of. cbn [all_chars]. rewrite andb_true_iff, negb_true_iff.
  by rewrite bool_decide_eq_false.
Qed.

Lemma split_on_free (sep : ascii) (s : string) :
  free_of sep s = true → split_on sep s = [s].
Proof.
  induction s as [| c s IH]; [done |].
  intros [Hc Hs]%free_of_cons. cbn [split_on].
  rewrite bool_decide_eq_false_2 by done. by rewrite IH.
Qed.

Lemma string_length_app (s1 s2 : string) :
  String.length (s1 +:+ s2) = (String.length s1 + String.length s2)%nat.
Proof.
  induction s1 as [| c s1 IH]; [done |].
  change (String c s1 +:+ s2) with (String c (s1 +:+ s2)). simpl. by rewrite IH.
Qed.

Lemma string_app_assoc_r (s1 s2 s3 : string) : s1 +:+ s2 +:+ s3 = (s1 +:+ s2) +:+ s3.
Proof. apply chars_inj. by rewrite !chars_app, app_assoc. Qed.

(** Appending a text without separator extends the last piece. *)
Lemma split_on_snoc_free (sep : ascii) (y tail : string) :
  free_of sep tail = true →
  ∃ init w, split_on sep y = init ++ [w]
            ∧ split_on sep (y +:+ tail) = init ++ [w +:+ tail].
Proof.
  intros Htail. induction y as [| c y (init & w & Hy & Hyt)].
  - exists [], "". split; [done |]. by apply split_on_free.
  - change (String c y +:+ tail) with (String c (y +:+ tail)).
    cbn [split_on]. rewrite Hy, Hyt. case_bool_decide.
    + by exists ("" :: init), w.
    + destruct init as [| x init]; simpl.
      * by exists [], (String c w).
      * by exists (String c x :: init), w.
Qed.

Lemma join_with_snoc (sep : string) (l : list string) (y : string) :
  ∃ pre, join_with sep (l ++ [y]) = pre +:+ y.
Proof.
  induction l as [| x l [pre IH]]; [by exists "" |].
  exists (x +:+ sep +:+ pre).
  rewrite <- app_comm_cons. cbn [join_with].
  destruct (l ++ [y]) as [| z t] eqn:Hl; [by destruct l |].
  rewrite IH. by rewrite !string_app_assoc_r.
Qed.

(** A path ends with the end of its file name. *)
Lemma path_str_suffix (dir name tail : string) :
  free_of "/" tail = true →
  (2 ≤ String.length tail)%nat →
  ∃ prefix, path_str dir (name +:+ tail) = prefix +:+ tail.
Proof.
  intros Hfree Hlen. unfold path_str, path_parts.
  destruct (split_on_snoc_free "/" name tail Hfree) as (init & w & _ & ->).
  assert (w +:+ tail ≠ "" ∧ w +:+ tail ≠ ".") as Hlast.
  { split; intros Heq%(f_equal String.length);
      rewrite string_length_app in Heq; simpl in Heq; lia. }
  rewrite filter_app, filter_cons, decide_True, filter_nil by done.
  rewrite app_assoc.
  destruct (join_with_snoc "/"
              (filter (λ x, x ≠ "" ∧ x ≠ ".") (split_on "/" dir)
                 ++ filter (λ x, x ≠ "" ∧ x ≠ ".") init) (w +:+ tail)) as [pre ->].
  rewrite (bool_decide_eq_false_2 (_ ++ [_] = [])), andb_false_r
    by (by intros ?%app_nil; intuition).
  exists (path_root dir +:+ pre +:+ w). by rewrite !string_app_assoc_r.
Qed.

Lemma free_of_slash_page_suffix (p : Z) : free_of "/" (pretty p +:+ ".png") = true.
Proof.
  unfold free_of. apply all_chars_Forall. rewrite chars_app.
  apply Forall_app. split; [| by repeat constructor].
  destruct (chars_pretty_Z p) as (ds & Hds & [-> | ->]);
    [| constructor; [done |]];
    (eapply Forall_impl; [exact Hds |]); intros c Hc;
    apply negb_true_iff, bool_decide_eq_false_2; by intros ->.
Qed.

Lemma splitext_ext_artifact_path (dir : string) (i : nat) (f cid : string) (p : Z) :
  splitext_ext (artifact_path dir i f cid p) = ".png".
Proof.
  unfold artifact_path, cutout_filename.
  assert ("unit" +:+ pretty (i + 1)%nat +:+ "_" +:+ f +:+ "_" +:+ cid
            +:+ "_page" +:+ pretty p +:+ ".png"
          = ("unit" +:+ pretty (i + 1)%nat +:+ "_" +:+ f +:+ "_" +:+ cid +:+ "_page")
              +:+ (pretty p +:+ ".png")) as ->
    by (apply chars_inj; by rewrite !chars_app, <- !app_assoc).
  destruct (path_str_suffix dir
              ("unit" +:+ pretty (i + 1)%nat +:+ "_" +:+ f +:+ "_" +:+ cid +:+ "_page")
              (pretty p +:+ ".png")) as [prefix ->].
  - apply free_of_slash_page_suffix.
  - rewrite string_length_app. simpl. lia.
  - apply splitext_ext_png.
Qed.

End extensions.

(** ** Insertion-ordered dictionaries *)

Section dicts.

Context {V : Type}.
Implicit Types (d : dict V) (k : string) (v : V).

Lemma dict_get_dict_set d k k' v :
  dict_get (dict_set k v d) k' = if bool_decide (k = k') then Some v else dict_get d k'.
Proof.
  induction d as [| [k0 v0] d IH]; simpl.
  - done.
  - destruct (decide (k0 = k)) as [-> | Hne].
    + rewrite bool_decide_eq_true_2 by done. simpl. by case_bool_decide.
    + rewrite (bool_decide_eq_false_2 (k0 = k)) by done. simpl.
      rewrite IH. repeat case_bool_decide; congruence.
Qed.

Lemma dict_get_elem_of d k v : dict_get d k = Some v → (k, v) ∈ d.
Proof.
  induction d as [| [k0 v0] d IH]; simpl; [done |].
  case_bool_decide; intros ?; simplify_eq; [apply list_elem_of_here |].
  by apply list_elem_of_further, IH.
Qed.

Lemma dict_get_None_not_elem d k : dict_get d k = None → ∀ v, (k, v) ∉ d.
Proof.
  induction d as [| [k0 v0] d IH]; simpl; intros Hget v Hin.
  - by apply not_elem_of_nil in Hin.
  - case_bool_decide; [done |].
    apply elem_of_cons in Hin as [? | Hin]; [by simplify_eq |].
    by eapply IH.
Qed.

End dicts.

(** ** [upload_cutouts_to_s3] *)

Section upload.

Variable local_exists : string → bool.
Variable client_upload : string → string → string → string → bool.
Variables bucket_name job_id : string.

Implicit Types (store : gmap (string * string) s3_object)
  (k : string) (paths uris : list string).

#[local] Abbreviation ok k := (λ p : string, Is_true (upload_succeeds local_exists client_upload bucket_name job_id k p)).
#[local] Abbreviation put k := (λ store (p : string), <[(bucket_name, s3_key_for job_id k p) := s3_object_of p]> store).

Lemma upload_path_eq k store uris (p : string) :
  upload_path local_exists client_upload bucket_name job_id
    (split_field_key k).1 (split_field_key k).2 (store, uris) p
  = if upload_succeeds local_exists client_upload bucket_name job_id k p
    then (put k store p, uris ++ [s3_uri_for bucket_name job_id k p])
    else (store, uris).
Proof.
  unfold upload_path, upload_file_from_path, upload_succeeds, s3_uri_for, s3_key_for.
  destruct (local_exists p); simpl; [| done].
  by destruct (client_upload p _ _ _).
Qed.

(** The loop over the local paths of one field key: the successful uploads
    are stored one after the other and contribute one URI each. *)
Lemma foldl_upload_path k paths store uris :
  foldl (upload_path local_exists client_upload bucket_name job_id
           (split_field_key k).1 (split_field_key k).2) (store, uris) paths
  = (foldl (put k) store (filter (ok k) paths),
     uris ++ (s3_uri_for bucket_name job_id k <$> filter (ok k) paths)).
Proof.
  revert store uris. induction paths as [| p paths IH]; intros store uris.
  - simpl. by rewrite app_nil_r.
  - cbn [foldl]. rewrite upload_path_eq, filter_cons.
    destruct (upload_succeeds _ _ _ _ k p) eqn:Hok.
    + rewrite decide_True by exact I. rewrite IH. simpl.
      by rewrite <- app_assoc.
    + rewrite decide_False by (intros []). apply IH.
Qed.

Lemma upload_field_eq k paths store (d : dict (list string)) :
  upload_field local_exists client_upload bucket_name job_id (store, d) (k, paths)
  = (foldl (put k) store (filter (ok k) paths),
     dict_set k (s3_uri_for bucket_name job_id k <$> filter (ok k) paths) d).
Proof.
  unfold upload_field.
  pose proof (foldl_upload_path k paths store []) as Hfold.
  destruct (split_field_key k) as [ui fn]. simpl in Hfold. by rewrite Hfold.
Qed.

(** Every list of the returned map was produced from an entry of the
    cutout map under the same key. *)
Lemma upload_cutouts_dict_get (cutout_paths : dict (list string)) store
    (d : dict (list string)) k uris :
  dict_get (foldl (upload_field local_exists client_upload bucket_name job_id)
              (store, d) cutout_paths).2 k = Some uris →
  (∃ paths, (k, paths) ∈ cutout_paths
            ∧ uris = s3_uri_for bucket_name job_id k <$> filter (ok k) paths)
  ∨ dict_get d k = Some uris.
Proof.
  revert store d. induction cutout_paths as [| [k0 paths0] cp IH]; intros store d.
  - simpl. auto.
  - cbn [foldl]. rewrite upload_field_eq. intros Hget.
    apply IH in Hget as [(paths & Hin & ->) | Hget].
    + left. exists paths. split; [by apply list_elem_of_further | done].
    + rewrite dict_get_dict_set in Hget. case_bool_decide; simplify_eq.
      * left. exists paths0. split; [apply list_elem_of_here | done].
      * by right.
Qed.

(** Stores to one key overwrite each other: the last one remains. *)
Lemma foldl_insert_last (key : string * string) (obj : string → s3_object)
    (l : list string) store :
  foldl (λ st p, <[key := obj p]> st) store l
  = match last l with
    | Some p => <[key := obj p]> store
    | None => store
    end.
Proof.
  revert store. induction l as [| p l IH]; intros store; [done |].
  cbn [foldl]. rewrite IH, last_cons.
  destruct (last l); [apply insert_insert_eq | done].
Qed.

End upload.

Section upload_artifacts.

Variable local_exists : string → bool.
Variable client_upload : string → string → string → string → bool.
Variables bucket_name job_id : string.

Lemma s3_key_for_artifact (k dir : string) (i : nat) (f cid : string) (pg : Z) :
  s3_key_for job_id k (artifact_path dir i f cid pg)
  = s3_key_of job_id (split_field_key k).1 (split_field_key k).2 ".png".
Proof. unfold s3_key_for. by rewrite splitext_ext_artifact_path. Qed.

Lemma s3_object_of_artifact (dir : string) (i : nat) (f cid : string) (pg : Z) :
  s3_object_of (artifact_path dir i f cid pg)
  = {| obj_source := artifact_path dir i f cid pg; obj_content_type := "image/png" |}.
Proof. unfold s3_object_of. by rewrite splitext_ext_artifact_path. Qed.

(** For artifact paths, the stores of one field key all go to one key. *)
Lemma foldl_put_artifacts (k : string) (l : list string)
    (store : gmap (string * string) s3_object) :
  (∀ p, p ∈ l → ∃ dir i f cid pg, p = artifact_path dir i f cid pg) →
  foldl (λ st p, <[(bucket_name, s3_key_for job_id k p) := s3_object_of p]> st) store l
  = match last l with
    | Some p =>
        <[(bucket_name,
           s3_key_of job_id (split_field_key k).1 (split_field_key k).2 ".png")
          := {| obj_source := p; obj_content_type := "image/png" |}]> store
    | None => store
    end.
Proof.
  intros Hart.
  rewrite <- (foldl_insert_last _ (λ p, {| obj_source := p; obj_content_type := "image/png" |})).
  revert store. induction l as [| p l IH]; intros store; [done |].
  cbn [foldl]. rewrite IH by (intros; apply Hart; by apply list_elem_of_further).
  destruct (Hart p) as (dir & i & f & cid & pg & ->); [apply list_elem_of_here |].
  by rewrite s3_key_for_artifact, s3_object_of_artifact.
Qed.

Lemma fmap_uri_artifacts (k : string) (l : list string) :
  (∀ p, p ∈ l → ∃ dir i f cid pg, p = artifact_path dir i f cid pg) →
  s3_uri_for bucket_name job_id k <$> l
  = replicate (length l)
      ("s3://" +:+ bucket_name +:+ "/"
         +:+ s3_key_of job_id (split_field_key k).1 (split_field_key k).2 ".png").
Proof.
  induction l as [| p l IH]; intros Hart; [done |].
  rewrite fmap_cons, IH by (intros; apply Hart; by apply list_elem_of_further).
  destruct (Hart p) as (dir & i & f & cid & pg & ->); [apply list_elem_of_here |].
  unfold s3_uri_for. by rewrite s3_key_for_artifact.
Qed.

End upload_artifacts.

(** ** ProvenanceIndex: [extract_cutouts] *)

Section provenance.

Variable doc : list page_rect.
Variable render : nat → rect → Q → bool.
Variable chunks : list chunk.

Implicit Types (d : dict (list string)) (units : list extraction_unit)
  (src : source) (k p : string).

Lemma dict_set_elem_of {V} (d0 : dict V) (k k' : string) (v v' : V) :
  (k', v') ∈ dict_set k v d0 → (k', v') = (k, v) ∨ (k', v') ∈ d0.
Proof.
  induction d0 as [| [k0 v0] d0 IH]; simpl.
  - intros ?%list_elem_of_singleton. by left.
  - case_bool_decide.
    + intros [? | ?]%elem_of_cons; [by left | right; by apply list_elem_of_further].
    + intros [? | Hin]%elem_of_cons; [right; simplify_eq; apply list_elem_of_here |].
      destruct (IH Hin) as [? | ?]; [by left | right; by apply list_elem_of_further].
Qed.

(** A loop whose body preserves an invariant whenever it returns. *)
Lemma for_each_invariant {A S} (I : S → Prop) (body : S → A → result S)
    (l : list A) (s s' : S) :
  I s →
  (∀ s1 x s2, x ∈ l → I s1 → body s1 x = Ok s2 → I s2) →
  for_each body l s = Ok s' → I s'.
Proof.
  revert s. induction l as [| x l IH]; intros s Hs Hbody; simpl.
  - by intros [= <-].
  - destruct (body s x) as [s1 |] eqn:Hx; simpl; [| done].
    apply IH.
    + eapply Hbody; [apply list_elem_of_here | done..].
    + intros s2 y s3 Hy. apply Hbody. by apply list_elem_of_further.
Qed.

(** A citation whose chunk is not in the chunk list is skipped: the step
    returns, and the cutout map is unchanged. *)
Lemma source_step_missing_chunk (dir : string) (padding : Z) (scale : Q)
    (unit_idx : nat) d src :
  find_chunk chunks (src_chunk_id src) = None →
  source_step doc render chunks dir padding scale unit_idx d src = Ok d.
Proof.
  intros Hfind. unfold source_step. rewrite Hfind.
  by destruct (bool_decide _ || bool_decide _).
Qed.

(** Every path that a step adds is the artifact of the citation at hand. *)
Lemma source_step_justified (dir : string) (padding : Z) (scale : Q) units
    (i : nat) (u : extraction_unit) src d d' :
  units !! i = Some u →
  src ∈ eu_sources u →
  (∀ k paths p, (k, paths) ∈ d → p ∈ paths → cutout_justified chunks units k p) →
  source_step doc render chunks dir padding scale i d src = Ok d' →
  ∀ k paths p, (k, paths) ∈ d' → p ∈ paths → cutout_justified chunks units k p.
Proof.
  intros Hu Hsrc Hd. unfold source_step.
  destruct (bool_decide _ || bool_decide _); [by intros [= <-] |].
  destruct (find_chunk chunks (src_chunk_id src)) as [c |] eqn:Hfind; [| by intros [= <-]].
  destruct (page c) as [page_num |]; [| by intros [= <-]].
  destruct (negb (truthy (bbox c))); [by intros [= <-] |].
  destruct (_parse_bbox (bbox c)) as [[parsed |] |]; simpl; [| by intros [= <-] | done].
  unfold _extract_single_cutout.
  destruct (resolve_region doc page_num parsed padding) as [[idx clip] |];
    [| by intros [= <-]].
  destruct (render idx clip scale); [| by intros [= <-]].
  intros [= <-] k paths p Hk Hp.
  apply dict_set_elem_of in Hk as [Hk | Hk]; [| by eapply Hd].
  simplify_eq. apply elem_of_app in Hp as [Hp | Hp].
  - destruct (dict_get d (field_key (i + 1) (src_field src))) as [old |] eqn:Hold;
      simpl in Hp; [| by apply not_elem_of_nil in Hp].
    eapply Hd; [by apply dict_get_elem_of | done].
  - apply list_elem_of_singleton in Hp as ->.
    by exists i, u, src, c, dir, page_num.
Qed.

Lemma elem_of_imap_pair {A} (l : list A) (i : nat) (x : A) :
  (i, x) ∈ imap pair l → l !! i = Some x.
Proof.
  intros (j & y & Heq & Hj)%elem_of_lookup_imap. by simplify_eq.
Qed.

Lemma extract_cutouts_justified units (dir : string) (padding : Z) (scale : Q) d :
  extract_cutouts doc render chunks units dir padding scale = Ok d →
  ∀ k paths p, (k, paths) ∈ d → p ∈ paths → cutout_justified chunks units k p.
Proof.
  unfold extract_cutouts.
  apply (for_each_invariant
           (λ d, ∀ k paths p, (k, paths) ∈ d → p ∈ paths → cutout_justified chunks units k p)).
  - intros k paths p Hk. by apply not_elem_of_nil in Hk.
  - intros d1 [i u] d2 Hiu%elem_of_imap_pair Hd1.
    apply (for_each_invariant
             (λ d, ∀ k paths p, (k, paths) ∈ d → p ∈ paths
                                → cutout_justified chunks units k p)); [done |].
    intros d3 src d4 Hsrc Hd3. by eapply source_step_justified.
Qed.

End provenance.

(** ** The pipeline: citations of missing chunks *)

Section dangling.

Variable doc : list page_rect.
Variable render : nat → rect → Q → bool.
Variable local_exists : string → bool.
Variable client_upload : string → string → string → string → bool.

Implicit Types (uris : dict (list string)) (src : source).

(** The installment loop only appends: the entries of the contract pass
    keep their positions. *)
Lemma foldl_installment_source_step_prefix uris (n : nat) (srcs : list source)
    (acc : list merged_source) :
  ∃ extra, foldl (installment_source_step uris n) acc srcs = acc ++ extra.
Proof.
  revert acc. induction srcs as [| src srcs IH]; intros acc.
  - exists []. by rewrite app_nil_r.
  - cbn [foldl]. unfold installment_source_step at 2.
    destruct (existsb _ acc); [apply IH |].
    destruct (IH (acc ++ [{| ms_field := src_field src;
                            chunk_file_key :=
                              match first_uri uris (field_key n (src_field src)) with
                              | Some u => Some u
                              | None => Some (src_chunk_id src)
                              end |}])) as [extra ->].
    eexists. by rewrite <- app_assoc.
Qed.

Lemma mu_sources_contract_entry (installment : list extraction_unit) uris
    (i j : nat) (cu : extraction_unit) src :
  eu_sources cu !! j = Some src →
  mu_sources (merge_unit installment uris i cu) !! j
  = Some (contract_source uris (i + 1) src).
Proof.
  intros Hj. rewrite mu_sources_merge_unit.
  assert ((contract_source uris (i + 1) <$> eu_sources cu) !! j
          = Some (contract_source uris (i + 1) src)) as Hc
    by (by rewrite list_lookup_fmap, Hj).
  destruct (installment !! i) as [iu |]; [| done].
  destruct (foldl_installment_source_step_prefix uris (i + 1) (eu_sources iu)
              (contract_source uris (i + 1) <$> eu_sources cu)) as [extra ->].
  by apply lookup_app_l_Some.
Qed.

(** A first URI in the uploaded map comes from a path of the cutout map
    under the same key. *)
Lemma first_uri_upload_cutouts (store : gmap (string * string) s3_object)
    (cutout_paths : dict (list string)) (bucket_name job_id k u : string) :
  first_uri (upload_cutouts_to_s3 local_exists client_upload store cutout_paths
               bucket_name job_id).2 k = Some u →
  ∃ paths p, (k, paths) ∈ cutout_paths ∧ p ∈ paths
             ∧ u = s3_uri_for bucket_name job_id k p.
Proof.
  unfold first_uri, upload_cutouts_to_s3.
  destruct (dict_get _ k) as [[| u' rest] |] eqn:Hget; simpl; try done.
  intros [= ->].
  apply upload_cutouts_dict_get in Hget as [(paths & Hk & Huris) | Hget]; [| done].
  assert (u ∈ s3_uri_for bucket_name job_id k
                <$> filter (λ p, Is_true (upload_succeeds local_exists client_upload
                                            bucket_name job_id k p)) paths)
    as (p & -> & [_ Hp]%list_elem_of_filter)%list_elem_of_fmap
    by (rewrite <- Huris; apply list_elem_of_here).
  by exists paths, p.
Qed.

End dangling.

(** C4, as stated, fails: the artifact map is keyed by unit and field, not
    by citation.  The field [buyerName] is cited from [chunk_000], which
    exists, and from [chunk_999], which does not; the second citation is
    given the artifact of the first instead of its literal chunk id. *)
Lemma dangling_citation_takes_sibling_artifact :
  find_chunk [chunk_000] "chunk_999" = None
  ∧ (mu_sources <$>
       match reconcile one_page_doc (λ _ _ _, true) (λ _, true) (λ _ _ _ _, true)
               [chunk_000] ∅ "bucket" "job" [unit_cited_twice] [] with
       | Ok merged => merged
       | Raise _ => []
       end)
    = [[{| ms_field := "buyerName";
           chunk_file_key := Some "s3://bucket/contracts/job/unit_1/buyerName.png" |};
        {| ms_field := "buyerName";
           chunk_file_key := Some "s3://bucket/contracts/job/unit_1/buyerName.png" |}]]
  ∧ ¬ dangling_citation_keeps_id one_page_doc (λ _ _ _, true) (λ _, true)
        (λ _ _ _ _, true) [chunk_000] ∅ "bucket" "job" [unit_cited_twice] [].
Proof.
  split; [reflexivity |]. split; [vm_compute; reflexivity |].
  intros Hkeep.
  destruct (reconcile one_page_doc (λ _ _ _, true) (λ _, true) (λ _ _ _ _, true)
              [chunk_000] ∅ "bucket" "job" [unit_cited_twice] []) as [merged |] eqn:Hrun;
    [| by vm_compute in Hrun].
  destruct (Hkeep merged O 1%nat unit_cited_twice
              {| src_field := "buyerName"; src_chunk_id := "chunk_999" |} Hrun
              eq_refl eq_refl eq_refl) as (mu & e & Hmu & He & Hkey).
  vm_compute in Hrun. injection Hrun as <-.
  simpl in Hmu. injection Hmu as <-. simpl in He. injection He as <-.
  by vm_compute in Hkey.
Qed.

(** C4, amended.  Take a citation [src] of unit [i] of the contract result
    as the combining loop left it, whose chunk is not in the chunk list.
    The cutout step skips it without raising and leaves the artifact map
    as it is.  In the merged output the citation keeps its position and
    field, and its [chunk_file_key] is the literal chunk id ([null] for the
    [calculated] marker), unless another citation of the same unit and
    field refers to an existing chunk and produced an artifact: then it is
    that field's artifact URI. *)
Theorem reconcile_dangling_citation
    (doc : list page_rect) (render : nat → rect → Q → bool)
    (local_exists : string → bool)
    (client_upload : string → string → string → string → bool)
    (chunks : list chunk) (store : gmap (string * string) s3_object)
    (bucket_name job_id : string) (contract installment : list extraction_unit)
    (merged : list merged_unit) (i j : nat) (cu : extraction_unit) (src : source) :
  reconcile doc render local_exists client_upload chunks store bucket_name job_id
    contract installment = Ok merged →
  take (length contract) (combine_results contract installment) !! i = Some cu →
  eu_sources cu !! j = Some src →
  find_chunk chunks (src_chunk_id src) = None →
  (∀ dir padding scale d,
      source_step doc render chunks dir padding scale i d src = Ok d)
  ∧ ∃ mu e,
      merged !! i = Some mu
      ∧ mu_sources mu !! j = Some e
      ∧ ms_field e = src_field src
      ∧ (chunk_file_key e = fallback_key (src_chunk_id src)
         ∨ (chunk_file_key e
            = Some ("s3://" +:+ bucket_name +:+ "/"
                      +:+ s3_key_of job_id
                            (split_field_key (field_key (i + 1) (src_field src))).1
                            (split_field_key (field_key (i + 1) (src_field src))).2
                            ".png")
            ∧ ∃ src', src' ∈ eu_sources cu
                      ∧ src_field src' = src_field src
                      ∧ is_Some (find_chunk chunks (src_chunk_id src'))))
      ∧ ((∀ src', src' ∈ eu_sources cu → src_field src' = src_field src →
                  find_chunk chunks (src_chunk_id src') = None) →
         chunk_file_key e = fallback_key (src_chunk_id src)).
Proof.
  intros Hrun Hcu Hj Hfind.
  split; [intros; by apply source_step_missing_chunk |].
  unfold reconcile in Hrun.
  destruct (extract_cutouts doc render chunks (combine_results contract installment)
              "/tmp/output/cutouts" 10 2) as [cutouts |] eqn:Hex; simpl in Hrun; [| done].
  destruct (upload_cutouts_to_s3 local_exists client_upload store cutouts
              bucket_name job_id) as [store' uris] eqn:Hup.
  injection Hrun as <-.
  exists (merge_unit installment uris i cu), (contract_source uris (i + 1) src).
  split; [by rewrite lookup_merge_results, Hcu |].
  split; [by apply mu_sources_contract_entry |].
  split; [done |].
  assert (chunk_file_key (contract_source uris (i + 1) src) = fallback_key (src_chunk_id src)
          ∨ (chunk_file_key (contract_source uris (i + 1) src)
             = Some ("s3://" +:+ bucket_name +:+ "/"
                       +:+ s3_key_of job_id
                             (split_field_key (field_key (i + 1) (src_field src))).1
                             (split_field_key (field_key (i + 1) (src_field src))).2
                             ".png")
             ∧ ∃ src', src' ∈ eu_sources cu
                       ∧ src_field src' = src_field src
                       ∧ is_Some (find_chunk chunks (src_chunk_id src')))) as Hcases.
  { unfold contract_source, fallback_key. simpl.
    destruct (first_uri uris (field_key (i + 1) (src_field src))) as [u |] eqn:Hfirst;
      [right | by left].
    assert (uris = (upload_cutouts_to_s3 local_exists client_upload store cutouts
                      bucket_name job_id).2) as Huris by (by rewrite Hup).
    rewrite Huris in Hfirst.
    apply first_uri_upload_cutouts in Hfirst as (paths & p & Hk & Hp & ->).
    destruct (extract_cutouts_justified _ _ _ _ _ _ _ _ Hex _ _ _ Hk Hp)
      as (i' & u' & src' & c & dir & pg & Hu' & Hsrc' & Hkey & Hc & ->).
    apply field_key_inj in Hkey as [Hi Hf].
    assert (i' = i) as -> by lia.
    apply lookup_take_Some in Hcu as [Hcu _]. simplify_eq.
    split.
    - unfold s3_uri_for. by rewrite s3_key_for_artifact, Hf.
    - exists src'. by rewrite Hc. }
  split; [exact Hcases |].
  intros Hall. destruct Hcases as [? | (_ & src' & Hsrc' & Hf & [c Hc])]; [done |].
  by rewrite (Hall src' Hsrc' Hf) in Hc.
Qed.

Lemma reconcile_dangling_citation_witness :
  (∀ dir padding scale d,
      source_step one_page_doc (λ _ _ _, true) [chunk_000] dir padding scale 0 d
        {| src_field := "buyerName"; src_chunk_id := "chunk_999" |} = Ok d)
  ∧ ∃ mu e,
      merge_results_with_cutouts [unit_cited_twice] []
        [("unit1_buyerName", ["s3://bucket/contracts/job/unit_1/buyerName.png"])] !! O
      = Some mu
      ∧ mu_sources mu !! 1%nat = Some e
      ∧ ms_field e = "buyerName"
      ∧ (chunk_file_key e = fallback_key "chunk_999"
         ∨ (chunk_file_key e
            = Some ("s3://" +:+ "bucket" +:+ "/"
                      +:+ s3_key_of "job"
                            (split_field_key (field_key (0 + 1) "buyerName")).1
                            (split_field_key (field_key (0 + 1) "buyerName")).2
                            ".png")
            ∧ ∃ src', src' ∈ eu_sources unit_cited_twice
                      ∧ src_field src' = "buyerName"
                      ∧ is_Some (find_chunk [chunk_000] (src_chunk_id src'))))
      ∧ ((∀ src', src' ∈ eu_sources unit_cited_twice → src_field src' = "buyerName" →
                  find_chunk [chunk_000] (src_chunk_id src') = None) →
         chunk_file_key e = fallback_key "chunk_999").
Proof.
  apply (reconcile_dangling_citation one_page_doc (λ _ _ _, true) (λ _, true)
           (λ _ _ _ _, true) [chunk_000] ∅ "bucket" "job" [unit_cited_twice] []
           (merge_results_with_cutouts [unit_cited_twice] []
              [("unit1_buyerName", ["s3://bucket/contracts/job/unit_1/buyerName.png"])])
           O 1%nat unit_cited_twice
           {| src_field := "buyerName"; src_chunk_id := "chunk_999" |}).
  - vm_compute. reflexivity.
  - reflexivity.
  - reflexivity.
  - reflexivity.
Defined.

(** ** Bounding boxes written as strings *)

Section bbox_strings.

Implicit Types (P : ascii → bool) (s w : string) (c : ascii).

Lemma string_rev_involutive s : String.rev (String.rev s) = s.
Proof. apply chars_inj. by rewrite !chars_rev, reverse_involutive. Qed.

Lemma all_chars_rev P s : all_chars P (String.rev s) = all_chars P s.
Proof.
  apply eq_true_iff_eq. rewrite !all_chars_Forall, chars_rev.
  split; intros H; [rewrite <- (reverse_involutive (chars s)) |]; by apply Forall_reverse.
Qed.

Lemma lstrip_app_class P w s : all_chars P w = true → lstrip P (w +:+ s) = lstrip P s.
Proof.
  induction w as [| c w IH]; [done |]. simpl. intros [Hc Hw]%andb_true_iff.
  change (String c w +:+ s) with (String c (w +:+ s)). simpl. rewrite Hc. by apply IH.
Qed.

Lemma lstrip_snoc P s c :
  P c = false → lstrip P (s +:+ String c "") = lstrip P s +:+ String c "".
Proof.
  intros Hc. induction s as [| a s IH]; simpl.
  - change ("" +:+ String c "") with (String c ""). simpl. by rewrite Hc.
  - change (String a s +:+ String c "") with (String a (s +:+ String c "")). simpl.
    by destruct (P a).
Qed.

(** What [lstrip] returns is empty or starts outside the class. *)
Lemma lstrip_head P s :
  lstrip P s = "" ∨ ∃ c r, lstrip P s = String c r ∧ P c = false.
Proof.
  induction s as [| a s IH]; simpl; [by left |].
  destruct (P a) eqn:Ha; [done |]. right. by exists a, s.
Qed.

(** A string that starts and ends outside the class, wrapped in characters
    of the class, is what [strip] returns. *)
Lemma strip_class_wrapped P (pre post body : string) (a z : ascii) (b r : string) :
  all_chars P pre = true →
  all_chars P post = true →
  body = String a b → P a = false →
  String.rev body = String z r → P z = false →
  strip_class P (pre +:+ body +:+ post) = body.
Proof.
  intros Hpre Hpost Hbody Ha Hrev Hz. unfold strip_class.
  rewrite lstrip_app_class by done.
  assert (lstrip P (body +:+ post) = body +:+ post) as ->.
  { rewrite Hbody. change (String a b +:+ post) with (String a (b +:+ post)).
    simpl. by rewrite Ha. }
  rewrite string_rev_app, lstrip_app_class by (by rewrite all_chars_rev).
  rewrite Hrev. simpl. rewrite Hz, <- Hrev. apply string_rev_involutive.
Qed.

Lemma strip_class_idemp P s : strip_class P (strip_class P s) = strip_class P s.
Proof.
  unfold strip_class at 2 3.
  destruct (lstrip_head P s) as [-> | (c & a & -> & Hc)]; [done |].
  change (String.rev (String c a)) with (String.rev_app a (String c "")).
  assert (String.rev_app a (String c "") = String.rev a +:+ String c "") as ->.
  { apply chars_inj. by rewrite chars_rev_app, chars_app, chars_rev. }
  rewrite lstrip_snoc by done. rewrite string_rev_app.
  change (String.rev (String c "")) with (String c "").
  set (t := String c "" +:+ String.rev (lstrip P (String.rev a))).
  destruct (lstrip_head P (String.rev a +:+ String c "")) as [He | (z & r & Hzr & Hz)].
  { rewrite lstrip_snoc in He by done. by destruct (lstrip P (String.rev a)). }
  rewrite lstrip_snoc in Hzr by done.
  assert ("" +:+ t +:+ "" = t) as Hwrap
    by (apply chars_inj; by rewrite !chars_app, app_nil_r).
  rewrite <- Hwrap at 1.
  apply (strip_class_wrapped P "" "" t c z
           (String.rev (lstrip P (String.rev a))) r); try done.
  unfold t. by rewrite string_rev_app, string_rev_involutive.
Qed.

(** *** Whitespace of one, two or three bytes *)

Lemma string_rev_cons c s : String.rev (String c s) = String.rev s +:+ String c "".
Proof. apply chars_inj. rewrite chars_app, !chars_rev. unfold chars; simpl. by rewrite reverse_cons. Qed.

Lemma string_app_empty_r s : s +:+ "" = s.
Proof. apply chars_inj. by rewrite chars_app, app_nil_r. Qed.

Lemma string_app_assoc' (s1 s2 s3 : string) : (s1 +:+ s2) +:+ s3 = s1 +:+ s2 +:+ s3.
Proof. apply chars_inj. by rewrite !chars_app, app_assoc. Qed.

Lemma all_chars_app P s1 s2 :
  all_chars P (s1 +:+ s2) = all_chars P s1 && all_chars P s2.
Proof.
  induction s1 as [| a s1 IH]; [done |].
  change (String a s1 +:+ s2) with (String a (s1 +:+ s2)). simpl.
  by rewrite IH, andb_assoc.
Qed.

Lemma string_length_ind (Q : string → Prop) :
  (∀ s, (∀ t, (String.length t < String.length s)%nat → Q t) → Q s) → ∀ s, Q s.
Proof.
  intros Hstep s. apply Hstep.
  induction s as [| a s IH]; intros t Ht; simpl in Ht; [lia |].
  apply Hstep. intros u Hu. apply IH. lia.
Qed.

Section token_strips.

Variables (m1 : ascii → bool) (m2 : ascii → ascii → bool)
  (m3 : ascii → ascii → ascii → bool).

(** No encoding is the beginning of another one. *)
Hypothesis exclusive2 : ∀ a b, m2 a b = true → m1 a = false.
Hypothesis exclusive3 : ∀ a b d, m3 a b d = true → m1 a = false ∧ m2 a b = false.

Lemma tokens_app w1 w2 :
  tokens m1 m2 m3 w1 → tokens m1 m2 m3 w2 → tokens m1 m2 m3 (w1 +:+ w2).
Proof.
  intros H1 H2. induction H1 as [| a t Ha _ IH | a b t Hab _ IH | a b d t Habd _ IH].
  - done.
  - by apply tokens_1.
  - by apply (tokens_2 m1 m2 m3 a b).
  - by apply (tokens_3 m1 m2 m3 a b d).
Qed.

Lemma tokens_all_chars w : all_chars m1 w = true → tokens m1 m2 m3 w.
Proof.
  induction w as [| a w IH]; simpl; [constructor |].
  intros [Ha Hw]%andb_true_iff. apply tokens_1; auto.
Qed.

Lemma lstrip_tokens_app w s :
  tokens m1 m2 m3 w → lstrip_tokens m1 m2 m3 (w +:+ s) = lstrip_tokens m1 m2 m3 s.
Proof.
  intros Hw. induction Hw as [| a t Ha _ IH | a b t Hab _ IH | a b d t Habd _ IH].
  - done.
  - change (String a t +:+ s) with (String a (t +:+ s)).
    cbn [lstrip_tokens]. by rewrite Ha.
  - change (String a (String b t) +:+ s) with (String a (String b (t +:+ s))).
    cbn [lstrip_tokens]. by rewrite (exclusive2 _ _ Hab), Hab.
  - change (String a (String b (String d t)) +:+ s)
      with (String a (String b (String d (t +:+ s)))).
    cbn [lstrip_tokens]. destruct (exclusive3 _ _ _ Habd) as [-> ->]. by rewrite Habd.
Qed.

Lemma lstrip_tokens_plain (a : ascii) s :
  m1 a = false → (∀ b, m2 a b = false) → (∀ b d, m3 a b d = false) →
  lstrip_tokens m1 m2 m3 (String a s) = String a s.
Proof.
  intros H1 H2 H3. cbn [lstrip_tokens]. rewrite H1.
  destruct s as [| b s]; [done |]. rewrite H2.
  destruct s as [| d s]; [done |]. by rewrite H3.
Qed.

(** What [lstrip] removes is made of characters of the class. *)
Lemma lstrip_tokens_decomp s :
  ∃ w, tokens m1 m2 m3 w ∧ s = w +:+ lstrip_tokens m1 m2 m3 s.
Proof.
  induction s as [s IH] using string_length_ind.
  destruct s as [| a s]; [exists ""; split; [constructor | done] |].
  cbn [lstrip_tokens]. destruct (m1 a) eqn:Ha.
  { destruct (IH s) as (w & Hw & Hs); [simpl; lia |].
    exists (String a w). split; [by apply tokens_1 |].
    change (String a w +:+ ?x) with (String a (w +:+ x)). by rewrite <- Hs. }
  destruct s as [| b s]; [exists ""; split; [constructor | done] |].
  destruct (m2 a b) eqn:Hab.
  { destruct (IH s) as (w & Hw & Hs); [simpl; lia |].
    exists (String a (String b w)). split; [by apply tokens_2 |].
    change (String a (String b w) +:+ ?x) with (String a (String b (w +:+ x))).
    by rewrite <- Hs. }
  destruct s as [| d s]; [exists ""; split; [constructor | done] |].
  destruct (m3 a b d) eqn:Habd.
  { destruct (IH s) as (w & Hw & Hs); [simpl; lia |].
    exists (String a (String b (String d w))). split; [by apply tokens_3 |].
    change (String a (String b (String d w)) +:+ ?x)
      with (String a (String b (String d (w +:+ x)))).
    by rewrite <- Hs. }
  exists "". split; [constructor | done].
Qed.

End token_strips.

(** Reading a string of the class backwards gives a string of the class
    read last byte first. *)
Lemma tokens_rev m1 m2 m3 m2' m3' w :
  (∀ a b, m2' a b = m2 b a) → (∀ a b d, m3' a b d = m3 d b a) →
  tokens m1 m2 m3 w → tokens m1 m2' m3' (String.rev w).
Proof.
  intros H2 H3 Hw.
  induction Hw as [| a t Ha _ IH | a b t Hab _ IH | a b d t Habd _ IH].
  - constructor.
  - rewrite string_rev_cons. apply tokens_app; [done |].
    apply tokens_1; [done | constructor].
  - rewrite !string_rev_cons, string_app_assoc'. apply tokens_app; [done |].
    apply (tokens_2 _ _ _ b a); [by rewrite H2 | constructor].
  - rewrite !string_rev_cons, !string_app_assoc'. apply tokens_app; [done |].
    apply (tokens_3 _ _ _ d b a); [by rewrite H3 | constructor].
Qed.

Lemma tokens_mono m1 m2 m3 m1' w :
  (∀ a, m1 a = true → m1' a = true) → tokens m1 m2 m3 w → tokens m1' m2 m3 w.
Proof.
  intros H1 Hw. induction Hw; [constructor | apply tokens_1 | apply tokens_2 | apply tokens_3];
    auto.
Qed.

Section strip_tokens_facts.

Variables (m1 : ascii → bool) (m2 : ascii → ascii → bool)
  (m3 : ascii → ascii → ascii → bool).

Hypothesis exclusive2 : ∀ a b, m2 a b = true → m1 a = false.
Hypothesis exclusive3 : ∀ a b d, m3 a b d = true → m1 a = false ∧ m2 a b = false.
Hypothesis exclusive2_rev : ∀ a b, m2 b a = true → m1 a = false.
Hypothesis exclusive3_rev : ∀ a b d, m3 d b a = true → m1 a = false ∧ m2 b a = false.

#[local] Abbreviation m2r := (λ a b : ascii, m2 b a).
#[local] Abbreviation m3r := (λ a b d : ascii, m3 d b a).

Lemma strip_tokens_wrapped (pre post body : string) (a z : ascii) (b r : string) :
  tokens m1 m2 m3 pre →
  tokens m1 m2 m3 post →
  body = String a b →
  m1 a = false → (∀ x, m2 a x = false) → (∀ x y, m3 a x y = false) →
  String.rev body = String z r →
  m1 z = false → (∀ x, m2 x z = false) → (∀ x y, m3 y x z = false) →
  strip_tokens m1 m2 m3 (pre +:+ body +:+ post) = body.
Proof.
  intros Hpre Hpost Hbody Ha1 Ha2 Ha3 Hrev Hz1 Hz2 Hz3. unfold strip_tokens.
  rewrite lstrip_tokens_app by done.
  assert (lstrip_tokens m1 m2 m3 (body +:+ post) = body +:+ post) as ->.
  { rewrite Hbody. change (String a b +:+ post) with (String a (b +:+ post)).
    by apply lstrip_tokens_plain. }
  rewrite string_rev_app.
  rewrite (lstrip_tokens_app m1 m2r m3r) ;
    [| done | done | by apply (tokens_rev m1 m2 m3)].
  rewrite Hrev, (lstrip_tokens_plain m1 m2r m3r) by done.
  rewrite <- Hrev. apply string_rev_involutive.
Qed.

(** A string is what [strip] returns, between characters of the class. *)
Lemma strip_tokens_decomp s :
  ∃ w1 w2, tokens m1 m2 m3 w1 ∧ tokens m1 m2 m3 w2
           ∧ s = w1 +:+ strip_tokens m1 m2 m3 s +:+ w2.
Proof.
  unfold strip_tokens.
  destruct (lstrip_tokens_decomp m1 m2 m3 s) as (w1 & Hw1 & Hs).
  destruct (lstrip_tokens_decomp m1 m2r m3r (String.rev (lstrip_tokens m1 m2 m3 s)))
    as (w2 & Hw2 & Hrev).
  exists w1, (String.rev w2). split; [done |]. split.
  - apply (tokens_rev m1 m2r m3r); [done | done | done].
  - rewrite <- string_rev_app, <- Hrev, string_rev_involutive. done.
Qed.

(** [strip] returns the empty string exactly for the strings of the
    class. *)
Lemma strip_tokens_empty_iff s :
  strip_tokens m1 m2 m3 s = "" ↔ tokens m1 m2 m3 s.
Proof.
  split.
  - intros He. destruct (strip_tokens_decomp s) as (w1 & w2 & Hw1 & Hw2 & Hs).
    rewrite He in Hs. rewrite Hs. by apply tokens_app.
  - intros Hs. unfold strip_tokens.
    rewrite <- (string_app_empty_r s), lstrip_tokens_app by done. done.
Qed.

End strip_tokens_facts.

(** *** The two whitespace classes *)

Lemma is_py_space_cases (a : ascii) :
  is_py_space a = true
  ↔ (9 ≤ nat_of_ascii a ≤ 13 ∨ 28 ≤ nat_of_ascii a ≤ 32)%nat.
Proof.
  unfold is_py_space. cbv zeta.
  rewrite orb_true_iff, !andb_true_iff, !Nat.leb_le. lia.
Qed.

Lemma is_c_space_cases (a : ascii) :
  is_c_space a = true ↔ (9 ≤ nat_of_ascii a ≤ 13 ∨ nat_of_ascii a = 32)%nat.
Proof.
  unfold is_c_space. cbv zeta.
  rewrite orb_true_iff, !andb_true_iff, !Nat.leb_le, Nat.eqb_eq. lia.
Qed.

Lemma is_space2_cases (a b : ascii) :
  is_space2 a b = true
  ↔ (nat_of_ascii a = 194 ∧ (nat_of_ascii b = 133 ∨ nat_of_ascii b = 160))%nat.
Proof.
  unfold is_space2. cbv zeta.
  rewrite andb_true_iff, orb_true_iff, !Nat.eqb_eq. lia.
Qed.

Lemma is_space3_cases (a b d : ascii) :
  is_space3 a b d = true
  → (225 ≤ nat_of_ascii a ≤ 227 ∧ 128 ≤ nat_of_ascii b ≤ 154
     ∧ 128 ≤ nat_of_ascii d ≤ 175)%nat.
Proof.
  unfold is_space3. cbv zeta.
  rewrite !orb_true_iff, !andb_true_iff, !orb_true_iff, !andb_true_iff,
    !Nat.eqb_eq, !Nat.leb_le. lia.
Qed.

Lemma false_of_not_true (b : bool) : b ≠ true → b = false.
Proof. by destruct b. Qed.

Lemma ascii_plain_cases (a : ascii) :
  ascii_plain a = true → is_py_space a = false ∧ (nat_of_ascii a < 128)%nat.
Proof.
  unfold ascii_plain. rewrite andb_true_iff, negb_true_iff, Nat.ltb_lt. done.
Qed.

Lemma is_c_space_py_space (a : ascii) : is_c_space a = true → is_py_space a = true.
Proof. rewrite is_c_space_cases, is_py_space_cases. lia. Qed.

Lemma py_space_exclusive2 (a b : ascii) : is_space2 a b = true → is_py_space a = false.
Proof.
  intros H%is_space2_cases. apply false_of_not_true. rewrite is_py_space_cases. lia.
Qed.

Lemma py_space_exclusive3 (a b d : ascii) :
  is_space3 a b d = true → is_py_space a = false ∧ is_space2 a b = false.
Proof.
  intros H%is_space3_cases.
  split; apply false_of_not_true; rewrite ?is_py_space_cases, ?is_space2_cases; lia.
Qed.

Lemma py_space_exclusive2_rev (a b : ascii) : is_space2 b a = true → is_py_space a = false.
Proof.
  intros H%is_space2_cases. apply false_of_not_true. rewrite is_py_space_cases. lia.
Qed.

Lemma py_space_exclusive3_rev (a b d : ascii) :
  is_space3 d b a = true → is_py_space a = false ∧ is_space2 b a = false.
Proof.
  intros H%is_space3_cases.
  split; apply false_of_not_true; rewrite ?is_py_space_cases, ?is_space2_cases; lia.
Qed.

Lemma c_space_false (a : ascii) : is_py_space a = false → is_c_space a = false.
Proof.
  intros H. apply false_of_not_true. intros Hc%is_c_space_py_space. congruence.
Qed.

Lemma ascii_plain_space2 (a x : ascii) :
  ascii_plain a = true → is_space2 a x = false ∧ is_space2 x a = false.
Proof.
  intros [_ Ha]%ascii_plain_cases.
  split; apply false_of_not_true; rewrite is_space2_cases; lia.
Qed.

Lemma ascii_plain_space3 (a x y : ascii) :
  ascii_plain a = true → is_space3 a x y = false ∧ is_space3 y x a = false.
Proof.
  intros [_ Ha]%ascii_plain_cases.
  split; apply false_of_not_true; intros H%is_space3_cases; lia.
Qed.

(** A text that starts and ends with ASCII characters that are not
    whitespace, between whitespace, is what [strip] returns. *)
Lemma py_strip_tokens_wrapped (pre post body : string) (a z : ascii) (b r : string) :
  whitespace_only pre → whitespace_only post →
  body = String a b → ascii_plain a = true →
  String.rev body = String z r → ascii_plain z = true →
  py_strip (pre +:+ body +:+ post) = body.
Proof.
  intros Hpre Hpost Hbody Ha Hrev Hz. unfold py_strip.
  apply (strip_tokens_wrapped is_py_space is_space2 is_space3
           py_space_exclusive2 py_space_exclusive3
           py_space_exclusive2_rev py_space_exclusive3_rev pre post body a z b r);
    try done.
  - by destruct (ascii_plain_cases a Ha).
  - intros x. by destruct (ascii_plain_space2 a x Ha).
  - intros x y. by destruct (ascii_plain_space3 a x y Ha).
  - by destruct (ascii_plain_cases z Hz).
  - intros x. by destruct (ascii_plain_space2 z x Hz).
  - intros x y. by destruct (ascii_plain_space3 z x y Hz).
Qed.

Lemma py_strip_wrapped (pre post body : string) (a z : ascii) (b r : string) :
  all_chars is_py_space pre = true → all_chars is_py_space post = true →
  body = String a b → ascii_plain a = true →
  String.rev body = String z r → ascii_plain z = true →
  py_strip (pre +:+ body +:+ post) = body.
Proof.
  intros Hpre Hpost. apply py_strip_tokens_wrapped; by apply tokens_all_chars.
Qed.

Lemma float_strip_tokens_wrapped (pre post body : string) (a z : ascii) (b r : string) :
  tokens is_c_space is_space2 is_space3 pre →
  tokens is_c_space is_space2 is_space3 post →
  body = String a b → ascii_plain a = true →
  String.rev body = String z r → ascii_plain z = true →
  float_strip (pre +:+ body +:+ post) = body.
Proof.
  intros Hpre Hpost Hbody Ha Hrev Hz. unfold float_strip.
  apply (strip_tokens_wrapped is_c_space is_space2 is_space3) with (a := a) (z := z)
    (b := b) (r := r); try done.
  - intros x y H. by apply c_space_false, (py_space_exclusive2 x y).
  - intros x y d H. destruct (py_space_exclusive3 x y d H). split; [by apply c_space_false | done].
  - intros x y H. by apply c_space_false, (py_space_exclusive2_rev x y).
  - intros x y d H. destruct (py_space_exclusive3_rev x y d H).
    split; [by apply c_space_false | done].
  - apply c_space_false. by destruct (ascii_plain_cases a Ha).
  - intros x. by destruct (ascii_plain_space2 a x Ha).
  - intros x y. by destruct (ascii_plain_space3 a x y Ha).
  - apply c_space_false. by destruct (ascii_plain_cases z Hz).
  - intros x. by destruct (ascii_plain_space2 z x Hz).
  - intros x y. by destruct (ascii_plain_space3 z x y Hz).
Qed.

Lemma float_strip_decomp s :
  ∃ w1 w2, tokens is_c_space is_space2 is_space3 w1
           ∧ tokens is_c_space is_space2 is_space3 w2
           ∧ s = w1 +:+ float_strip s +:+ w2.
Proof.
  apply strip_tokens_decomp.
Qed.

(** [strip] returns the empty string exactly for the texts that hold
    whitespace only. *)
Lemma py_strip_empty_iff s : py_strip s = "" ↔ whitespace_only s.
Proof.
  apply strip_tokens_empty_iff.
  - apply py_space_exclusive2.
  - apply py_space_exclusive3.
Qed.

(** *** The characters of a literal *)

Lemma lit_char_plain (a : ascii) : lit_char a = true → ascii_plain a = true.
Proof. destruct a as [[] [] [] [] [] [] [] []]; vm_compute; done. Qed.

Lemma is_nat_lit (a : ascii) (d : nat) : Ascii.is_nat a = Some d → lit_char a = true.
Proof. unfold lit_char, is_digit. by intros ->. Qed.

(** A group of digits is made of characters of a literal. *)
Lemma read_digitpart_lit s (acc : N) (cnt : nat) (v : N) (n : nat) (rest : string) :
  read_digitpart s acc cnt = (v, n, rest) →
  ∃ u, s = u +:+ rest ∧ all_chars lit_char u = true.
Proof.
  revert acc cnt. induction s as [s IH] using string_length_ind. intros acc cnt.
  destruct s as [| a s]; [intros [= <- <- <-]; by exists "" |].
  cbn [read_digitpart]. destruct (Ascii.is_nat a) as [d |] eqn:Ha.
  { intros (u & -> & Hu)%IH; [| simpl; lia].
    exists (String a u). split; [done |]. simpl. by rewrite (is_nat_lit a d), Hu. }
  destruct cnt as [| cnt]; [intros [= <- <- <-]; by exists "" |].
  destruct s as [| b s]; [intros [= <- <- <-]; by exists "" |].
  case_bool_decide as Hu; [| intros [= <- <- <-]; by exists ""].
  destruct (Ascii.is_nat b) as [d |] eqn:Hb; [| intros [= <- <- <-]; by exists ""].
  intros (u & -> & Hlit)%IH; [| simpl; lia].
  exists (String a (String b u)). split; [done |].
  simpl. rewrite (is_nat_lit b d), Hlit by done. by subst a.
Qed.

Lemma read_sign_lit s (neg : bool) (rest : string) :
  read_sign s = (neg, rest) → ∃ u, s = u +:+ rest ∧ all_chars lit_char u = true.
Proof.
  destruct s as [| a s]; [intros [= <- <-]; by exists "" |].
  unfold read_sign. repeat case_bool_decide; intros [= <- <-]; subst.
  - by exists "-".
  - by exists "+".
  - by exists "".
Qed.

Lemma read_exponent_lit s (e : Z) :
  read_exponent s = Some (e, "") → all_chars lit_char s = true.
Proof.
  destruct s as [| a s]; [done |].
  unfold read_exponent. destruct (is_exp_mark a) eqn:Ha; [| done].
  destruct (read_sign s) as [neg s1] eqn:Hsign.
  destruct (read_digitpart s1 0 0) as [[v cnt] rest] eqn:Hdigits.
  destruct cnt; [done |]. intros [= _ ->].
  apply read_sign_lit in Hsign as (u1 & -> & Hu1).
  apply read_digitpart_lit in Hdigits as (u2 & -> & Hu2).
  simpl. rewrite !all_chars_app, Hu1, Hu2. simpl. rewrite andb_true_r.
  unfold lit_char. unfold is_exp_mark in Ha.
  apply orb_true_iff in Ha as [Ha | Ha]; rewrite Ha; by rewrite ?orb_true_r.
Qed.

Lemma parse_float_lit s (q : Q) : parse_float s = Some q → all_chars lit_char s = true.
Proof.
  unfold parse_float.
  destruct (read_sign s) as [neg s1] eqn:Hsign.
  destruct (read_digitpart s1 0 0) as [[ip icnt] s2] eqn:Hint.
  apply read_sign_lit in Hsign as (u0 & -> & Hu0).
  apply read_digitpart_lit in Hint as (u1 & -> & Hu1).
  rewrite !all_chars_app, Hu0, Hu1. simpl.
  destruct s2 as [| a s2'].
  - destruct (icnt + 0)%nat; [done |]. done.
  - case_bool_decide as Hdot.
    + destruct (read_digitpart s2' ip 0) as [[m fcnt] s3] eqn:Hfrac.
      apply read_digitpart_lit in Hfrac as (u2 & -> & Hu2).
      destruct (icnt + fcnt)%nat; [done |].
      destruct (read_exponent s3) as [[e rest] |] eqn:Hexp; [| done].
      destruct rest; [| done]. intros _.
      apply read_exponent_lit in Hexp.
      simpl. rewrite all_chars_app, Hu2, Hexp. by subst a.
    + destruct (icnt + 0)%nat; [done |].
      destruct (read_exponent (String a s2')) as [[e rest] |] eqn:Hexp; [| done].
      destruct rest; [| done]. intros _.
      by apply read_exponent_lit in Hexp.
Qed.

(** A literal starts and ends with ASCII characters that are not
    whitespace. *)
Lemma parse_float_ends s (q : Q) :
  parse_float s = Some q →
  ∃ (a z : ascii) (b r : string),
    s = String a b ∧ ascii_plain a = true
    ∧ String.rev s = String z r ∧ ascii_plain z = true.
Proof.
  intros Hq. pose proof (parse_float_lit s q Hq) as Hlit.
  destruct s as [| a b]; [done |].
  assert (all_chars lit_char (String.rev (String a b)) = true) as Hrev
    by (by rewrite all_chars_rev).
  destruct (String.rev (String a b)) as [| z r] eqn:Hr.
  { apply (f_equal String.rev) in Hr. by rewrite string_rev_involutive in Hr. }
  simpl in Hlit, Hrev.
  apply andb_true_iff in Hlit as [Ha _]. apply andb_true_iff in Hrev as [Hz _].
  exists a, z, b, r. repeat split; try done; by apply lit_char_plain.
Qed.

Lemma py_strip_leading_space s : py_strip (" " +:+ s) = py_strip s.
Proof.
  unfold py_strip, strip_tokens.
  by rewrite (lstrip_tokens_app is_py_space is_space2 is_space3
                py_space_exclusive2 py_space_exclusive3 " " s)
    by (apply tokens_1; [done | constructor]).
Qed.

(** [float] applied to a piece of the split string, with the blank that
    follows the comma, reads the numeral. *)
Lemma py_float_stripped s (q : Q) :
  float_of_string s = Some q →
  py_float (VStr (py_strip s)) = Ok q ∧ py_float (VStr (py_strip (" " +:+ s))) = Ok q.
Proof.
  intros Hs. rewrite py_strip_leading_space.
  assert (py_float (VStr (py_strip s)) = Ok q) as H; [| done].
  unfold float_of_string in Hs.
  destruct (parse_float_ends _ _ Hs) as (a & z & b & r & Hab & Ha & Hzr & Hz).
  destruct (float_strip_decomp s) as (w1 & w2 & Hw1 & Hw2 & Hdec).
  assert (py_strip s = float_strip s) as ->.
  { rewrite Hdec at 1.
    apply (py_strip_tokens_wrapped w1 w2 _ a z b r); try done;
      (apply (tokens_mono is_c_space _ _ is_py_space);
       [apply is_c_space_py_space | done]). }
  cbn [py_float]. unfold float_of_string.
  assert (float_strip (float_strip s) = float_strip s) as ->.
  { rewrite <- (string_app_empty_r (float_strip s)) at 1.
    change (float_strip s +:+ "") with ("" +:+ float_strip s +:+ "").
    apply (float_strip_tokens_wrapped "" "" _ a z b r); try done; constructor. }
  by rewrite Hs.
Qed.

Lemma split_on_no_sep (s : string) :
  all_chars (λ c, negb (is_bbox_punct c)) s = true → split_on "," s = [s].
Proof.
  induction s as [| c s IH]; [done |]. simpl. intros [Hc Hs]%andb_true_iff.
  unfold is_bbox_punct in Hc. apply negb_true_iff, orb_false_iff in Hc as [Hc _].
  by rewrite Hc, IH.
Qed.

Lemma split_on_cons_sep (s rest : string) :
  all_chars (λ c, negb (is_bbox_punct c)) s = true →
  split_on "," (s +:+ String "," rest) = s :: split_on "," rest.
Proof.
  induction s as [| c s IH].
  - intros _. change ("" +:+ String "," rest) with (String "," rest). done.
  - simpl. intros [Hc Hs]%andb_true_iff.
    unfold is_bbox_punct in Hc. apply negb_true_iff, orb_false_iff in Hc as [Hc _].
    change (String c s +:+ String "," rest) with (String c (s +:+ String "," rest)).
    simpl. by rewrite Hc, IH.
Qed.

Lemma numeral_nonempty s (q : Q) : numeral_of s q → s ≠ "".
Proof. by intros [Hf _] ->. Qed.

End bbox_strings.

Section bbox_roundtrip.

Variables (s1 s2 s3 s4 : string) (q1 q2 q3 q4 : Q).
Hypothesis H1 : numeral_of s1 q1.
Hypothesis H2 : numeral_of s2 q2.
Hypothesis H3 : numeral_of s3 q3.
Hypothesis H4 : numeral_of s4 q4.

(** The bbox string without its parentheses. *)
#[local] Abbreviation body := (s1 +:+ ", " +:+ s2 +:+ ", " +:+ s3 +:+ ", " +:+ s4).

Lemma bbox_body_split :
  split_on "," body = [s1; " " +:+ s2; " " +:+ s3; " " +:+ s4].
Proof using H1 H2 H3 H4.
  destruct H1 as [_ A1], H2 as [_ A2], H3 as [_ A3], H4 as [_ A4].
  change body with (s1 +:+ String "," ((" " +:+ s2) +:+ String ","
                     ((" " +:+ s3) +:+ String "," (" " +:+ s4)))).
  rewrite split_on_cons_sep by done.
  rewrite split_on_cons_sep by (change (" " +:+ s2) with (String " " s2); simpl; done).
  rewrite split_on_cons_sep by (change (" " +:+ s3) with (String " " s3); simpl; done).
  rewrite split_on_no_sep by (change (" " +:+ s4) with (String " " s4); simpl; done).
  done.
Qed.

Lemma bbox_body_coords :
  map_result (λ x, py_float (VStr (py_strip x))) (split_on "," body)
  = Ok [q1; q2; q3; q4].
Proof using H1 H2 H3 H4.
  rewrite bbox_body_split. cbn [map_result].
  destruct H1 as [F1 _], H2 as [F2 _], H3 as [F3 _], H4 as [F4 _].
  destruct (py_float_stripped s1 q1 F1) as [-> _].
  destruct (py_float_stripped s2 q2 F2) as [_ ->].
  destruct (py_float_stripped s3 q3 F3) as [_ ->].
  destruct (py_float_stripped s4 q4 F4) as [_ ->].
  done.
Qed.

Lemma bbox_body_ends :
  ∃ a b z r, body = String a b ∧ is_paren a = false
             ∧ String.rev body = String z r ∧ is_paren z = false.
Proof using H1 H2 H3 H4.
  pose proof (numeral_nonempty _ _ H1) as N1.
  pose proof (numeral_nonempty _ _ H4) as N4.
  destruct H1 as [_ A1], H4 as [_ A4].
  destruct s1 as [| a b]; [done |].
  destruct (String.rev s4) as [| z r] eqn:Hrev.
  { exfalso. apply N4. by rewrite <- (string_rev_involutive s4), Hrev. }
  rewrite <- all_chars_rev, Hrev in A4.
  simpl in A1, A4.
  apply andb_true_iff in A1 as [Ha _]. apply andb_true_iff in A4 as [Hz _].
  unfold is_bbox_punct in Ha, Hz.
  apply negb_true_iff, orb_false_iff in Ha as [_ Ha].
  apply negb_true_iff, orb_false_iff in Hz as [_ Hz].
  exists a, (b +:+ ", " +:+ s2 +:+ ", " +:+ s3 +:+ ", " +:+ s4), z.
  eexists. split; [done |]. split; [done |]. split; [| done].
  rewrite !string_rev_app, Hrev. reflexivity.
Qed.

(** A bbox written as four numerals separated by commas, with or without
    the parentheses, parses to the same four numbers as the list and the
    tuple of these numbers. *)
Lemma parse_bbox_string_as_list :
  _parse_bbox (VStr (bbox_string s1 s2 s3 s4)) = Ok (Some [q1; q2; q3; q4])
  ∧ _parse_bbox (VStr body) = Ok (Some [q1; q2; q3; q4])
  ∧ _parse_bbox (VList [VFloat q1; VFloat q2; VFloat q3; VFloat q4])
    = Ok (Some [q1; q2; q3; q4])
  ∧ _parse_bbox (VTuple [VFloat q1; VFloat q2; VFloat q3; VFloat q4])
    = Ok (Some [q1; q2; q3; q4]).
Proof using H1 H2 H3 H4.
  destruct bbox_body_ends as (a & b & z & r & Hab & Ha & Hzr & Hz).
  assert (strip_class is_paren (bbox_string s1 s2 s3 s4) = body) as Hwrapped.
  { unfold bbox_string.
    assert ("(" +:+ s1 +:+ ", " +:+ s2 +:+ ", " +:+ s3 +:+ ", " +:+ s4 +:+ ")"
            = "(" +:+ body +:+ ")") as ->
      by (apply chars_inj; by rewrite !chars_app, <- !app_assoc).
    by apply (strip_class_wrapped is_paren "(" ")" body a z b r). }
  assert (strip_class is_paren body = body) as Hbare.
  { assert ("" +:+ body +:+ "" = body) as Hwrap
      by (apply chars_inj; by rewrite !chars_app, app_nil_r).
    rewrite <- Hwrap at 1.
    by apply (strip_class_wrapped is_paren "" "" body a z b r). }
  unfold _parse_bbox. rewrite Hwrapped, Hbare, bbox_body_coords.
  done.
Qed.

End bbox_roundtrip.

(** ** ArtifactStore: field keys, storage keys and the bucket *)

Section dict_keys.

Context {V : Type}.
Implicit Types (d : dict V) (k : string) (v : V).

Lemma dict_set_key_elem_of d k k' v :
  k' ∈ (dict_set k v d).*1 → k' = k ∨ k' ∈ d.*1.
Proof.
  intros ([k0 v0] & -> & Hin)%list_elem_of_fmap.
  apply dict_set_elem_of in Hin as [? | Hin]; [left; by simplify_eq |].
  right. apply list_elem_of_fmap. by exists (k0, v0).
Qed.

Lemma NoDup_dict_set d k v : NoDup d.*1 → NoDup (dict_set k v d).*1.
Proof.
  induction d as [| [k0 v0] d IH]; simpl.
  - intros _. apply NoDup_singleton.
  - intros [Hk0 Hd]%NoDup_cons. case_bool_decide; simplify_eq.
    + simpl. by apply NoDup_cons.
    + rewrite fmap_cons. apply NoDup_cons. split; [| by apply IH].
      intros [? | ?]%dict_set_key_elem_of; done.
Qed.

Lemma dict_get_Some_elem_of d k v : NoDup d.*1 → (k, v) ∈ d → dict_get d k = Some v.
Proof.
  induction d as [| [k0 v0] d IH]; simpl.
  - intros _ Hin. by apply not_elem_of_nil in Hin.
  - intros [Hk0 Hd]%NoDup_cons [Heq | Hin]%elem_of_cons.
    + simplify_eq. by rewrite bool_decide_eq_true_2.
    + case_bool_decide; [| by apply IH]. simplify_eq.
      exfalso. apply Hk0. apply list_elem_of_fmap. by exists (k, v).
Qed.

End dict_keys.

Section upload_outcomes.

Variable local_exists : string → bool.
Variable client_upload : string → string → string → string → bool.
Variables bucket_name job_id : string.

Implicit Types (store : gmap (string * string) s3_object)
  (k : string) (paths : list string) (d cutout_paths : dict (list string)).

#[local] Abbreviation uploaded k := (λ p : string, Is_true (upload_succeeds local_exists client_upload bucket_name job_id k p)).
#[local] Abbreviation uris_of := (λ kp : string * list string, (kp.1, s3_uri_for bucket_name job_id kp.1 <$> filter (uploaded kp.1) kp.2)).

Lemma dict_set_fresh {V} (d0 : dict V) (k : string) (v : V) :
  k ∉ d0.*1 → dict_set k v d0 = d0 ++ [(k, v)].
Proof.
  induction d0 as [| [k0 v0] d0 IH]; simpl; [done |].
  intros Hk. apply not_elem_of_cons in Hk as [Hne Hk].
  rewrite bool_decide_eq_false_2 by done. by rewrite IH.
Qed.

Lemma foldl_upload_field_fresh cutout_paths store d :
  NoDup cutout_paths.*1 →
  (∀ k, k ∈ cutout_paths.*1 → k ∉ d.*1) →
  (foldl (upload_field local_exists client_upload bucket_name job_id) (store, d)
     cutout_paths).2
  = d ++ (uris_of <$> cutout_paths).
Proof.
  revert store d. induction cutout_paths as [| [k0 paths0] cp IH]; intros store d.
  - intros _ _. simpl. by rewrite app_nil_r.
  - rewrite fmap_cons. cbn [fst]. intros [Hk0 Hnd]%NoDup_cons Hfresh.
    cbn [foldl]. rewrite upload_field_eq.
    rewrite dict_set_fresh by (apply Hfresh, list_elem_of_here).
    rewrite IH; [by rewrite <- app_assoc | done |].
    intros k Hk. rewrite fmap_app. intros [Hd | Heq%list_elem_of_singleton]%elem_of_app.
    + by apply (Hfresh k); [apply list_elem_of_further |].
    + simpl in Heq. by subst.
Qed.

(** An object of the bucket after the stores of one field key. *)
Lemma foldl_put_lookup k (l : list string) store (bk : string * string) :
  let store' :=
    foldl (λ st (p : string), <[(bucket_name, s3_key_for job_id k p) := s3_object_of p]> st)
      store l in
  store' !! bk = store !! bk
  ∨ ∃ p, p ∈ l ∧ bk = (bucket_name, s3_key_for job_id k p)
         ∧ store' !! bk = Some (s3_object_of p).
Proof.
  cbv zeta. revert store. induction l as [| p l IH]; intros store; [by left |].
  cbn [foldl].
  destruct (IH (<[(bucket_name, s3_key_for job_id k p) := s3_object_of p]> store))
    as [Heq | (p' & Hp' & Hbk & Hlook)].
  - rewrite Heq. destruct (decide (bk = (bucket_name, s3_key_for job_id k p))) as [-> | Hne].
    + right. exists p. rewrite lookup_insert_eq. split; [apply list_elem_of_here | done].
    + left. by rewrite lookup_insert_ne.
  - right. exists p'. split; [by apply list_elem_of_further | done].
Qed.

Lemma upload_cutouts_lookup cutout_paths store d (bk : string * string) :
  let store' :=
    (foldl (upload_field local_exists client_upload bucket_name job_id) (store, d)
       cutout_paths).1 in
  store' !! bk = store !! bk
  ∨ ∃ k paths p, (k, paths) ∈ cutout_paths ∧ p ∈ paths
       ∧ upload_succeeds local_exists client_upload bucket_name job_id k p = true
       ∧ bk = (bucket_name, s3_key_for job_id k p)
       ∧ store' !! bk = Some (s3_object_of p).
Proof.
  cbv zeta. revert store d. induction cutout_paths as [| [k0 paths0] cp IH]; intros store d;
    [by left |].
  cbn [foldl]. rewrite upload_field_eq.
  destruct (IH (foldl (λ st (p : string),
                         <[(bucket_name, s3_key_for job_id k0 p) := s3_object_of p]> st)
                  store (filter (uploaded k0) paths0))
              (dict_set k0 (s3_uri_for bucket_name job_id k0 <$> filter (uploaded k0) paths0) d))
    as [Heq | (k & paths & p & Hk & Hp & Hok & Hbk & Hlook)].
  - rewrite Heq.
    destruct (foldl_put_lookup k0 (filter (uploaded k0) paths0) store bk)
      as [Heq' | (p & [Hok Hp]%list_elem_of_filter & Hbk & Hlook)]; [by left |].
    right. exists k0, paths0, p. split; [apply list_elem_of_here |].
    split; [done |]. split; [by apply Is_true_eq_true |]. done.
  - right. exists k, paths, p. split; [by apply list_elem_of_further | done].
Qed.

End upload_outcomes.

Section field_keys.

Lemma split_once_app (sep : ascii) (a b : string) :
  all_chars (λ c, negb (bool_decide (c = sep))) a = true →
  split_once sep (a +:+ String sep b) = Some (a, b).
Proof.
  induction a as [| c a IH].
  - intros _. change ("" +:+ String sep b) with (String sep b).
    cbn [split_once]. by rewrite bool_decide_eq_true_2.
  - cbn [all_chars]. intros [Hc Ha]%andb_true_iff. apply negb_true_iff in Hc.
    change (String c a +:+ String sep b) with (String c (a +:+ String sep b)).
    cbn [split_once]. by rewrite Hc, IH.
Qed.

Lemma all_chars_impl (P Q : ascii → bool) (s : string) :
  (∀ c, P c = true → Q c = true) → all_chars P s = true → all_chars Q s = true.
Proof.
  intros HPQ. induction s as [| c s IH]; simpl; [done |].
  intros [Hc Hs]%andb_true_iff. by rewrite (HPQ c Hc), IH.
Qed.

Lemma is_digit_not (c d : ascii) : is_digit d = false → is_digit c = true → c ≠ d.
Proof. intros Hd Hc ->. congruence. Qed.

Lemma replace_go_unit_digits (fuel : nat) (ds : string) :
  all_chars is_digit ds = true → replace_go fuel "unit" "" ds = ds.
Proof.
  revert ds. induction fuel as [| fuel IH]; intros ds Hds; [done |].
  destruct ds as [| c ds]; [done |].
  simpl in Hds. apply andb_true_iff in Hds as [Hc Hds].
  cbn [replace_go strip_prefix].
  rewrite bool_decide_eq_false_2
    by (intros Heq; symmetry in Heq; revert Heq; by apply is_digit_not).
  by rewrite IH.
Qed.

Lemma split_field_key_field_key (n : nat) (f : string) :
  split_field_key (field_key n f) = (pretty n, f).
Proof.
  unfold split_field_key, field_key.
  assert ("unit" +:+ pretty n +:+ "_" +:+ f = ("unit" +:+ pretty n) +:+ String "_" f) as ->
    by (apply chars_inj; by rewrite !chars_app, <- !app_assoc).
  rewrite split_once_app.
  - f_equal. unfold py_replace.
    change (replace_go (S (String.length ("unit" +:+ pretty n))) "unit" ""
              ("unit" +:+ pretty n))
      with (replace_go (String.length ("unit" +:+ pretty n)) "unit" "" (pretty n)).
    apply replace_go_unit_digits, all_digits_pretty_nat.
  - change ("unit" +:+ pretty n)
      with (String "u" (String "n" (String "i" (String "t" (pretty n))))).
    cbn [all_chars]. rewrite !bool_decide_eq_false_2 by done. simpl.
    apply (all_chars_impl is_digit); [| apply all_digits_pretty_nat].
    intros c Hc. apply negb_true_iff, bool_decide_eq_false_2.
    by apply is_digit_not.
Qed.

Lemma s3_key_of_inj (job_id : string) (m n : nat) (f1 f2 ext : string) :
  s3_key_of job_id (pretty m) f1 ext = s3_key_of job_id (pretty n) f2 ext →
  m = n ∧ f1 = f2.
Proof.
  unfold s3_key_of. intros Heq.
  apply (inj (String.app "contracts/")), (inj (String.app job_id)),
    (inj (String.app "/unit_")) in Heq.
  apply (f_equal chars) in Heq. rewrite !chars_app in Heq.
  apply digit_prefix_unique in Heq as (Hm & _ & Hf);
    [| apply digits_pretty_nat | apply digits_pretty_nat | done | done].
  split; [apply (inj pretty); by apply chars_inj |].
  apply app_inv_tail in Hf. by apply chars_inj.
Qed.

End field_keys.

Section storage_keys.

Variable local_exists : string → bool.
Variable client_upload : string → string → string → string → bool.
Variables bucket_name job_id : string.

Implicit Types (store : gmap (string * string) s3_object)
  (k field : string) (paths : list string) (d cutout_paths : dict (list string)).

#[local] Abbreviation uploaded k := (λ p : string, Is_true (upload_succeeds local_exists client_upload bucket_name job_id k p)).
#[local] Abbreviation sent key := (λ p : string, Is_true (local_exists p && client_upload p bucket_name key "image/png")).
#[local] Abbreviation artifacts paths := (∀ p, p ∈ paths → ∃ dir i f cid pg, p = artifact_path dir i f cid pg).

Lemma filter_ext_elem_of {A} (P Q : A → Prop) `{!∀ x, Decision (P x)}
    `{!∀ x, Decision (Q x)} (l : list A) :
  (∀ x, x ∈ l → P x ↔ Q x) → filter P l = filter Q l.
Proof.
  induction l as [| x l IH]; intros Hext; [done |].
  rewrite !filter_cons, IH by (intros; apply Hext; by apply list_elem_of_further).
  destruct (decide (P x)) as [HP | HP], (decide (Q x)) as [HQ | HQ]; try done;
    exfalso; apply (Hext x (list_elem_of_here _ _)) in HP || apply HP, (Hext x (list_elem_of_here _ _)); done.
Qed.

Lemma upload_succeeds_artifact (n : nat) field (dir : string) (i : nat)
    (f cid : string) (pg : Z) :
  upload_succeeds local_exists client_upload bucket_name job_id (field_key n field)
    (artifact_path dir i f cid pg)
  = local_exists (artifact_path dir i f cid pg)
    && client_upload (artifact_path dir i f cid pg) bucket_name
         (s3_key_of job_id (pretty n) field ".png") "image/png".
Proof.
  unfold upload_succeeds.
  by rewrite s3_key_for_artifact, splitext_ext_artifact_path, split_field_key_field_key.
Qed.

Lemma filter_uploaded_artifacts (n : nat) field paths :
  artifacts paths →
  filter (uploaded (field_key n field)) paths
  = filter (sent (s3_key_of job_id (pretty n) field ".png")) paths.
Proof.
  intros Hart. apply filter_ext_elem_of. intros p Hp.
  destruct (Hart p Hp) as (dir & i & f & cid & pg & ->).
  by rewrite upload_succeeds_artifact.
Qed.

(** The uploads of other field keys leave the storage key of a field as it
    is. *)
Lemma upload_cutouts_untouched cutout_paths store d (n : nat) field :
  (∀ k l, (k, l) ∈ cutout_paths → ∃ m f, k = field_key m f) →
  (∀ k l, (k, l) ∈ cutout_paths → artifacts l) →
  (field_key n field ∉ cutout_paths.*1) →
  (foldl (upload_field local_exists client_upload bucket_name job_id) (store, d)
     cutout_paths).1 !! (bucket_name, s3_key_of job_id (pretty n) field ".png")
  = store !! (bucket_name, s3_key_of job_id (pretty n) field ".png").
Proof.
  intros Hkeys Hart Hfresh.
  destruct (upload_cutouts_lookup local_exists client_upload bucket_name job_id
              cutout_paths store d
              (bucket_name, s3_key_of job_id (pretty n) field ".png"))
    as [Heq | (k & l & p & Hk & Hp & _ & Hbk & _)]; [done |].
  exfalso. apply Hfresh.
  destruct (Hkeys k l Hk) as (m & f & ->).
  destruct (Hart _ l Hk p Hp) as (dir & i & f' & cid & pg & ->).
  apply (f_equal snd) in Hbk. cbn [snd] in Hbk. rename Hbk into Hkey.
  rewrite s3_key_for_artifact, split_field_key_field_key in Hkey.
  apply s3_key_of_inj in Hkey as [-> ->].
  apply list_elem_of_fmap. by exists (field_key m f, l).
Qed.

(** The bucket after the whole upload, at the storage key of a field. *)
Lemma upload_cutouts_field_store cutout_paths store d (n : nat) field paths :
  NoDup cutout_paths.*1 →
  (∀ k l, (k, l) ∈ cutout_paths → ∃ m f, k = field_key m f) →
  (∀ k l, (k, l) ∈ cutout_paths → artifacts l) →
  (field_key n field, paths) ∈ cutout_paths →
  (foldl (upload_field local_exists client_upload bucket_name job_id) (store, d)
     cutout_paths).1 !! (bucket_name, s3_key_of job_id (pretty n) field ".png")
  = match last (filter (sent (s3_key_of job_id (pretty n) field ".png")) paths) with
    | Some p => Some {| obj_source := p; obj_content_type := "image/png" |}
    | None => store !! (bucket_name, s3_key_of job_id (pretty n) field ".png")
    end.
Proof.
  intros Hnd Hkeys Hart Hin.
  apply list_elem_of_split in Hin as (pre & post & ->).
  rewrite fmap_app, fmap_cons in Hnd. cbn [fst] in Hnd.
  apply NoDup_app in Hnd as (_ & Hpre & [Hpost _]%NoDup_cons).
  assert (field_key n field ∉ pre.*1) as Hpre'.
  { intros Hk. apply (Hpre _ Hk), list_elem_of_here. }
  rewrite foldl_app. cbn [foldl].
  destruct (foldl (upload_field local_exists client_upload bucket_name job_id)
              (store, d) pre) as [store1 d1] eqn:Hfold1.
  assert (store1 !! (bucket_name, s3_key_of job_id (pretty n) field ".png")
          = store !! (bucket_name, s3_key_of job_id (pretty n) field ".png")) as H1.
  { change store1 with (store1, d1).1. rewrite <- Hfold1.
    apply upload_cutouts_untouched; [| | done].
    - intros k l Hk. apply (Hkeys k l). apply elem_of_app. by left.
    - intros k l Hk. apply (Hart k l). apply elem_of_app. by left. }
  rewrite upload_field_eq.
  rewrite upload_cutouts_untouched; [| | | done].
  - assert (artifacts paths) as Hpaths.
    { apply (Hart (field_key n field)). apply elem_of_app. right. apply list_elem_of_here. }
    rewrite foldl_put_artifacts
      by (intros p [_ Hp]%list_elem_of_filter; by apply Hpaths).
    rewrite split_field_key_field_key. cbn [fst snd].
    rewrite filter_uploaded_artifacts by done.
    destruct (last _); [by rewrite lookup_insert_eq | done].
  - intros k l Hk. apply (Hkeys k l). apply elem_of_app. right.
    by apply list_elem_of_further.
  - intros k l Hk. apply (Hart k l). apply elem_of_app. right.
    by apply list_elem_of_further.
Qed.

(** The list returned for a field key. *)
Lemma upload_cutouts_field_uris cutout_paths store (n : nat) field paths :
  NoDup cutout_paths.*1 →
  artifacts paths →
  (field_key n field, paths) ∈ cutout_paths →
  dict_get (upload_cutouts_to_s3 local_exists client_upload store cutout_paths
              bucket_name job_id).2 (field_key n field)
  = Some (replicate
            (length (filter (sent (s3_key_of job_id (pretty n) field ".png")) paths))
            ("s3://" +:+ bucket_name +:+ "/" +:+ s3_key_of job_id (pretty n) field ".png")).
Proof.
  intros Hnd Hart Hin. unfold upload_cutouts_to_s3.
  rewrite foldl_upload_field_fresh;
    [| done | intros k _ Hk; by apply not_elem_of_nil in Hk].
  rewrite app_nil_l. apply dict_get_Some_elem_of.
  - rewrite <- list_fmap_compose.
    by rewrite (list_fmap_ext _ fst cutout_paths) by (by intros ? []).
  - apply list_elem_of_fmap. exists (field_key n field, paths). split; [| done].
    cbn [fst snd]. f_equal.
    rewrite fmap_uri_artifacts
      by (intros p [_ Hp]%list_elem_of_filter; by apply Hart).
    by rewrite split_field_key_field_key, filter_uploaded_artifacts.
Qed.

(** The loop over the artifacts of one field key, from any state. *)
Lemma upload_field_artifacts store d (n : nat) field paths :
  artifacts paths →
  upload_field local_exists client_upload bucket_name job_id (store, d)
    (field_key n field, paths)
  = (match last (filter (sent (s3_key_of job_id (pretty n) field ".png")) paths) with
     | Some p =>
         <[(bucket_name, s3_key_of job_id (pretty n) field ".png")
           := {| obj_source := p; obj_content_type := "image/png" |}]> store
     | None => store
     end,
     dict_set (field_key n field)
       (replicate
          (length (filter (sent (s3_key_of job_id (pretty n) field ".png")) paths))
          ("s3://" +:+ bucket_name +:+ "/" +:+ s3_key_of job_id (pretty n) field ".png"))
       d).
Proof.
  intros Hart. rewrite upload_field_eq.
  rewrite foldl_put_artifacts, fmap_uri_artifacts
    by (intros p [_ Hp]%list_elem_of_filter; by apply Hart).
  by rewrite split_field_key_field_key, filter_uploaded_artifacts.
Qed.

End storage_keys.

(** C9.  The storage key of an uploaded cutout is
    [contracts/{job_id}/unit_{index}/{fieldName}{ext}]: it is built from
    the job id, the unit index and field name read off the field key, and
    the extension, which is [.png] for every artifact.  For a cutout map as
    [extract_cutouts] builds it (a dictionary, with keys
    [unit{N}_{field}] and artifact paths) and a field key of it with its
    artifacts:
    - every artifact of the field gets that one key;
    - the loop over the artifacts of the field stores each artifact whose
      upload goes through under that key, one over the other, so that
      after it the key holds the last of them;
    - the map that [upload_cutouts_to_s3] returns has, under the field
      key, one and the same URI [s3://{bucket}/{key}] repeated once per
      upload that went through;
    - the bucket that [upload_cutouts_to_s3] leaves holds under the key
      the last artifact of the field whose upload went through, and none
      of the earlier ones (when no upload went through, what was there
      before). *)
Theorem upload_cutouts_same_key
    (local_exists : string → bool)
    (client_upload : string → string → string → string → bool)
    (bucket_name job_id : string)
    (store : gmap (string * string) s3_object)
    (cutout_paths : dict (list string))
    (n : nat) (field : string) (paths : list string) :
  NoDup cutout_paths.*1 →
  (∀ k l, (k, l) ∈ cutout_paths → ∃ m f, k = field_key m f) →
  (∀ k l p, (k, l) ∈ cutout_paths → p ∈ l →
     ∃ dir i f cid pg, p = artifact_path dir i f cid pg) →
  (field_key n field, paths) ∈ cutout_paths →
  s3_key_of job_id (pretty n) field ".png"
  = "contracts/" +:+ job_id +:+ "/unit_" +:+ pretty n +:+ "/" +:+ field +:+ ".png"
  ∧ (∀ p, p ∈ paths →
       s3_key_of job_id (split_field_key (field_key n field)).1
         (split_field_key (field_key n field)).2 (splitext_ext p)
       = s3_key_of job_id (pretty n) field ".png")
  ∧ (∀ st d,
       upload_field local_exists client_upload bucket_name job_id (st, d)
         (field_key n field, paths)
       = (match last (filter (λ p, Is_true (local_exists p
                                && client_upload p bucket_name
                                     (s3_key_of job_id (pretty n) field ".png")
                                     "image/png")) paths) with
          | Some p =>
              <[(bucket_name, s3_key_of job_id (pretty n) field ".png")
                := {| obj_source := p; obj_content_type := "image/png" |}]> st
          | None => st
          end,
          dict_set (field_key n field)
            (replicate
               (length (filter (λ p, Is_true (local_exists p
                                  && client_upload p bucket_name
                                       (s3_key_of job_id (pretty n) field ".png")
                                       "image/png")) paths))
               ("s3://" +:+ bucket_name +:+ "/"
                  +:+ s3_key_of job_id (pretty n) field ".png"))
            d))
  ∧ dict_get (upload_cutouts_to_s3 local_exists client_upload store cutout_paths
                bucket_name job_id).2 (field_key n field)
    = Some (replicate
              (length (filter (λ p, Is_true (local_exists p
                                 && client_upload p bucket_name
                                      (s3_key_of job_id (pretty n) field ".png")
                                      "image/png")) paths))
              ("s3://" +:+ bucket_name +:+ "/"
                 +:+ s3_key_of job_id (pretty n) field ".png"))
  ∧ (upload_cutouts_to_s3 local_exists client_upload store cutout_paths
       bucket_name job_id).1 !! (bucket_name, s3_key_of job_id (pretty n) field ".png")
    = match last (filter (λ p, Is_true (local_exists p
                             && client_upload p bucket_name
                                  (s3_key_of job_id (pretty n) field ".png")
                                  "image/png")) paths) with
      | Some p => Some {| obj_source := p; obj_content_type := "image/png" |}
      | None => store !! (bucket_name, s3_key_of job_id (pretty n) field ".png")
      end.
Proof.
  intros Hnd Hkeys Hart Hin.
  assert (∀ p, p ∈ paths → ∃ dir i f cid pg, p = artifact_path dir i f cid pg) as Hpaths
    by (intros p Hp; by eapply Hart).
  split; [done |]. split; [| split; [| split]].
  - intros p Hp. destruct (Hpaths p Hp) as (dir & i & f & cid & pg & ->).
    by rewrite splitext_ext_artifact_path, split_field_key_field_key.
  - intros st d. by apply upload_field_artifacts.
  - by apply upload_cutouts_field_uris.
  - apply upload_cutouts_field_store; try done.
    intros k l Hk p Hp. by eapply Hart.
Qed.

Lemma upload_cutouts_same_key_witness :
  s3_key_of "job" (pretty 1%nat) "buyerName" ".png"
  = "contracts/" +:+ "job" +:+ "/unit_" +:+ pretty 1%nat +:+ "/" +:+ "buyerName" +:+ ".png"
  ∧ (∀ p, p ∈ [artifact_path "/tmp/output/cutouts" 0 "buyerName" "chunk_001" 1;
               artifact_path "/tmp/output/cutouts" 0 "buyerName" "chunk_002" 1] →
       s3_key_of "job" (split_field_key (field_key 1 "buyerName")).1
         (split_field_key (field_key 1 "buyerName")).2 (splitext_ext p)
       = s3_key_of "job" (pretty 1%nat) "buyerName" ".png")
  ∧ (∀ st d,
       upload_field (λ _, true) (λ _ _ _ _, true) "bucket" "job" (st, d)
         (field_key 1 "buyerName",
          [artifact_path "/tmp/output/cutouts" 0 "buyerName" "chunk_001" 1;
           artifact_path "/tmp/output/cutouts" 0 "buyerName" "chunk_002" 1])
       = (match last (filter (λ p, Is_true ((λ _, true) p
                                && (λ _ _ _ _, true) p "bucket"
                                     (s3_key_of "job" (pretty 1%nat) "buyerName" ".png")
                                     "image/png"))
                        [artifact_path "/tmp/output/cutouts" 0 "buyerName" "chunk_001" 1;
                         artifact_path "/tmp/output/cutouts" 0 "buyerName" "chunk_002" 1]) with
          | Some p =>
              <[("bucket", s3_key_of "job" (pretty 1%nat) "buyerName" ".png")
                := {| obj_source := p; obj_content_type := "image/png" |}]> st
          | None => st
          end,
          dict_set (field_key 1 "buyerName")
            (replicate
               (length (filter (λ p, Is_true ((λ _, true) p
                                  && (λ _ _ _ _, true) p "bucket"
                                       (s3_key_of "job" (pretty 1%nat) "buyerName" ".png")
                                       "image/png"))
                          [artifact_path "/tmp/output/cutouts" 0 "buyerName" "chunk_001" 1;
                           artifact_path "/tmp/output/cutouts" 0 "buyerName" "chunk_002" 1]))
               ("s3://" +:+ "bucket" +:+ "/"
                  +:+ s3_key_of "job" (pretty 1%nat) "buyerName" ".png"))
            d))
  ∧ dict_get (upload_cutouts_to_s3 (λ _, true) (λ _ _ _ _, true) ∅ two_cutouts
                "bucket" "job").2 (field_key 1 "buyerName")
    = Some (replicate
              (length (filter (λ p, Is_true ((λ _, true) p
                                 && (λ _ _ _ _, true) p "bucket"
                                      (s3_key_of "job" (pretty 1%nat) "buyerName" ".png")
                                      "image/png"))
                         [artifact_path "/tmp/output/cutouts" 0 "buyerName" "chunk_001" 1;
                          artifact_path "/tmp/output/cutouts" 0 "buyerName" "chunk_002" 1]))
              ("s3://" +:+ "bucket" +:+ "/"
                 +:+ s3_key_of "job" (pretty 1%nat) "buyerName" ".png"))
  ∧ (upload_cutouts_to_s3 (λ _, true) (λ _ _ _ _, true) ∅ two_cutouts
       "bucket" "job").1 !! ("bucket", s3_key_of "job" (pretty 1%nat) "buyerName" ".png")
    = match last (filter (λ p, Is_true ((λ _, true) p
                             && (λ _ _ _ _, true) p "bucket"
                                  (s3_key_of "job" (pretty 1%nat) "buyerName" ".png")
                                  "image/png"))
                    [artifact_path "/tmp/output/cutouts" 0 "buyerName" "chunk_001" 1;
                     artifact_path "/tmp/output/cutouts" 0 "buyerName" "chunk_002" 1]) with
      | Some p => Some {| obj_source := p; obj_content_type := "image/png" |}
      | None => (∅ : gmap (string * string) s3_object)
                  !! ("bucket", s3_key_of "job" (pretty 1%nat) "buyerName" ".png")
      end.
Proof.
  apply (upload_cutouts_same_key (λ _, true) (λ _ _ _ _, true) "bucket" "job" ∅ two_cutouts
           1 "buyerName"
           [artifact_path "/tmp/output/cutouts" 0 "buyerName" "chunk_001" 1;
            artifact_path "/tmp/output/cutouts" 0 "buyerName" "chunk_002" 1]).
  - apply NoDup_singleton.
  - intros k l Hk. unfold two_cutouts in Hk.
    apply list_elem_of_singleton in Hk. injection Hk as -> ->.
    by exists 1%nat, "buyerName".
  - intros k l p Hk Hp. unfold two_cutouts in Hk.
    apply list_elem_of_singleton in Hk. injection Hk as -> ->.
    apply elem_of_cons in Hp as [-> | Hp]; [by eauto 6 |].
    apply list_elem_of_singleton in Hp as ->. by eauto 6.
  - apply list_elem_of_here.
Defined.

(** ** ChunkModel: the counter and the skipped elements *)

Section chunk_numbering.

Implicit Types (doc : document) (it : doc_item).

Lemma length_pretty_N_go (x : N) (s : string) :
  (String.length s ≤ String.length (pretty_N_go x s))%nat.
Proof.
  revert s. induction (N.lt_wf_0 x) as [x _ IH]; intros s.
  destruct (decide (x = 0)%N) as [-> | Hx].
  - by rewrite pretty_N_go_0.
  - rewrite pretty_N_go_step by lia.
    etrans; [| apply IH; apply N.div_lt; lia]. simpl. lia.
Qed.

Lemma length_pretty_nat_large (i : nat) :
  (100 ≤ i)%nat → (3 ≤ String.length (pretty i))%nat.
Proof.
  intros Hi. unfold pretty, pretty_nat, pretty, pretty_N.
  case_decide as Hn; [lia |].
  set (x := N.of_nat i) in *.
  assert (100 ≤ x)%N as Hx by lia.
  assert (10 ≤ x `div` 10)%N as Hx1.
  { change 10%N with (100 `div` 10)%N at 1. by apply N.Div0.div_le_mono. }
  assert (1 ≤ (x `div` 10) `div` 10)%N as Hx2.
  { change 1%N with (10 `div` 10)%N at 1. by apply N.Div0.div_le_mono. }
  rewrite pretty_N_go_step by lia.
  rewrite pretty_N_go_step by lia.
  rewrite pretty_N_go_step by lia.
  etrans; [| apply length_pretty_N_go]. simpl. lia.
Qed.

Lemma zero_pad_padded_counter (i : nat) : zero_pad 3 (pretty i) = padded_counter i.
Proof.
  destruct (decide (i < 100)%nat) as [Hlt | Hge].
  - do 100 (destruct i as [| i]; [vm_compute; reflexivity |]). lia.
  - unfold padded_counter, zero_pad.
    rewrite (proj2 (Nat.ltb_ge i 10)), (proj2 (Nat.ltb_ge i 100)) by lia.
    pose proof (length_pretty_nat_large i) as Hlen.
    by replace (3 - String.length (pretty i))%nat with O by lia.
Qed.

Lemma chunk_label_padded (i : nat) : chunk_label i = "chunk_" +:+ padded_counter i.
Proof. unfold chunk_label. by rewrite zero_pad_padded_counter. Qed.

Lemma length_number_chunks (n : nat) (es : list (string → chunk)) :
  length (number_chunks n es) = length es.
Proof. unfold number_chunks. by rewrite length_imap. Qed.

Lemma table_chunks_emitted doc :
  table_chunks doc = number_chunks 0 (omap table_emitter (doc_tables doc)).
Proof.
  unfold table_chunks. rewrite parse_pdf_to_chunks_emitted. unfold emitted. simpl.
  by rewrite app_nil_r.
Qed.

Lemma parse_pdf_to_chunks_split doc :
  parse_pdf_to_chunks doc
  = table_chunks doc
      ++ number_chunks (length (table_chunks doc)) (omap text_emitter (doc_items doc)).
Proof.
  rewrite table_chunks_emitted, parse_pdf_to_chunks_emitted. unfold emitted.
  by rewrite number_chunks_app, length_number_chunks.
Qed.

Lemma text_emitter_skipped it : skipped_text it → text_emitter it = None.
Proof.
  unfold skipped_text, text_emitter. intros [Hp | Ht].
  - rewrite Hp. by destruct (item_text it).
  - destruct (item_text it) as [s |]; [| done].
    apply py_strip_empty_iff in Ht. rewrite Ht.
    by destruct (item_prov it).
Qed.

Lemma text_emitter_kept it (s : string) (p : prov_item) (ps : list prov_item) :
  item_text it = Some s → ¬ whitespace_only s → item_prov it = p :: ps →
  text_emitter it = Some (text_chunk it s p).
Proof.
  unfold text_emitter. intros -> Hs ->.
  rewrite bool_decide_eq_false_2; [done |]. by rewrite py_strip_empty_iff.
Qed.

Lemma text_emitter_Some it (mk : string → chunk) :
  text_emitter it = Some mk →
  ∃ s p ps, item_text it = Some s ∧ ¬ whitespace_only s ∧ item_prov it = p :: ps
            ∧ mk = text_chunk it s p.
Proof.
  unfold text_emitter.
  destruct (item_text it) as [s |]; [| done].
  destruct (item_prov it) as [| p ps]; [done |].
  case_bool_decide as Hs; [done |]. intros [= <-].
  exists s, p, ps. by rewrite <- py_strip_empty_iff.
Qed.

Lemma page_no_round_trip (z : Z) : Some (z - 1 + 1)%Z = Some z.
Proof. f_equal. lia. Qed.

Lemma parse_pdf_to_chunks_snoc_table (ts : list table_item) (t : table_item) :
  parse_pdf_to_chunks {| doc_tables := ts ++ [t]; doc_items := [] |}
  = parse_pdf_to_chunks {| doc_tables := ts; doc_items := [] |}
      ++ match table_emitter t with
         | Some mk =>
             [mk (chunk_label
                    (length (parse_pdf_to_chunks {| doc_tables := ts; doc_items := [] |})))]
         | None => []
         end.
Proof.
  rewrite !parse_pdf_to_chunks_emitted, length_number_chunks. unfold emitted. simpl.
  rewrite !app_nil_r, omap_app, number_chunks_app. f_equal.
  change (omap table_emitter [t])
    with (match table_emitter t with Some y => [y] | None => [] end).
  destruct (table_emitter t); [| done].
  by rewrite number_chunks_cons.
Qed.

Lemma parse_pdf_to_chunks_snoc_item (ts : list table_item) (its : list doc_item) it :
  parse_pdf_to_chunks {| doc_tables := ts; doc_items := its ++ [it] |}
  = parse_pdf_to_chunks {| doc_tables := ts; doc_items := its |}
      ++ match text_emitter it with
         | Some mk =>
             [mk (chunk_label
                    (length (parse_pdf_to_chunks {| doc_tables := ts; doc_items := its |})))]
         | None => []
         end.
Proof.
  rewrite !parse_pdf_to_chunks_emitted, length_number_chunks. unfold emitted. simpl.
  rewrite omap_app, app_assoc, number_chunks_app. f_equal.
  change (omap text_emitter [it])
    with (match text_emitter it with Some y => [y] | None => [] end).
  destruct (text_emitter it); [| done].
  by rewrite number_chunks_cons.
Qed.

Lemma parse_pdf_to_chunks_skip (ts : list table_item) (its1 its2 : list doc_item) it :
  skipped_text it →
  parse_pdf_to_chunks {| doc_tables := ts; doc_items := its1 ++ it :: its2 |}
  = parse_pdf_to_chunks {| doc_tables := ts; doc_items := its1 ++ its2 |}.
Proof.
  intros Hskip%text_emitter_skipped.
  rewrite !parse_pdf_to_chunks_emitted. unfold emitted. simpl.
  do 2 f_equal. rewrite !omap_app. f_equal.
  change (omap text_emitter (it :: its2))
    with (match text_emitter it with
          | Some y => y :: omap text_emitter its2
          | None => omap text_emitter its2
          end).
  by rewrite Hskip.
Qed.

End chunk_numbering.

(** C8.  For every document:
    - the chunk at position [i] of the list has the identifier [chunk_]
      followed by [i] written with at least three digits (zeros on the
      left), so the identifiers are pairwise distinct and dense;
    - the list starts with the chunks of the tables and goes on with those
      of the text elements: below the number of table chunks a chunk holds
      the markdown, page and bbox of a table, from there on the text, page
      and bbox of a text element;
    - both runs are in document order: a further table with provenance, or
      a further text element with provenance whose text is not
      whitespace-only, adds one chunk at the end, with the next counter
      value, and a table without provenance adds none;
    - a text element without text, with empty or whitespace-only text, or
      without provenance, wherever it stands, leaves the list as it is
      without it: it is skipped and takes no counter value. *)
Theorem parse_pdf_to_chunks_sequential_ids (doc : document) :
  (∀ (i : nat) (c : chunk),
      parse_pdf_to_chunks doc !! i = Some c →
      chunk_id c = "chunk_" +:+ padded_counter i)
  ∧ NoDup (chunk_id <$> parse_pdf_to_chunks doc)
  ∧ (∀ (i : nat) (c : chunk),
        parse_pdf_to_chunks doc !! i = Some c →
        if (i <? length (table_chunks doc))%nat
        then table_chunks doc !! i = Some c
             ∧ ∃ t p ps, t ∈ doc_tables doc ∧ table_prov t = p :: ps
                         ∧ text c = table_markdown t
                         ∧ page c = Some (page_no p) ∧ bbox c = prov_bbox p
                         ∧ element_type c = Some "table"
        else ∃ it p ps, it ∈ doc_items doc ∧ item_prov it = p :: ps
                        ∧ item_text it = Some (text c) ∧ ¬ whitespace_only (text c)
                        ∧ page c = Some (page_no p) ∧ bbox c = prov_bbox p
                        ∧ element_type c = item_label it)
  ∧ (∀ (ts : list table_item) (t : table_item),
        let before := parse_pdf_to_chunks {| doc_tables := ts; doc_items := [] |} in
        parse_pdf_to_chunks {| doc_tables := ts ++ [t]; doc_items := [] |}
        = before
            ++ match table_prov t with
               | p :: _ =>
                   [ {| chunk_id := "chunk_" +:+ padded_counter (length before);
                        text := table_markdown t;
                        page := Some (page_no p);
                        bbox := prov_bbox p;
                        element_type := Some "table" |} ]
               | [] => []
               end)
  ∧ (∀ (its : list doc_item) (it : doc_item) (s : string) (p : prov_item)
       (ps : list prov_item),
        item_text it = Some s → ¬ whitespace_only s → item_prov it = p :: ps →
        let before := parse_pdf_to_chunks {| doc_tables := doc_tables doc; doc_items := its |} in
        parse_pdf_to_chunks {| doc_tables := doc_tables doc; doc_items := its ++ [it] |}
        = before
            ++ [ {| chunk_id := "chunk_" +:+ padded_counter (length before);
                    text := s;
                    page := Some (page_no p);
                    bbox := prov_bbox p;
                    element_type := item_label it |} ])
  ∧ (∀ (its1 its2 : list doc_item) (it : doc_item),
        skipped_text it →
        parse_pdf_to_chunks
          {| doc_tables := doc_tables doc; doc_items := its1 ++ it :: its2 |}
        = parse_pdf_to_chunks
            {| doc_tables := doc_tables doc; doc_items := its1 ++ its2 |}).
Proof.
  pose proof (parse_pdf_to_chunks_ids doc) as Hids.
  assert (∀ (i : nat) (c : chunk),
             parse_pdf_to_chunks doc !! i = Some c → chunk_id c = chunk_label i) as Hid.
  { intros i c Hc.
    assert ((chunk_id <$> parse_pdf_to_chunks doc) !! i = Some (chunk_id c)) as Hi
      by (by rewrite list_lookup_fmap, Hc).
    rewrite Hids, list_lookup_fmap in Hi.
    destruct (seq 0 (length (emitted doc)) !! i) as [j |] eqn:Hj; [| done].
    apply lookup_seq in Hj as [-> _]. by simplify_eq/=. }
  split; [| split; [| split; [| split; [| split]]]].
  - intros i c Hc. rewrite <- chunk_label_padded. by apply Hid.
  - rewrite Hids. apply NoDup_fmap_2_strong; [| apply NoDup_seq].
    intros m n _ _. apply chunk_label_inj.
  - intros i c Hc. pose proof (Hid i c Hc) as Hci.
    rewrite parse_pdf_to_chunks_split in Hc.
    destruct (i <? length (table_chunks doc))%nat eqn:Hlt.
    + apply Nat.ltb_lt in Hlt. rewrite lookup_app_l in Hc by done.
      split; [done |].
      rewrite table_chunks_emitted in Hc. unfold number_chunks in Hc.
      rewrite list_lookup_imap in Hc.
      destruct (omap table_emitter (doc_tables doc) !! i) as [mk |] eqn:Hmk; [| done].
      apply list_elem_of_lookup_2, list_elem_of_omap in Hmk as (t & Hin & Ht).
      unfold table_emitter in Ht.
      destruct (table_prov t) as [| p ps] eqn:Hp; simplify_eq/=.
      exists t, p, ps. by rewrite page_no_round_trip.
    + apply Nat.ltb_ge in Hlt. rewrite lookup_app_r in Hc by done.
      unfold number_chunks in Hc. rewrite list_lookup_imap in Hc.
      destruct (omap text_emitter (doc_items doc) !! _) as [mk |] eqn:Hmk; [| done].
      apply list_elem_of_lookup_2, list_elem_of_omap in Hmk as (it & Hin & Hit).
      apply text_emitter_Some in Hit as (s & p & ps & Hs & Hws & Hp & ->).
      simplify_eq/=. exists it, p, ps. by rewrite page_no_round_trip.
  - intros ts t before. unfold before.
    rewrite parse_pdf_to_chunks_snoc_table. f_equal.
    unfold table_emitter. destruct (table_prov t) as [| p ps]; [done |].
    unfold table_chunk. by rewrite chunk_label_padded, page_no_round_trip.
  - intros its it s p ps Hs Hws Hp before. unfold before.
    rewrite parse_pdf_to_chunks_snoc_item, (text_emitter_kept it s p ps) by done.
    unfold text_chunk. by rewrite chunk_label_padded, page_no_round_trip.
  - intros its1 its2 it Hskip. by apply parse_pdf_to_chunks_skip.
Qed.

(** ** Worked examples *)

Section examples.

Example chunk_label_examples :
  chunk_label 0 = "chunk_000" ∧ chunk_label 12 = "chunk_012"
  ∧ chunk_label 999 = "chunk_999" ∧ chunk_label 1234 = "chunk_1234".
Proof. repeat split; reflexivity. Qed.

(** Skipped elements take no number: the table without provenance, the
    blank paragraph, the paragraph without provenance and the element
    without text leave no gap in the identifiers. *)
Example parse_sample_document :
  (λ c, (chunk_id c, text c, element_type c)) <$> parse_pdf_to_chunks sample_document
  = [("chunk_000", "| parcela | valor |", Some "table");
     ("chunk_001", "CONTRATO", Some "section_header");
     ("chunk_002", "Compradora: Ana", Some "paragraph")].
Proof. reflexivity. Qed.

Example splitext_examples :
  splitext_ext "/tmp/output/cutouts/unit1_buyerName_chunk_001_page1.png" = ".png"
  ∧ splitext_ext "archive.tar.gz" = ".gz"
  ∧ splitext_ext "/tmp/out.d/file" = ""
  ∧ splitext_ext "/home/user/.bashrc" = ""
  ∧ splitext_ext "photo.JPG" = ".JPG"
  ∧ content_type_of ".JPG" = "image/jpeg".
Proof. repeat split; reflexivity. Qed.

Example split_field_key_examples :
  split_field_key "unit1_buyerName" = ("1", "buyerName")
  ∧ split_field_key "unit12_sell_value" = ("12", "sell_value")
  ∧ split_field_key "buyerName" = ("0", "buyerName").
Proof. repeat split; reflexivity. Qed.

(** Two artifacts of one field are uploaded to one key: the bucket ends
    with a single object, the second artifact, and the field's URI list
    holds the same URI twice. *)
Example upload_two_cutouts :
  upload_cutouts_to_s3 (λ _, true) (λ _ _ _ _, true) ∅ two_cutouts "bucket" "job"
  = ({[("bucket", "contracts/job/unit_1/buyerName.png")
       := {| obj_source := "/tmp/output/cutouts/unit1_buyerName_chunk_002_page1.png";
             obj_content_type := "image/png" |}]},
     [("unit1_buyerName",
       ["s3://bucket/contracts/job/unit_1/buyerName.png";
        "s3://bucket/contracts/job/unit_1/buyerName.png"])]).
Proof. vm_compute. reflexivity. Qed.

(** The combining loop merges unit 0 in place and appends unit 1. *)
Example combine_two_installment_units :
  eu_sources <$> combine_results [contract_unit_ana] [installment_unit_64; installment_unit_65]
  = [[{| src_field := "buyerName"; src_chunk_id := "chunk_001" |};
      {| src_field := "installmentPlans"; src_chunk_id := "chunk_002" |}];
     [{| src_field := "installmentPlans"; src_chunk_id := "chunk_004" |}]].
Proof. reflexivity. Qed.

Example parse_bbox_decimal_numerals :
  _parse_bbox (VStr (bbox_string "72.5" "-1e1" "300" "650.25"))
  = Ok (Some [72.5; -10; 300; 650.25]%Q)
  ∧ _parse_bbox (VStr ("72.5" +:+ ", " +:+ "-1e1" +:+ ", " +:+ "300" +:+ ", " +:+ "650.25"))
    = Ok (Some [72.5; -10; 300; 650.25]%Q)
  ∧ _parse_bbox (VList [VFloat 72.5; VFloat (-10); VFloat 300; VFloat 650.25])
    = Ok (Some [72.5; -10; 300; 650.25]%Q)
  ∧ _parse_bbox (VTuple [VFloat 72.5; VFloat (-10); VFloat 300; VFloat 650.25])
    = Ok (Some [72.5; -10; 300; 650.25]%Q).
Proof.
  apply (parse_bbox_string_as_list "72.5" "-1e1" "300" "650.25");
    split; vm_compute; reflexivity.
Qed.

End examples.

(** * Further properties of the code *)

(** ** [parse_pdf_to_chunks]: what a chunk carries *)

Section chunk_contents.

Implicit Types (doc : document) (c : chunk).

Lemma elem_of_number_chunks (start : nat) (es : list (string → chunk)) c :
  c ∈ number_chunks start es →
  ∃ i mk, es !! i = Some mk ∧ c = mk (chunk_label (start + i)).
Proof.
  unfold number_chunks. intros (i & mk & -> & Hi)%elem_of_lookup_imap. eauto.
Qed.

Lemma elem_of_parse_pdf_to_chunks doc c :
  c ∈ parse_pdf_to_chunks doc →
  ∃ i mk, mk ∈ emitted doc ∧ c = mk (chunk_label i).
Proof.
  rewrite parse_pdf_to_chunks_emitted.
  intros (i & mk & Hi & ->)%elem_of_number_chunks.
  exists (0 + i)%nat, mk. split; [by eapply list_elem_of_lookup_2 | done].
Qed.

Lemma parse_bbox_prov_bbox (p : prov_item) :
  _parse_bbox (prov_bbox p) = Ok (Some [prov_l p; prov_t p; prov_r p; prov_b p])
  ∧ truthy (prov_bbox p) = true.
Proof. done. Qed.

End chunk_contents.

(** X1.  Every chunk that [parse_pdf_to_chunks] emits carries the location
    of the first provenance entry of the element it comes from.  That
    element is a table of the document (the chunk holds its markdown) or a
    text element of the document (the chunk holds its text and label); with
    [p] the first entry of its provenance list, the chunk's page is the page
    number of [p], its bbox is the 4-tuple (l, t, r, b) of [p], and
    [_parse_bbox] accepts this bbox and returns these four coordinates. *)
Theorem parse_pdf_to_chunks_location (doc : document) :
  Forall (λ c, ∃ (p : prov_item) (ps : list prov_item),
            ((∃ t, t ∈ doc_tables doc ∧ table_prov t = p :: ps
                   ∧ text c = table_markdown t ∧ element_type c = Some "table")
             ∨ (∃ it, it ∈ doc_items doc ∧ item_prov it = p :: ps
                      ∧ item_text it = Some (text c)
                      ∧ element_type c = item_label it))
            ∧ page c = Some (page_no p)
            ∧ bbox c = VTuple [VFloat (prov_l p); VFloat (prov_t p);
                               VFloat (prov_r p); VFloat (prov_b p)]
            ∧ truthy (bbox c) = true
            ∧ _parse_bbox (bbox c)
              = Ok (Some [prov_l p; prov_t p; prov_r p; prov_b p]))
         (parse_pdf_to_chunks doc).
Proof.
  apply Forall_forall. intros c (i & mk & Hmk & ->)%elem_of_parse_pdf_to_chunks.
  unfold emitted in Hmk. rewrite elem_of_app, !list_elem_of_omap in Hmk.
  assert (∀ z : Z, Some (z - 1 + 1) = Some z) as Hz by (intros; f_equal; lia).
  destruct Hmk as [(t & Hin & Ht) | (it & Hin & Hit)].
  - unfold table_emitter in Ht.
    destruct (table_prov t) as [| p ps] eqn:Hp; simplify_eq.
    exists p, ps. simpl. rewrite Hz. split; [| done].
    left. by exists t.
  - unfold text_emitter in Hit.
    destruct (item_text it) as [txt |] eqn:Htxt; [| done].
    destruct (item_prov it) as [| p ps] eqn:Hp; [done |].
    case_bool_decide; simplify_eq. exists p, ps. simpl. rewrite Hz.
    split; [| done]. right. by exists it.
Qed.

(** X2.  Every chunk comes from an element of the document: either from a
    table with provenance, with the table's markdown as text and the type
    [table], or from a text element with provenance whose text is not
    blank, with that text and that element's label.  No chunk with blank
    text is ever produced from a text element. *)
Theorem parse_pdf_to_chunks_origin (doc : document) :
  Forall (λ c,
            (∃ t, t ∈ doc_tables doc ∧ table_prov t ≠ []
                  ∧ text c = table_markdown t ∧ element_type c = Some "table")
            ∨ (∃ it, it ∈ doc_items doc ∧ item_prov it ≠ []
                     ∧ item_text it = Some (text c)
                     ∧ py_strip (text c) ≠ "" ∧ text c ≠ ""
                     ∧ element_type c = item_label it))
         (parse_pdf_to_chunks doc).
Proof.
  apply Forall_forall. intros c (i & mk & Hmk & ->)%elem_of_parse_pdf_to_chunks.
  unfold emitted in Hmk. rewrite elem_of_app, !list_elem_of_omap in Hmk.
  destruct Hmk as [(t & Hin & Ht) | (it & Hin & Hit)].
  - left. unfold table_emitter in Ht.
    destruct (table_prov t) as [| p ps] eqn:Hp; simplify_eq.
    exists t. by rewrite Hp.
  - right. unfold text_emitter in Hit.
    destruct (item_text it) as [txt |] eqn:Htxt; [| done].
    destruct (item_prov it) as [| p ps] eqn:Hp; [done |].
    case_bool_decide as Hblank; simplify_eq.
    exists it. rewrite Hp. simpl. repeat split; try done.
    intros ->. by apply Hblank.
Qed.

(** X3.  Chunk ids are positions in the emission order.  Appending text
    elements at the end of the reading order leaves every chunk already
    emitted as it is (the new chunk list extends the old one); adding a
    table with provenance moves every text chunk one position up, so each
    of them gets the next id. *)
Theorem parse_pdf_to_chunks_positional (doc : document) (more : list doc_item)
    (t : table_item) :
  parse_pdf_to_chunks {| doc_tables := doc_tables doc; doc_items := doc_items doc ++ more |}
  = parse_pdf_to_chunks doc
      ++ number_chunks (length (parse_pdf_to_chunks doc)) (omap text_emitter more)
  ∧ (table_prov t ≠ [] →
     ∀ (j : nat) (mk : string → chunk),
       omap text_emitter (doc_items doc) !! j = Some mk →
       let n := length (omap table_emitter (doc_tables doc)) in
       parse_pdf_to_chunks doc !! (n + j)%nat = Some (mk (chunk_label (n + j)))
       ∧ parse_pdf_to_chunks
           {| doc_tables := doc_tables doc ++ [t]; doc_items := doc_items doc |}
           !! (S n + j)%nat
         = Some (mk (chunk_label (S n + j)))
       ∧ chunk_label (n + j) ≠ chunk_label (S n + j)).
Proof.
  split.
  - rewrite !parse_pdf_to_chunks_emitted. unfold emitted. simpl.
    rewrite omap_app, app_assoc, number_chunks_app. simpl.
    f_equal. f_equal. unfold number_chunks. by rewrite length_imap.
  - intros Hprov j mk Hj n.
    assert (∃ mk_t, omap table_emitter [t] = [mk_t]) as [mk_t Ht].
    { change (omap table_emitter [t])
        with (match table_emitter t with Some y => [y] | None => [] end).
      unfold table_emitter. destruct (table_prov t) as [| p ps]; [done |]. by eexists. }
    rewrite !parse_pdf_to_chunks_emitted. unfold emitted, number_chunks.
    cbn [doc_tables doc_items].
    rewrite !list_lookup_imap, omap_app, Ht.
    split; [| split].
    + rewrite lookup_app_r by (unfold n; lia).
      replace (n + j - length (omap table_emitter (doc_tables doc)))%nat with j
        by (unfold n; lia).
      by rewrite Hj.
    + rewrite <- app_assoc, lookup_app_r by (unfold n; lia).
      replace (S n + j - length (omap table_emitter (doc_tables doc)))%nat with (S j)
        by (unfold n; lia).
      simpl. by rewrite Hj.
    + intros Heq%chunk_label_inj. lia.
Qed.

(** ** [_parse_bbox]: outcomes *)

Section parse_bbox_outcomes.

Lemma map_result_Ok_length {A B} (f : A → result B) (l : list A) (ys : list B) :
  map_result f l = Ok ys → length ys = length l.
Proof.
  revert ys. induction l as [| x l IH]; intros ys; simpl.
  - by intros [= <-].
  - destruct (f x) as [y |]; simpl; [| done].
    destruct (map_result f l) as [ys' |]; simpl; [| done].
    intros [= <-]. simpl. f_equal. by apply IH.
Qed.

(** A comprehension raises exactly when some element raises and all the
    elements before it convert. *)
Lemma map_result_Raise {A B} (f : A → result B) (l : list A) (e : exn) :
  map_result f l = Raise e ↔
  ∃ pre x post, l = pre ++ x :: post
                ∧ Forall (λ y, ∃ b, f y = Ok b) pre ∧ f x = Raise e.
Proof.
  split.
  - induction l as [| x l IH]; simpl; [done |].
    destruct (f x) as [b |] eqn:Hx; simpl.
    + destruct (map_result f l) as [ys |]; simpl; [done |].
      intros [= ->]. destruct (IH eq_refl) as (pre & y & post & -> & Hpre & Hy).
      exists (x :: pre), y, post. split; [done |]. split; [| done].
      constructor; [by eexists | done].
    + intros [= ->]. exists [], x, l. by repeat split.
  - intros (pre & x & post & -> & Hpre & Hx).
    induction Hpre as [| z pre [b Hz] _ IH]; simpl.
    + by rewrite Hx.
    + by rewrite Hz, IH.
Qed.

Lemma py_float_Raise (x : value) (e : exn) :
  py_float x = Raise e →
  float_escapes x e ∨ (e = ValueError ∧ ∃ s, x = VStr s).
Proof.
  unfold float_escapes.
  destruct x as [| b | z | q | s | l | l | d]; simpl; try done;
    try (intros [= <-]; left; by left).
  - destruct (Z.abs z <? float_int_bound)%Z eqn:Hz; [done |].
    intros [= <-]. left. right. split; [done |]. by apply Z.ltb_ge.
  - destruct (float_of_string s); [done |]. intros [= <-]. right. eauto.
Qed.

Lemma py_float_escapes (x : value) (e : exn) :
  float_escapes x e → py_float x = Raise e.
Proof.
  intros [[-> Hx] | [-> Hx]]; destruct x; try done.
  simpl in *. by rewrite (proj2 (Z.ltb_ge _ _) Hx).
Qed.

Lemma float_escapes_kind (x : value) (e : exn) :
  float_escapes x e → e = TypeError ∨ e = OverflowError.
Proof. intros [[-> _] | [-> _]]; auto. Qed.

Lemma py_float_type_error (x : value) :
  float_type_error x ↔ py_float x = Raise TypeError.
Proof.
  split; [by destruct x |].
  intros [[[_ ?] | [? _]] | [? _]]%py_float_Raise; done.
Qed.

(** In a list or tuple of four values, the outcome of the conversions. *)
Lemma parse_bbox_sequence (l : list value) :
  length l = 4%nat →
  _parse_bbox (VList l) = except_value_attribute (coords ← map_result py_float l; Ok (Some coords))
  ∧ _parse_bbox (VTuple l) = _parse_bbox (VList l).
Proof. intros Hl. unfold _parse_bbox. by rewrite Hl. Qed.

End parse_bbox_outcomes.

(** X4.  Whenever [_parse_bbox] returns coordinates, there are exactly
    four of them, and the input was a list or tuple of four elements or a
    string. *)
Theorem parse_bbox_four_coordinates (v : value) :
  match _parse_bbox v with
  | Ok (Some coords) =>
      length coords = 4%nat
      ∧ match v with
        | VList l | VTuple l => length l = 4%nat
        | VStr _ => True
        | _ => False
        end
  | _ => True
  end.
Proof.
  unfold _parse_bbox.
  destruct v as [| | | | s | l | l |]; simpl; try done.
  - destruct (map_result _ _) as [coords | e] eqn:Hmap; simpl; [| by destruct e].
    destruct (length coords =? 4)%nat eqn:Hlen; simpl; [| done].
    by apply Nat.eqb_eq in Hlen.
  - destruct (length l =? 4)%nat eqn:Hlen; simpl; [| done].
    apply Nat.eqb_eq in Hlen.
    destruct (map_result py_float l) as [coords | e] eqn:Hmap; simpl; [| by destruct e].
    apply map_result_Ok_length in Hmap. by rewrite Hmap.
  - destruct (length l =? 4)%nat eqn:Hlen; simpl; [| done].
    apply Nat.eqb_eq in Hlen.
    destruct (map_result py_float l) as [coords | e] eqn:Hmap; simpl; [| by destruct e].
    apply map_result_Ok_length in Hmap. by rewrite Hmap.
Qed.

(** X5.  The exceptions that escape [_parse_bbox].  When it raises, its
    argument is a list or tuple of four elements, and the exception comes
    from the first element that is a null, a list, a tuple or a dictionary
    ([TypeError]) or an integer too large for a double ([OverflowError]).
    Conversely such an element makes it raise as soon as [float] converts
    the elements before it.  In particular no string, no sequence of
    another length and no sequence of numbers in range, booleans and
    strings makes it raise. *)
Theorem parse_bbox_escaping_exceptions (v : value) (e : exn) :
  (_parse_bbox v = Raise e →
   ∃ l pre x post,
     (v = VList l ∨ v = VTuple l)
     ∧ length l = 4%nat
     ∧ l = pre ++ x :: post
     ∧ Forall (λ y, ¬ float_type_error y ∧ ¬ float_overflow y) pre
     ∧ ((e = TypeError ∧ float_type_error x) ∨ (e = OverflowError ∧ float_overflow x)))
  ∧ (∀ l pre x post,
       v = VList l ∨ v = VTuple l →
       length l = 4%nat →
       l = pre ++ x :: post →
       Forall (λ y, ∃ q, py_float y = Ok q) pre →
       (e = TypeError ∧ float_type_error x) ∨ (e = OverflowError ∧ float_overflow x) →
       _parse_bbox v = Raise e)
  ∧ (∀ l, v = VList l ∨ v = VTuple l →
       Forall (λ y, ¬ float_type_error y ∧ ¬ float_overflow y) l →
       ∀ e', _parse_bbox v ≠ Raise e').
Proof.
  assert (∀ y q, py_float y = Ok q → ¬ float_type_error y ∧ ¬ float_overflow y) as Hconv.
  { intros y q Hy. split; intros Hbad.
    - by rewrite (py_float_escapes y TypeError) in Hy by (by left).
    - by rewrite (py_float_escapes y OverflowError) in Hy by (by right). }
  assert (∀ l e', length l = 4%nat →
            (except_value_attribute (coords ← map_result py_float l; Ok (Some coords))
             = Raise e' ↔
             ∃ pre x post, l = pre ++ x :: post
                 ∧ Forall (λ y, ∃ q, py_float y = Ok q) pre ∧ float_escapes x e'))
    as Hseq.
  { intros l e' Hl. split.
    - destruct (map_result py_float l) as [coords | e''] eqn:Hmap; simpl; [done |].
      apply map_result_Raise in Hmap as (pre & x & post & -> & Hpre & Hx).
      destruct (py_float_Raise _ _ Hx) as [Hesc | [-> _]]; [| done].
      destruct (float_escapes_kind _ _ Hesc) as [-> | ->];
        intros [= <-]; by exists pre, x, post.
    - intros (pre & x & post & -> & Hpre & Hesc).
      assert (map_result py_float (pre ++ x :: post) = Raise e') as ->
        by (apply map_result_Raise; exists pre, x, post; by auto using py_float_escapes).
      by destruct (float_escapes_kind _ _ Hesc) as [-> | ->]. }
  assert (∀ e', _parse_bbox v = Raise e' →
            ∃ l pre x post,
              (v = VList l ∨ v = VTuple l) ∧ length l = 4%nat ∧ l = pre ++ x :: post
              ∧ Forall (λ y, ∃ q, py_float y = Ok q) pre ∧ float_escapes x e') as Hraise.
  { intros e'. destruct v as [| | | | s | l | l |]; try done.
    + unfold _parse_bbox.
      destruct (map_result _ _) as [coords | e''] eqn:Hmap; simpl.
      * by destruct (length coords =? 4)%nat.
      * apply map_result_Raise in Hmap as (pre & x & post & _ & _ & Hx).
        apply py_float_Raise in Hx as [[[_ Hty] | [_ Hov]] | [-> _]]; done.
    + destruct (decide (length l = 4%nat)) as [Hl | Hl].
      * destruct (parse_bbox_sequence l Hl) as [-> _].
        intros (pre & x & post & Heq & Hpre & Hx)%Hseq; [| done].
        exists l, pre, x, post. repeat split; auto.
      * unfold _parse_bbox. by rewrite (proj2 (Nat.eqb_neq _ _) Hl).
    + destruct (decide (length l = 4%nat)) as [Hl | Hl].
      * destruct (parse_bbox_sequence l Hl) as [Hlist ->]. rewrite Hlist.
        intros (pre & x & post & Heq & Hpre & Hx)%Hseq; [| done].
        exists l, pre, x, post. repeat split; auto.
      * unfold _parse_bbox. by rewrite (proj2 (Nat.eqb_neq _ _) Hl). }
  split; [| split].
  - intros (l & pre & x & post & Hv & Hl & Heq & Hpre & Hx)%Hraise.
    exists l, pre, x, post. repeat split; try done.
    eapply Forall_impl; [exact Hpre |]. intros y [q Hy]. by eapply Hconv.
  - intros l pre x post Hv Hl Heq Hpre Hx.
    destruct (parse_bbox_sequence l Hl) as [Hlist Htuple].
    assert (_parse_bbox (VList l) = Raise e) as Hr.
    { rewrite Hlist. apply Hseq; [done |]. by exists pre, x, post. }
    destruct Hv as [-> | ->]; [done | by rewrite Htuple].
  - intros l Hv Hall e' (l' & pre & x & post & Hv' & _ & Heq & _ & Hx)%Hraise.
    assert (l' = l) as -> by (destruct Hv as [-> | ->], Hv' as [? | ?]; congruence).
    rewrite Heq in Hall. apply Forall_app in Hall as [_ Hall].
    apply Forall_cons in Hall as [[Hty Hov] _].
    destruct Hx as [[_ ?] | [_ ?]]; done.
Qed.

(** X6.  A bbox written as four numerals separated by a comma and a blank,
    with or without the surrounding parentheses, parses to the same four
    numbers as the list and the tuple of these numbers. *)
Theorem parse_bbox_string_list_agree (s1 s2 s3 s4 : string) (q1 q2 q3 q4 : Q) :
  numeral_of s1 q1 → numeral_of s2 q2 → numeral_of s3 q3 → numeral_of s4 q4 →
  _parse_bbox (VStr (bbox_string s1 s2 s3 s4)) = Ok (Some [q1; q2; q3; q4])
  ∧ _parse_bbox (VStr (s1 +:+ ", " +:+ s2 +:+ ", " +:+ s3 +:+ ", " +:+ s4))
    = Ok (Some [q1; q2; q3; q4])
  ∧ _parse_bbox (VList [VFloat q1; VFloat q2; VFloat q3; VFloat q4])
    = Ok (Some [q1; q2; q3; q4])
  ∧ _parse_bbox (VTuple [VFloat q1; VFloat q2; VFloat q3; VFloat q4])
    = Ok (Some [q1; q2; q3; q4]).
Proof. apply parse_bbox_string_as_list. Qed.

Lemma parse_bbox_string_list_agree_witness :
  _parse_bbox (VStr (bbox_string "72.5" "700" "3e2" "650.25"))
  = Ok (Some [72.5; 700; 300; 650.25]%Q)
  ∧ _parse_bbox (VStr ("72.5" +:+ ", " +:+ "700" +:+ ", " +:+ "3e2" +:+ ", " +:+ "650.25"))
    = Ok (Some [72.5; 700; 300; 650.25]%Q)
  ∧ _parse_bbox (VList [VFloat 72.5; VFloat 700; VFloat 300; VFloat 650.25])
    = Ok (Some [72.5; 700; 300; 650.25]%Q)
  ∧ _parse_bbox (VTuple [VFloat 72.5; VFloat 700; VFloat 300; VFloat 650.25])
    = Ok (Some [72.5; 700; 300; 650.25]%Q).
Proof.
  apply (parse_bbox_string_list_agree "72.5" "700" "3e2" "650.25");
    split; vm_compute; reflexivity.
Defined.

(** ** [_extract_single_cutout]: failures, padding, coverage *)

Section cutout_region.

Lemma resolve_region_None (doc : list page_rect) (page_num : Z) (bbox : list Q)
    (padding : Z) :
  resolve_region doc page_num bbox padding = None ↔
  page_num < 1 ∨ Z.of_nat (length doc) < page_num ∨ length bbox ≠ 4%nat.
Proof.
  unfold resolve_region.
  destruct (page_num - 1 <? 0) eqn:Hlo; simpl.
  { split; [intros _; left; lia | done]. }
  destruct (Z.of_nat (length doc) <=? page_num - 1) eqn:Hhi; simpl.
  { split; [intros _; right; left; lia | done]. }
  destruct (doc !! Z.to_nat (page_num - 1)) as [pr |] eqn:Hpr.
  - destruct bbox as [| l [| t [| r [| b [| x bbox]]]]]; simpl;
      (split; [try done; intros _; right; right; lia | intros [? | [? | ?]]; try done; lia]).
  - apply lookup_ge_None in Hpr. lia.
Qed.

Lemma py_max_mono (a v v' : Q) : (v <= v')%Q → (py_max a v <= py_max a v')%Q.
Proof. unfold py_max. intros. destruct (Qlt_le_dec a v), (Qlt_le_dec a v'); lra. Qed.

Lemma py_min_mono (a v v' : Q) : (v <= v')%Q → (py_min a v <= py_min a v')%Q.
Proof. unfold py_min. intros. destruct (Qlt_le_dec v a), (Qlt_le_dec v' a); lra. Qed.



End cutout_region.

(** X7.  [_extract_single_cutout] returns no path exactly when the page
    number is below 1 or beyond the last page, or the bbox does not have
    four coordinates, or the rasterizer fails on the clip rectangle of the
    page; in every other case it returns the artifact path. *)
Theorem extract_single_cutout_None_iff (doc : list page_rect)
    (render : nat → rect → Q → bool) (field cid output_dir : string)
    (unit_index : nat) (page_num : Z) (bbox : list Q) (padding : Z) (scale : Q) :
  _extract_single_cutout doc render field unit_index cid page_num bbox output_dir
    padding scale = None
  ↔ page_num < 1
    ∨ Z.of_nat (length doc) < page_num
    ∨ length bbox ≠ 4%nat
    ∨ ∃ pr l t r b,
        doc !! Z.to_nat (page_num - 1) = Some pr
        ∧ bbox = [l; t; r; b]
        ∧ render (Z.to_nat (page_num - 1)) (padded_rect pr l t r b padding) scale = false.
Proof.
  unfold _extract_single_cutout.
  destruct (resolve_region doc page_num bbox padding) as [[idx clip] |] eqn:Hres.
  - assert (¬ (page_num < 1 ∨ Z.of_nat (length doc) < page_num ∨ length bbox ≠ 4%nat))
      as Hnot by (rewrite <- (resolve_region_None doc page_num bbox padding), Hres; done).
    unfold resolve_region in Hres.
    destruct (_ || _); [done |].
    destruct (doc !! Z.to_nat (page_num - 1)) as [pr |] eqn:Hpr; [| done].
    destruct bbox as [| l [| t [| r [| b [| x bbox]]]]]; try done.
    simplify_eq. split.
    + destruct (render _ _ scale) eqn:Hr; [done |]. intros _.
      right; right; right. by exists pr, l, t, r, b.
    + intros [? | [? | [? | (pr' & l' & t' & r' & b' & Hpr' & Hb & Hr)]]];
        [exfalso; apply Hnot; auto.. |].
      simplify_eq. by rewrite Hr.
  - apply resolve_region_None in Hres. split; [| done]. intros _.
    destruct Hres as [? | [? | ?]]; auto.
Qed.

(** X8.  A larger padding never shrinks the cutout: for [padding ≤
    padding'] the region for [padding'] starts no later and ends no earlier
    than the region for [padding], horizontally and vertically. *)
Theorem padded_rect_padding_monotone (pr : page_rect) (l t r b : Q)
    (padding padding' : Z) :
  padding ≤ padding' →
  (x0 (padded_rect pr l t r b padding') <= x0 (padded_rect pr l t r b padding))%Q
  ∧ (y0 (padded_rect pr l t r b padding') <= y0 (padded_rect pr l t r b padding))%Q
  ∧ (x1 (padded_rect pr l t r b padding) <= x1 (padded_rect pr l t r b padding'))%Q
  ∧ (y1 (padded_rect pr l t r b padding) <= y1 (padded_rect pr l t r b padding'))%Q.
Proof.
  intros Hp. rewrite Zle_Qle in Hp. unfold padded_rect; simpl.
  repeat split; (apply py_max_mono || apply py_min_mono); lra.
Qed.

Lemma padded_rect_padding_monotone_witness :
  (x0 (padded_rect page_600_800 100 700 300 650 10)
   <= x0 (padded_rect page_600_800 100 700 300 650 5))%Q
  ∧ (y0 (padded_rect page_600_800 100 700 300 650 10)
     <= y0 (padded_rect page_600_800 100 700 300 650 5))%Q
  ∧ (x1 (padded_rect page_600_800 100 700 300 650 5)
     <= x1 (padded_rect page_600_800 100 700 300 650 10))%Q
  ∧ (y1 (padded_rect page_600_800 100 700 300 650 5)
     <= y1 (padded_rect page_600_800 100 700 300 650 10))%Q.
Proof.
  apply (padded_rect_padding_monotone page_600_800 100 700 300 650 5 10). lia.
Defined.



(** ** [extract_cutouts]: exceptions and the manifest *)

Section extractor_outcomes.

Variable doc : list page_rect.
Variable render : nat → rect → Q → bool.
Variable chunks : list chunk.

Implicit Types (d : dict (list string)) (units : list extraction_unit)
  (src : source) (k p dir : string).


(** The three outcomes of the body of the source loop. *)
Lemma source_step_Raise dir (padding : Z) (scale : Q) (i : nat) d src (e : exn) :
  source_step doc render chunks dir padding scale i d src = Raise e
  ↔ raising_citation chunks src e.
Proof.
  unfold source_step, raising_citation.
  destruct (decide (src_field src = "")) as [Hf | Hf].
  { rewrite bool_decide_eq_true_2 by done. simpl. split; [done |]. by intros (? & _). }
  destruct (decide (src_chunk_id src = "")) as [Hc | Hc].
  { rewrite (bool_decide_eq_true_2 (src_chunk_id src = "")) by done. rewrite orb_true_r.
    split; [done |]. by intros (_ & ? & _). }
  rewrite !bool_decide_eq_false_2 by done. simpl.
  destruct (find_chunk chunks (src_chunk_id src)) as [c |];
    [| split; [done | by intros (_ & _ & c & pg & ? & _)]].
  destruct (page c) as [pg |] eqn:Hpg;
    [| split; [done | intros (_ & _ & c' & pg & ? & ? & _); simplify_eq; congruence]].
  destruct (truthy (bbox c)) eqn:Ht; simpl;
    [| split; [done | intros (_ & _ & c' & pg' & ? & ? & ? & _); simplify_eq; congruence]].
  destruct (_parse_bbox (bbox c)) as [[coords |] | e'] eqn:Hp; simpl.
  - split; [by destruct (_extract_single_cutout _ _ _ _ _ _ _ _ _ _) |].
    intros (_ & _ & c' & pg' & ? & ? & ? & ?); simplify_eq; congruence.
  - split; [done |].
    intros (_ & _ & c' & pg' & ? & ? & ? & ?); simplify_eq; congruence.
  - split.
    + intros [= <-]. repeat split; try done. by exists c, pg.
    + intros (_ & _ & c' & pg' & ? & ? & ? & ?); simplify_eq; congruence.
Qed.

Lemma source_step_Ok dir (padding : Z) (scale : Q) (i : nat) d d' src :
  source_step doc render chunks dir padding scale i d src = Ok d' →
  d' = d
  ∨ ∃ p, rendered_citation doc render chunks dir padding scale i src p
         ∧ d' = dict_append (field_key (i + 1) (src_field src)) p d.
Proof.
  unfold source_step, rendered_citation.
  destruct (decide (src_field src = "")) as [Hf | Hf].
  { rewrite bool_decide_eq_true_2 by done. simpl. intros [= <-]. by left. }
  destruct (decide (src_chunk_id src = "")) as [Hc | Hc].
  { rewrite (bool_decide_eq_true_2 (src_chunk_id src = "")) by done. rewrite orb_true_r.
    intros [= <-]. by left. }
  rewrite !bool_decide_eq_false_2 by done. simpl.
  destruct (find_chunk chunks (src_chunk_id src)) as [c |]; [| intros [= <-]; by left].
  destruct (page c) as [pg |] eqn:Hpg; [| intros [= <-]; by left].
  destruct (truthy (bbox c)) eqn:Ht; simpl; [| intros [= <-]; by left].
  destruct (_parse_bbox (bbox c)) as [[coords |] | e'] eqn:Hp; simpl;
    [| intros [= <-]; by left | done].
  destruct (_extract_single_cutout _ _ _ _ _ _ _ _ _ _) as [p |] eqn:Hcut;
    [| intros [= <-]; by left].
  intros [= <-]. right. exists p. split; [| done].
  repeat split; try done. by exists c, pg, coords.
Qed.

Lemma source_step_rendered dir (padding : Z) (scale : Q) (i : nat) d src p :
  rendered_citation doc render chunks dir padding scale i src p →
  source_step doc render chunks dir padding scale i d src
  = Ok (dict_append (field_key (i + 1) (src_field src)) p d).
Proof.
  intros (Hf & Hc & c & pg & coords & Hfind & Hpg & Ht & Hp & Hcut).
  unfold source_step.
  rewrite !bool_decide_eq_false_2 by done. simpl.
  by rewrite Hfind, Hpg, Ht, Hp; simpl; rewrite Hcut.
Qed.

(** A loop raises only if its body raises on some element, and then it
    raises what the body raises there. *)
Lemma for_each_Raise_elim {A S} (R : A → exn → Prop) (body : S → A → result S)
    (l : list A) (s : S) (e : exn) :
  (∀ s1 x e1, body s1 x = Raise e1 → R x e1) →
  for_each body l s = Raise e → ∃ x, x ∈ l ∧ R x e.
Proof.
  intros Hbody. revert s. induction l as [| x l IH]; intros s; simpl; [done |].
  destruct (body s x) as [s1 | e1] eqn:Hx; simpl.
  - intros (y & Hy & HR)%IH. exists y. split; [by apply list_elem_of_further | done].
  - intros [= <-]. exists x. split; [apply list_elem_of_here | by eapply Hbody].
Qed.


(** A state property that one element of the loop establishes and every
    step keeps holds at the end. *)
Lemma for_each_establish {A S} (P : S → Prop) (body : S → A → result S)
    (l : list A) (x : A) (s s' : S) :
  x ∈ l →
  (∀ s1 s2, body s1 x = Ok s2 → P s2) →
  (∀ s1 y s2, P s1 → body s1 y = Ok s2 → P s2) →
  for_each body l s = Ok s' → P s'.
Proof.
  intros Hx Hest Hkeep. revert s. induction l as [| y l IH]; intros s; simpl.
  - by apply not_elem_of_nil in Hx.
  - destruct (body s y) as [s1 |] eqn:Hy; simpl; [| done].
    apply elem_of_cons in Hx as [-> | Hx]; [| by apply IH].
    apply (for_each_invariant P); [by eapply Hest |].
    intros s2 z s3 _. apply Hkeep.
Qed.

Lemma extract_cutouts_Raise units dir (padding : Z) (scale : Q) (e : exn) :
  extract_cutouts doc render chunks units dir padding scale = Raise e →
  ∃ u src, u ∈ units ∧ src ∈ eu_sources u ∧ raising_citation chunks src e.
Proof.
  unfold extract_cutouts.
  intros ([i u] & Hiu%elem_of_imap_pair & src & Hsrc & Hr)%(for_each_Raise_elim
    (λ iu e, ∃ src, src ∈ eu_sources iu.2 ∧ raising_citation chunks src e)).
  - exists u, src. split; [by eapply list_elem_of_lookup_2 | done].
  - intros d [i u] e1. simpl.
    apply (for_each_Raise_elim (raising_citation chunks)).
    intros d1 src e2. apply source_step_Raise.
Qed.


(** The manifest invariant: distinct keys, no empty list, every path the
    cutout of a citation of the unit and field of its key. *)
Lemma extract_cutouts_entries units dir (padding : Z) (scale : Q) d :
  extract_cutouts doc render chunks units dir padding scale = Ok d →
  NoDup d.*1
  ∧ ∀ k paths, (k, paths) ∈ d →
      paths ≠ []
      ∧ ∀ p, p ∈ paths →
          ∃ (i : nat) (u : extraction_unit) src,
            units !! i = Some u ∧ src ∈ eu_sources u
            ∧ k = field_key (i + 1) (src_field src)
            ∧ rendered_citation doc render chunks dir padding scale i src p.
Proof.
  unfold extract_cutouts.
  set (I := λ d : dict (list string),
         NoDup d.*1
         ∧ ∀ k paths, (k, paths) ∈ d →
             paths ≠ []
             ∧ ∀ p, p ∈ paths →
                 ∃ (i : nat) (u : extraction_unit) src,
                   units !! i = Some u ∧ src ∈ eu_sources u
                   ∧ k = field_key (i + 1) (src_field src)
                   ∧ rendered_citation doc render chunks dir padding scale i src p).
  apply (for_each_invariant I).
  - split; [apply NoDup_nil_2 |]. intros k paths Hk. by apply not_elem_of_nil in Hk.
  - intros d1 [i u] d2 Hiu%elem_of_imap_pair Hd1.
    apply (for_each_invariant I); [done |].
    intros d3 src d4 Hsrc [Hnd Hd3] [-> | (p & Hr & ->)]%source_step_Ok; [done |].
    split; [by apply NoDup_dict_set |].
    intros k paths [Heq | Hin]%dict_set_elem_of; [| by apply Hd3].
    simplify_eq. split; [by destruct (default [] _) |].
    intros p' [Hp' | ->%list_elem_of_singleton]%elem_of_app.
    + destruct (dict_get d3 (field_key (i + 1) (src_field src))) as [old |] eqn:Hold;
        simpl in Hp'; [| by apply not_elem_of_nil in Hp'].
      apply dict_get_elem_of in Hold. by apply (Hd3 _ _ Hold).
    + by exists i, u, src.
Qed.

Lemma extract_cutouts_complete units dir (padding : Z) (scale : Q) d
    (i : nat) (u : extraction_unit) src p :
  units !! i = Some u →
  src ∈ eu_sources u →
  rendered_citation doc render chunks dir padding scale i src p →
  extract_cutouts doc render chunks units dir padding scale = Ok d →
  ∃ paths, dict_get d (field_key (i + 1) (src_field src)) = Some paths ∧ p ∈ paths.
Proof.
  intros Hu Hsrc Hr. unfold extract_cutouts.
  set (P := λ d : dict (list string),
         ∃ paths, dict_get d (field_key (i + 1) (src_field src)) = Some paths ∧ p ∈ paths).
  assert (∀ (j : nat) d1 d2 src',
            P d1 → source_step doc render chunks dir padding scale j d1 src' = Ok d2 → P d2)
    as Hkeep.
  { intros j d1 d2 src' (paths & Hget & Hp) [-> | (p' & _ & ->)]%source_step_Ok;
      [by exists paths |].
    unfold P, dict_append. rewrite dict_get_dict_set. case_bool_decide as Hk.
    - rewrite Hk, Hget. simpl. eexists. split; [done |].
      apply elem_of_app. by left.
    - by exists paths. }
  apply (for_each_establish P _ _ (i, u)).
  - apply elem_of_lookup_imap. by exists i, u.
  - intros d1 d2. apply (for_each_establish P _ _ src); [done | |].
    + intros d3 d4. rewrite (source_step_rendered _ _ _ _ _ _ _ Hr). intros [= <-].
      unfold P, dict_append. rewrite dict_get_dict_set, bool_decide_eq_true_2 by done.
      eexists. split; [done |]. apply elem_of_app. right. apply list_elem_of_here.
    + intros d3 src' d4. apply Hkeep.
  - intros d1 [j u'] d2 HP. apply (for_each_invariant P); [done |].
    intros d3 src' d4 _. apply Hkeep.
Qed.

Lemma find_chunk_elem_of (cid : string) (c : chunk) :
  find_chunk chunks cid = Some c → c ∈ chunks ∧ chunk_id c = cid.
Proof.
  unfold find_chunk. intros [Hin Hc]%find_some.
  split; [by apply list_elem_of_In | by apply bool_decide_eq_true in Hc].
Qed.

End extractor_outcomes.

Section parsed_chunks.

Lemma parsed_chunk_bbox (d : document) (c : chunk) :
  c ∈ parse_pdf_to_chunks d → ∃ coords, _parse_bbox (bbox c) = Ok (Some coords).
Proof.
  intros (i & mk & Hmk & ->)%elem_of_parse_pdf_to_chunks.
  unfold emitted in Hmk. rewrite elem_of_app, !list_elem_of_omap in Hmk.
  destruct Hmk as [(t & _ & Ht) | (it & _ & Hit)].
  - unfold table_emitter in Ht. destruct (table_prov t) as [| p ps]; simplify_eq.
    by eexists.
  - unfold text_emitter in Hit.
    destruct (item_text it), (item_prov it) as [| p ps]; try done.
    case_bool_decide; simplify_eq. by eexists.
Qed.

Lemma extract_cutouts_all_dangling (doc : list page_rect) (render : nat → rect → Q → bool)
    (chunks : list chunk) (units : list extraction_unit) (dir : string)
    (padding : Z) (scale : Q) :
  (∀ u src, u ∈ units → src ∈ eu_sources u → find_chunk chunks (src_chunk_id src) = None) →
  extract_cutouts doc render chunks units dir padding scale = Ok [].
Proof.
  intros Hnone.
  destruct (extract_cutouts doc render chunks units dir padding scale) as [d | e] eqn:Hx.
  - destruct d as [| [k paths] d]; [done |]. exfalso.
    apply extract_cutouts_entries in Hx as [_ Hd].
    destruct (Hd k paths) as [Hne Hp]; [apply list_elem_of_here |].
    destruct paths as [| p paths]; [done |].
    destruct (Hp p) as (i & u & src & Hu & Hsrc & _ & _ & _ & c & pg & coords & Hfind & _);
      [apply list_elem_of_here |].
    rewrite (Hnone u src) in Hfind; [done | by eapply list_elem_of_lookup_2 | done].
  - exfalso.
    apply extract_cutouts_Raise in Hx
      as (u & src & Hu & Hsrc & _ & _ & c & pg & Hfind & _).
    by rewrite (Hnone u src) in Hfind.
Qed.

End parsed_chunks.


(** X11.  On the chunk list that [parse_pdf_to_chunks] produces,
    [extract_cutouts] never raises, whatever the extraction result cites
    and whatever the pages and the rasterizer do: every bbox written by the
    chunker is a 4-tuple of numbers. *)
Theorem extract_cutouts_on_parsed_chunks (pages : list page_rect)
    (render : nat → rect → Q → bool) (d : document) (units : list extraction_unit)
    (dir : string) (padding : Z) (scale : Q) :
  ∃ cutout_paths,
    extract_cutouts pages render (parse_pdf_to_chunks d) units dir padding scale
    = Ok cutout_paths.
Proof.
  destruct (extract_cutouts pages render (parse_pdf_to_chunks d) units dir padding scale)
    as [m | e] eqn:Hx; [by exists m |].
  apply extract_cutouts_Raise in Hx
    as (u & src & _ & _ & _ & _ & c & pg & [Hc _]%find_chunk_elem_of & _ & _ & Hraise).
  apply parsed_chunk_bbox in Hc as [coords Hok]. congruence.
Qed.

(** X12.  The cutout map that [extract_cutouts] returns has pairwise
    distinct keys and no empty list, and every path in it is the cutout that
    [_extract_single_cutout] returned for a citation of the unit and field
    named by its key: the citation names a field and a chunk, and the chunk
    is in the chunk list with a page and a bbox that parses. *)
Theorem extract_cutouts_manifest (doc : list page_rect) (render : nat → rect → Q → bool)
    (chunks : list chunk) (units : list extraction_unit) (dir : string)
    (padding : Z) (scale : Q) :
  match extract_cutouts doc render chunks units dir padding scale with
  | Ok cutout_paths =>
      NoDup cutout_paths.*1
      ∧ ∀ k paths, (k, paths) ∈ cutout_paths →
          paths ≠ []
          ∧ ∀ p, p ∈ paths →
              ∃ (i : nat) (u : extraction_unit) (src : source),
                units !! i = Some u ∧ src ∈ eu_sources u
                ∧ k = field_key (i + 1) (src_field src)
                ∧ rendered_citation doc render chunks dir padding scale i src p
  | Raise _ => True
  end.
Proof.
  destruct (extract_cutouts doc render chunks units dir padding scale) as [d | e] eqn:Hx;
    [| done].
  by apply extract_cutouts_entries.
Qed.

(** X13.  No cutout is lost: when [extract_cutouts] returns, the cutout of
    every citation for which [_extract_single_cutout] returned a path is in
    the map, in the list under the key of the citation's unit and field. *)
Theorem extract_cutouts_keeps_every_cutout (doc : list page_rect)
    (render : nat → rect → Q → bool) (chunks : list chunk)
    (units : list extraction_unit) (dir : string) (padding : Z) (scale : Q)
    (cutout_paths : dict (list string)) (i : nat) (u : extraction_unit)
    (src : source) (p : string) :
  units !! i = Some u →
  src ∈ eu_sources u →
  rendered_citation doc render chunks dir padding scale i src p →
  extract_cutouts doc render chunks units dir padding scale = Ok cutout_paths →
  ∃ paths, dict_get cutout_paths (field_key (i + 1) (src_field src)) = Some paths
           ∧ p ∈ paths.
Proof. apply extract_cutouts_complete. Qed.

Lemma extract_cutouts_keeps_every_cutout_witness :
  ∃ paths,
    dict_get [("unit1_unitCode",
               [artifact_path "/tmp/output/cutouts" 0 "unitCode" "chunk_000" 1])]
      (field_key (0 + 1) "unitCode") = Some paths
    ∧ artifact_path "/tmp/output/cutouts" 0 "unitCode" "chunk_000" 1 ∈ paths.
Proof.
  apply (extract_cutouts_keeps_every_cutout one_page_doc (λ _ _ _, true) [chunk_000]
           [unit_citing_chunk_000] "/tmp/output/cutouts" 10 2 _ 0 unit_citing_chunk_000
           {| src_field := "unitCode"; src_chunk_id := "chunk_000" |}).
  - reflexivity.
  - apply list_elem_of_here.
  - repeat split; try done.
    exists chunk_000, 1, [100; 700; 300; 650]%Q. repeat split; vm_compute; reflexivity.
  - vm_compute; reflexivity.
Defined.

(** X14.  Called without a chunk list (the default), [extract_cutouts]
    returns the empty map for every extraction result; more generally it
    returns the empty map whenever no citation names a chunk of the chunk
    list. *)
Theorem extract_cutouts_without_chunks (doc : list page_rect)
    (render : nat → rect → Q → bool) (units : list extraction_unit) (dir : string)
    (padding : Z) (scale : Q) :
  extract_cutouts doc render [] units dir padding scale = Ok []
  ∧ ∀ chunks,
      (∀ u src, u ∈ units → src ∈ eu_sources u
                → find_chunk chunks (src_chunk_id src) = None) →
      extract_cutouts doc render chunks units dir padding scale = Ok [].
Proof.
  split; [by apply extract_cutouts_all_dangling |].
  intros chunks. apply extract_cutouts_all_dangling.
Qed.

(** ** [upload_cutouts_to_s3]: the returned map and the bucket *)

(** X15.  For a cutout map (keys pairwise distinct), [upload_cutouts_to_s3]
    returns a map with the same keys in the same order; the list under a
    key holds the URI of each path of that key whose upload went through, in
    order.  A failed upload is skipped without an error, and a key all of
    whose uploads fail stays in the map with an empty list. *)
Theorem upload_cutouts_returned_map (local_exists : string → bool)
    (client_upload : string → string → string → string → bool)
    (store : gmap (string * string) s3_object) (cutout_paths : dict (list string))
    (bucket_name job_id : string) :
  NoDup cutout_paths.*1 →
  (upload_cutouts_to_s3 local_exists client_upload store cutout_paths bucket_name job_id).2
  = (λ kp : string * list string,
       (kp.1,
        s3_uri_for bucket_name job_id kp.1
          <$> filter (λ p, Is_true (upload_succeeds local_exists client_upload
                                      bucket_name job_id kp.1 p)) kp.2))
      <$> cutout_paths.
Proof.
  intros Hnd. unfold upload_cutouts_to_s3.
  rewrite foldl_upload_field_fresh; [done | done |].
  intros k _ Hk. by apply not_elem_of_nil in Hk.
Qed.

Lemma upload_cutouts_returned_map_witness :
  (upload_cutouts_to_s3 (λ _, true) (λ _ _ _ _, true) ∅ two_cutouts "bucket" "job").2
  = (λ kp : string * list string,
       (kp.1,
        s3_uri_for "bucket" "job" kp.1
          <$> filter (λ p, Is_true (upload_succeeds (λ _, true) (λ _ _ _ _, true)
                                      "bucket" "job" kp.1 p)) kp.2))
      <$> two_cutouts.
Proof.
  apply (upload_cutouts_returned_map (λ _, true) (λ _ _ _ _, true) ∅ two_cutouts
           "bucket" "job").
  apply NoDup_singleton.
Defined.

(** X16.  [upload_cutouts_to_s3] only adds or overwrites objects: every
    object of the store afterwards is either the object that was there
    before, or lies in the given bucket under the key computed for a path of
    the cutout map whose upload went through, and then it is that path's
    file with the content type of its extension.  Nothing is deleted, and
    no other bucket is written. *)
Theorem upload_cutouts_store_frame (local_exists : string → bool)
    (client_upload : string → string → string → string → bool)
    (store : gmap (string * string) s3_object) (cutout_paths : dict (list string))
    (bucket_name job_id b key : string) :
  let store' :=
    (upload_cutouts_to_s3 local_exists client_upload store cutout_paths
       bucket_name job_id).1 in
  (store' !! (b, key) = store !! (b, key)
   ∨ b = bucket_name
     ∧ ∃ k paths p, (k, paths) ∈ cutout_paths ∧ p ∈ paths
         ∧ upload_succeeds local_exists client_upload bucket_name job_id k p = true
         ∧ key = s3_key_for job_id k p
         ∧ store' !! (b, key) = Some (s3_object_of p))
  ∧ (is_Some (store !! (b, key)) → is_Some (store' !! (b, key)))
  ∧ (b ≠ bucket_name → store' !! (b, key) = store !! (b, key)).
Proof.
  cbv zeta. unfold upload_cutouts_to_s3.
  pose proof (upload_cutouts_lookup local_exists client_upload bucket_name job_id
                cutout_paths store [] (b, key)) as Hlook.
  cbv zeta in Hlook.
  set (store' := (foldl _ _ cutout_paths).1) in *.
  destruct Hlook as [Heq | (k & paths & p & Hk & Hp & Hok & Hbk & Hlook)].
  - rewrite Heq. split; [by left |]. done.
  - injection Hbk as -> ->. split; [| split].
    + right. split; [done |]. by exists k, paths, p.
    + intros _. rewrite Hlook. by eexists.
    + done.
Qed.

(** ** Field keys and storage keys *)

(** X17.  The key under which [extract_cutouts] files a cutout is read back
    exactly by [upload_cutouts_to_s3]: [unit{N}_{field}] splits into the
    unit index N and the field, also when the field name itself contains
    underscores, so the cutout is stored under
    [contracts/{job_id}/unit_{N}/{field}.png]. *)
Theorem split_field_key_round_trip (n : nat) (field job_id dir : string)
    (i : nat) (f cid : string) (pg : Z) :
  split_field_key (field_key n field) = (pretty n, field)
  ∧ s3_key_for job_id (field_key n field) (artifact_path dir i f cid pg)
    = "contracts/" +:+ job_id +:+ "/unit_" +:+ pretty n +:+ "/" +:+ field +:+ ".png".
Proof.
  split; [apply split_field_key_field_key |].
  by rewrite s3_key_for_artifact, split_field_key_field_key.
Qed.

(** X18.  Cutouts of different units or different fields never overwrite
    each other in the bucket: within one job, two artifacts filed under the
    field keys of (N, field) and (N', field') get the same storage key only
    if N = N' and field = field'. *)
Theorem s3_key_distinct_fields (job_id : string) (n n' : nat) (field field' : string)
    (dir dir' : string) (i i' : nat) (f f' cid cid' : string) (pg pg' : Z) :
  s3_key_for job_id (field_key n field) (artifact_path dir i f cid pg)
  = s3_key_for job_id (field_key n' field') (artifact_path dir' i' f' cid' pg') →
  n = n' ∧ field = field'.
Proof.
  rewrite !s3_key_for_artifact, !split_field_key_field_key. apply s3_key_of_inj.
Qed.

Lemma s3_key_distinct_fields_witness : 1%nat = 1%nat ∧ "buyerName" = "buyerName".
Proof.
  apply (s3_key_distinct_fields "job" 1 1 "buyerName" "buyerName"
           "/tmp/output/cutouts" "/tmp/output/cutouts" 0 0 "buyerName" "buyerName"
           "chunk_001" "chunk_002" 1 1).
  vm_compute; reflexivity.
Defined.

(** ** [merge_results_with_cutouts]: sources and confidence *)

Section merge_sources.

Implicit Types (contract installment : list extraction_unit)
  (uris : dict (list string)) (src : source) (e : merged_source)
  (acc extra : list merged_source).

Lemma existsb_field acc (f : string) :
  existsb (λ s, bool_decide (ms_field s = f)) acc = true ↔ f ∈ ms_field <$> acc.
Proof.
  rewrite existsb_exists, list_elem_of_fmap. split.
  - intros (e & Hin%list_elem_of_In & Hf%bool_decide_eq_true). by exists e.
  - intros (e & -> & Hin). exists e. split; [by apply list_elem_of_In |].
    by apply bool_decide_eq_true.
Qed.

Lemma installment_source_step_eq uris (n : nat) acc src :
  installment_source_step uris n acc src
  = if existsb (λ s, bool_decide (ms_field s = src_field src)) acc then acc
    else acc ++ [installment_source uris n src].
Proof.
  unfold installment_source_step, installment_source.
  destruct (existsb _ acc); [done |].
  by destruct (first_uri uris (field_key n (src_field src))).
Qed.

(** The installment loop appends one entry per field that is not cited
    yet, for the first source that cites it. *)
Lemma foldl_installment_source_step uris (n : nat) (srcs : list source) acc :
  ∃ extra,
    foldl (installment_source_step uris n) acc srcs = acc ++ extra
    ∧ NoDup (ms_field <$> extra)
    ∧ (∀ e, e ∈ extra →
         (ms_field e ∉ ms_field <$> acc)
         ∧ ∃ src, src ∈ srcs ∧ e = installment_source uris n src)
    ∧ (∀ src, src ∈ srcs → src_field src ∈ ms_field <$> (acc ++ extra)).
Proof.
  revert acc. induction srcs as [| src srcs IH]; intros acc.
  - exists []. rewrite app_nil_r. split; [done |]. split; [apply NoDup_nil_2 |].
    split; intros ? Hin; by apply not_elem_of_nil in Hin.
  - cbn [foldl]. rewrite installment_source_step_eq.
    destruct (existsb _ acc) eqn:Hex.
    + destruct (IH acc) as (extra & Hfold & Hnd & Hextra & Hcover).
      exists extra. split; [done |]. split; [done |]. split.
      * intros e He. destruct (Hextra e He) as (Hn & s & Hs & Heq).
        split; [done |]. exists s. split; [by apply list_elem_of_further | done].
      * intros s [-> | Hs]%elem_of_cons; [| by apply Hcover].
        rewrite fmap_app. apply elem_of_app. left. by apply existsb_field.
    + destruct (IH (acc ++ [installment_source uris n src]))
        as (extra & Hfold & Hnd & Hextra & Hcover).
      exists (installment_source uris n src :: extra).
      split; [by rewrite Hfold, <- app_assoc |].
      split; [| split].
      * rewrite fmap_cons. apply NoDup_cons. split; [| done].
        intros (e & Hf & He)%list_elem_of_fmap.
        destruct (Hextra e He) as [Hn _]. apply Hn.
        rewrite fmap_app. apply elem_of_app. right. rewrite <- Hf.
        apply list_elem_of_here.
      * intros e [-> | He]%elem_of_cons.
        -- split.
           ++ intros Hin%existsb_field. simpl in Hin. congruence.
           ++ exists src. split; [apply list_elem_of_here | done].
        -- destruct (Hextra e He) as (Hn & s & Hs & Heq). split.
           ++ intros Hin. apply Hn. rewrite fmap_app. apply elem_of_app. by left.
           ++ exists s. split; [by apply list_elem_of_further | done].
      * intros s [-> | Hs]%elem_of_cons.
        -- rewrite fmap_app, fmap_cons. apply elem_of_app. right. apply list_elem_of_here.
        -- specialize (Hcover s Hs). by rewrite <- app_assoc in Hcover.
Qed.

(** When every field of the installment sources is cited already, the
    loop adds nothing. *)
Lemma foldl_installment_source_step_present uris (n : nat) (srcs : list source) acc :
  (∀ src, src ∈ srcs → src_field src ∈ ms_field <$> acc) →
  foldl (installment_source_step uris n) acc srcs = acc.
Proof.
  induction srcs as [| src srcs IH]; intros Hall; [done |].
  cbn [foldl]. rewrite installment_source_step_eq.
  assert (existsb (λ s, bool_decide (ms_field s = src_field src)) acc = true) as ->
    by (apply existsb_field, Hall, list_elem_of_here).
  apply IH. intros s Hs. by apply Hall, list_elem_of_further.
Qed.

Lemma ms_field_contract_source uris (n : nat) (srcs : list source) :
  ms_field <$> (contract_source uris n <$> srcs) = src_field <$> srcs.
Proof. rewrite <- list_fmap_compose. by apply list_fmap_ext. Qed.

End merge_sources.

(** X19.  The sources of a merged unit are the entries of the contract
    pass's sources, in order, followed by one entry for each field that
    only the installment pass cites: these fields are pairwise distinct and
    differ from every field the contract pass cites, each entry comes from a
    source of the installment unit (with the field's first URI, or else the
    chunk id, as its [chunk_file_key]), and every field cited by the
    installment unit occurs among the merged sources. *)
Theorem merge_results_sources (contract installment : list extraction_unit)
    (uris : dict (list string)) (i : nat) (cu : extraction_unit) :
  contract !! i = Some cu →
  ∃ mu extra,
    merge_results_with_cutouts contract installment uris !! i = Some mu
    ∧ mu_sources mu = (contract_source uris (i + 1) <$> eu_sources cu) ++ extra
    ∧ NoDup (ms_field <$> extra)
    ∧ (∀ e, e ∈ extra →
         (ms_field e ∉ src_field <$> eu_sources cu)
         ∧ ∃ iu src, installment !! i = Some iu ∧ src ∈ eu_sources iu
                     ∧ e = installment_source uris (i + 1) src)
    ∧ (∀ iu src, installment !! i = Some iu → src ∈ eu_sources iu →
                 src_field src ∈ ms_field <$> mu_sources mu).
Proof.
  intros Hcu. exists (merge_unit installment uris i cu).
  rewrite lookup_merge_results, Hcu, mu_sources_merge_unit.
  destruct (installment !! i) as [iu |] eqn:Hiu.
  - destruct (foldl_installment_source_step uris (i + 1) (eu_sources iu)
                (contract_source uris (i + 1) <$> eu_sources cu))
      as (extra & Hfold & Hnd & Hextra & Hcover).
    exists extra. split; [done |]. split; [done |]. split; [done |]. split.
    + intros e He. destruct (Hextra e He) as (Hn & src & Hsrc & Heq).
      rewrite ms_field_contract_source in Hn. split; [done |]. by exists iu, src.
    + intros iu' src [= <-] Hsrc. rewrite Hfold. by apply Hcover.
  - exists []. rewrite app_nil_r. split; [done |]. split; [done |].
    split; [apply NoDup_nil_2 |].
    split; [intros e He; by apply not_elem_of_nil in He | done].
Qed.

Lemma merge_results_sources_witness :
  ∃ mu extra,
    merge_results_with_cutouts [contract_unit_ana] [installment_unit_64] two_artifacts !! O
    = Some mu
    ∧ mu_sources mu
      = (contract_source two_artifacts (0 + 1) <$> eu_sources contract_unit_ana) ++ extra
    ∧ NoDup (ms_field <$> extra)
    ∧ (∀ e, e ∈ extra →
         (ms_field e ∉ src_field <$> eu_sources contract_unit_ana)
         ∧ ∃ iu src, [installment_unit_64] !! O = Some iu ∧ src ∈ eu_sources iu
                     ∧ e = installment_source two_artifacts (0 + 1) src)
    ∧ (∀ iu src, [installment_unit_64] !! O = Some iu → src ∈ eu_sources iu →
                 src_field src ∈ ms_field <$> mu_sources mu).
Proof.
  apply (merge_results_sources [contract_unit_ana] [installment_unit_64] two_artifacts
           O contract_unit_ana).
  reflexivity.
Defined.

(** X20.  The confidence map of a merged unit is the contract unit's
    confidence map updated with the installment unit's: on a field rated by
    both passes the installment pass's rating wins, every other rating of
    either pass is kept, and no other field is rated. *)
Theorem merge_results_confidence (contract installment : list extraction_unit)
    (uris : dict (list string)) (i : nat) (cu : extraction_unit) (f : string) :
  contract !! i = Some cu →
  ∃ mu,
    merge_results_with_cutouts contract installment uris !! i = Some mu
    ∧ mu_confidence mu !! f
      = match installment !! i with
        | Some iu =>
            match eu_confidence iu !! f with
            | Some rating => Some rating
            | None => eu_confidence cu !! f
            end
        | None => eu_confidence cu !! f
        end.
Proof.
  intros Hcu. exists (merge_unit installment uris i cu).
  rewrite lookup_merge_results, Hcu, mu_confidence_merge_unit.
  split; [done |].
  destruct (installment !! i) as [iu |]; [| done].
  rewrite lookup_union. by destruct (eu_confidence iu !! f), (eu_confidence cu !! f).
Qed.

Lemma merge_results_confidence_witness :
  ∃ mu,
    merge_results_with_cutouts [contract_unit_ana] [installment_unit_64] [] !! O = Some mu
    ∧ mu_confidence mu !! "installmentPlans"
      = match [installment_unit_64] !! O with
        | Some iu =>
            match eu_confidence iu !! "installmentPlans" with
            | Some rating => Some rating
            | None => eu_confidence contract_unit_ana !! "installmentPlans"
            end
        | None => eu_confidence contract_unit_ana !! "installmentPlans"
        end.
Proof.
  apply (merge_results_confidence [contract_unit_ana] [installment_unit_64] [] O
           contract_unit_ana "installmentPlans").
  reflexivity.
Defined.

(** ** The combining loop and the pipeline of [main] *)

Section combine_units.

Implicit Types (contract installment acc : list extraction_unit)
  (cu iu : extraction_unit).

Lemma combine_step_combined acc (start : nat) cu iu :
  acc !! start = Some cu →
  combine_step acc (start, iu) = <[start := combined_unit cu iu]> acc.
Proof. intros Hcu. unfold combine_step. by rewrite Hcu. Qed.

Lemma combine_step_append acc (start : nat) iu :
  acc !! start = None → combine_step acc (start, iu) = acc ++ [iu].
Proof. intros Hcu. unfold combine_step. by rewrite Hcu. Qed.

(** A unit of the accumulator after the loop over the installment units
    from index [start] on. *)
Lemma foldl_combine_step_lookup (l : list extraction_unit) (start : nat) acc
    (j : nat) cu :
  (start ≤ length acc)%nat →
  acc !! j = Some cu →
  foldl combine_step acc (enumerate_from start l) !! j
  = Some (if decide (start ≤ j)%nat
          then match l !! (j - start)%nat with
               | Some iu => combined_unit cu iu
               | None => cu
               end
          else cu).
Proof.
  revert start acc cu. induction l as [| x l IH]; intros start acc cu Hstart Hj.
  - change (enumerate_from start (@nil extraction_unit)) with (@nil (nat * extraction_unit)).
    simpl. rewrite Hj. by case_decide.
  - rewrite enumerate_from_cons. cbn [foldl].
    pose proof (lookup_lt_Some _ _ _ Hj) as Hlt.
    destruct (acc !! start) as [c0 |] eqn:Hlook.
    + rewrite (combine_step_combined _ _ _ _ Hlook).
      pose proof (lookup_lt_Some _ _ _ Hlook) as Hlt0.
      destruct (decide (j = start)) as [-> | Hne].
      * rewrite (IH (S start) _ (combined_unit c0 x));
          [| rewrite length_insert; lia | by rewrite list_lookup_insert_eq].
        rewrite decide_False by lia. rewrite decide_True by lia.
        rewrite Nat.sub_diag. simpl. congruence.
      * rewrite (IH (S start) _ cu);
          [| rewrite length_insert; lia | by rewrite list_lookup_insert_ne].
        destruct (decide (start ≤ j)%nat) as [Hle | Hgt].
        -- rewrite decide_True by lia.
           replace (j - start)%nat with (S (j - S start)) by lia. done.
        -- by rewrite decide_False by lia.
    + rewrite (combine_step_append _ _ _ Hlook).
      apply lookup_ge_None in Hlook.
      rewrite (IH (S start) _ cu);
        [| rewrite length_app; simpl; lia | by apply lookup_app_l_Some].
      rewrite !decide_False by lia. done.
Qed.

Lemma combine_results_lookup contract installment (i : nat) cu :
  contract !! i = Some cu →
  combine_results contract installment !! i
  = Some (match installment !! i with
          | Some iu => combined_unit cu iu
          | None => cu
          end).
Proof.
  intros Hcu. unfold combine_results. rewrite imap_pair_enumerate.
  rewrite (foldl_combine_step_lookup installment O contract i cu); [| lia | done].
  rewrite decide_True by lia. by rewrite Nat.sub_0_r.
Qed.

Lemma merge_unit_combined installment uris (i : nat) cu iu :
  installment !! i = Some iu →
  mu_unit (merge_unit installment uris i (combined_unit cu iu))
  = <["installmentPlans" := installment_plans_of iu]> (eu_unit cu)
  ∧ mu_sources (merge_unit installment uris i (combined_unit cu iu))
    = contract_source uris (i + 1) <$> (eu_sources cu ++ eu_sources iu)
  ∧ mu_confidence (merge_unit installment uris i (combined_unit cu iu))
    = eu_confidence iu ∪ eu_confidence cu.
Proof.
  intros Hiu.
  rewrite mu_unit_merge_unit, mu_sources_merge_unit, mu_confidence_merge_unit, Hiu.
  cbn [combined_unit eu_unit eu_sources eu_confidence].
  split; [| split].
  - destruct (truthy (installment_plans_of iu)); [apply insert_insert_eq | done].
  - apply foldl_installment_source_step_present. intros src Hsrc.
    rewrite ms_field_contract_source, fmap_app. apply elem_of_app. right.
    apply list_elem_of_fmap. by exists src.
  - by rewrite (assoc_L (∪)), (idemp_L (∪)).
Qed.

End combine_units.

(** X21.  After the combining loop of [main], the combined result has as
    many units as the longer of the two passes, and at every index of the
    contract pass it holds the contract unit, changed only where the
    installment pass has a unit at that index: then [installmentPlans] is
    set to that unit's plans (the empty list when it has none), its sources
    are appended and its confidence entries are added. *)
Theorem combine_results_units (contract installment : list extraction_unit) :
  length (combine_results contract installment)
  = (length contract `max` length installment)%nat
  ∧ ∀ (i : nat) (cu : extraction_unit),
      contract !! i = Some cu →
      combine_results contract installment !! i
      = Some (match installment !! i with
              | Some iu => combined_unit cu iu
              | None => cu
              end).
Proof.
  split; [apply combine_results_extra | apply combine_results_lookup].
Qed.

(** X22.  In the pipeline of [main] the contract units that reach
    [merge_results_with_cutouts] are the ones the combining loop has
    updated in place.  So where both passes have a unit, the merged unit
    always carries [installmentPlans] (also when the installment pass found
    no plan), its sources cite the fields of the contract sources followed
    by the fields of all installment sources, repeated fields included,
    and its confidence map is the contract pass's updated with the
    installment pass's; where the installment pass has no unit, the merged
    unit has the contract unit's fields, cited fields and confidence. *)
Theorem reconcile_merged_unit
    (doc : list page_rect) (render : nat → rect → Q → bool)
    (local_exists : string → bool)
    (client_upload : string → string → string → string → bool)
    (chunks : list chunk) (store : gmap (string * string) s3_object)
    (bucket_name job_id : string) (contract installment : list extraction_unit)
    (merged : list merged_unit) (i : nat) (cu : extraction_unit) :
  reconcile doc render local_exists client_upload chunks store bucket_name job_id
    contract installment = Ok merged →
  contract !! i = Some cu →
  ∃ mu,
    merged !! i = Some mu
    ∧ match installment !! i with
      | Some iu =>
          mu_unit mu = <["installmentPlans" := installment_plans_of iu]> (eu_unit cu)
          ∧ ms_field <$> mu_sources mu = src_field <$> (eu_sources cu ++ eu_sources iu)
          ∧ mu_confidence mu = eu_confidence iu ∪ eu_confidence cu
      | None =>
          mu_unit mu = eu_unit cu
          ∧ ms_field <$> mu_sources mu = src_field <$> eu_sources cu
          ∧ mu_confidence mu = eu_confidence cu
      end.
Proof.
  intros Hrun Hcu. unfold reconcile in Hrun.
  destruct (extract_cutouts doc render chunks (combine_results contract installment)
              "/tmp/output/cutouts" 10 2) as [cutouts |] eqn:Hex; simpl in Hrun; [| done].
  destruct (upload_cutouts_to_s3 local_exists client_upload store cutouts
              bucket_name job_id) as [store' uris] eqn:Hup.
  injection Hrun as <-.
  pose proof (lookup_lt_Some _ _ _ Hcu) as Hlt.
  rewrite lookup_merge_results, lookup_take_lt by done.
  rewrite (combine_results_lookup _ _ _ _ Hcu).
  destruct (installment !! i) as [iu |] eqn:Hiu.
  - eexists. split; [done |].
    destruct (merge_unit_combined installment uris i cu iu Hiu) as (-> & -> & ->).
    by rewrite ms_field_contract_source.
  - eexists. split; [done |].
    rewrite mu_unit_merge_unit, mu_sources_merge_unit, mu_confidence_merge_unit, Hiu.
    by rewrite ms_field_contract_source.
Qed.

Lemma reconcile_merged_unit_witness :
  ∃ mu,
    merge_results_with_cutouts [combined_unit contract_unit_ana installment_unit_64]
      [installment_unit_64] [] !! O = Some mu
    ∧ match [installment_unit_64] !! O with
      | Some iu =>
          mu_unit mu
          = <["installmentPlans" := installment_plans_of iu]> (eu_unit contract_unit_ana)
          ∧ ms_field <$> mu_sources mu
            = src_field <$> (eu_sources contract_unit_ana ++ eu_sources iu)
          ∧ mu_confidence mu = eu_confidence iu ∪ eu_confidence contract_unit_ana
      | None =>
          mu_unit mu = eu_unit contract_unit_ana
          ∧ ms_field <$> mu_sources mu = src_field <$> eu_sources contract_unit_ana
          ∧ mu_confidence mu = eu_confidence contract_unit_ana
      end.
Proof.
  apply (reconcile_merged_unit one_page_doc (λ _ _ _, true) (λ _, true)
           (λ _ _ _ _, true) [chunk_000] ∅ "bucket" "job"
           [contract_unit_ana] [installment_unit_64]
           (merge_results_with_cutouts
              [combined_unit contract_unit_ana installment_unit_64]
              [installment_unit_64] [])
           O contract_unit_ana).
  - vm_compute. reflexivity.
  - reflexivity.
Defined.

(** ** The chunk statistics of [main] *)

Section statistics.

Implicit Types (m : gmap string nat) (c : chunk) (chunks : list chunk) (e : string).

Lemma element_types_snoc chunks c :
  element_types (chunks ++ [c]) = count_step (element_types chunks) c.
Proof. unfold element_types. by rewrite foldl_app. Qed.

Lemma chunks_of_type_snoc e chunks c :
  chunks_of_type e (chunks ++ [c])
  = (chunks_of_type e chunks + if decide (etype_of c = e) then 1 else 0)%nat.
Proof.
  unfold chunks_of_type. rewrite filter_app, length_app. f_equal.
  rewrite filter_cons, filter_nil. by case_decide.
Qed.

Lemma total_count_insert m e :
  total_count (<[e := (default O (m !! e) + 1)%nat]> m) = S (total_count m).
Proof.
  unfold total_count.
  assert (∀ (j1 j2 : string) (z1 z2 y : nat),
            (z1 + (z2 + y) = z2 + (z1 + y))%nat) as Hcomm by (intros; lia).
  destruct (m !! e) as [v |] eqn:Hv; simpl.
  - rewrite <- insert_delete_eq.
    rewrite map_fold_insert_L; [| intros; apply Hcomm; done | apply lookup_delete_eq].
    rewrite (map_fold_delete_L _ _ e v m); [lia | intros; apply Hcomm; done | done].
  - rewrite map_fold_insert_L; [lia | intros; apply Hcomm; done | done].
Qed.

Lemma element_types_lookup chunks e :
  element_types chunks !! e
  = if decide (chunks_of_type e chunks = O) then None else Some (chunks_of_type e chunks).
Proof.
  induction chunks as [| c chunks IH] using rev_ind; [done |].
  rewrite element_types_snoc, chunks_of_type_snoc. unfold count_step.
  destruct (decide (etype_of c = e)) as [-> | Hne].
  - rewrite lookup_insert_eq, IH.
    rewrite (decide_False (P := (_ + 1 = 0)%nat)) by lia.
    by case_decide as H0; [rewrite H0 |].
  - rewrite lookup_insert_ne by done. rewrite IH, Nat.add_0_r. done.
Qed.

Lemma total_count_element_types chunks :
  total_count (element_types chunks) = length chunks.
Proof.
  induction chunks as [| c chunks IH] using rev_ind; [done |].
  rewrite element_types_snoc. unfold count_step.
  rewrite total_count_insert, IH, length_app. simpl. lia.
Qed.

End statistics.

(** X24.  The histogram of element types printed by [main] counts every
    chunk once: an element type has an entry exactly when some chunk has
    that type, the entry is the number of such chunks (chunks without a type
    are counted under [unknown]), and the counts add up to the number of
    chunks. *)
Theorem element_types_counts (chunks : list chunk) :
  (∀ etype,
     element_types chunks !! etype
     = if decide (chunks_of_type etype chunks = O) then None
       else Some (chunks_of_type etype chunks))
  ∧ total_count (element_types chunks) = length chunks.
Proof.
  split; [intros; apply element_types_lookup | apply total_count_element_types].
Qed.

(** ** The local path of the handler *)

Section file_names.

Implicit Types (s w d name : string) (sep : ascii).

(** The last piece of a split holds no separator; the string is that
    piece, or ends with the separator followed by that piece. *)
Lemma split_on_last sep s :
  ∃ w, last (split_on sep s) = Some w
       ∧ free_of sep w = true
       ∧ ((split_on sep s = [w] ∧ s = w)
          ∨ (∃ d, s = d +:+ String sep w) ∧ (2 ≤ length (split_on sep s))%nat).
Proof.
  induction s as [| c s (w & Hlast & Hfree & Hcases)].
  - exists "". split; [done |]. split; [done |]. by left.
  - cbn [split_on]. case_bool_decide as Hc.
    + subst c. exists w.
      assert (split_on sep s ≠ []) as Hne by (intros Hnil; by rewrite Hnil in Hlast).
      split; [rewrite last_cons; by rewrite Hlast |].
      split; [done |]. right. split.
      * destruct Hcases as [[_ Hs] | [[d Hs] _]].
        -- exists "". by rewrite <- Hs.
        -- exists (String sep d). by rewrite Hs.
      * destruct (split_on sep s); [done | simpl; lia].
    + destruct Hcases as [[Hsplit Hs] | [[d Hs] Hlen]].
      * rewrite Hsplit. exists (String c w). split; [done |].
        split; [by apply free_of_cons |]. left. by rewrite Hs.
      * destruct (split_on sep s) as [| w0 [| w1 ws]] eqn:Hsplit;
          [simpl in Hlen; lia | simpl in Hlen; lia |].
        exists w. split; [exact Hlast |].
        split; [done |]. right. split; [| simpl; lia].
        exists (String c d). by rewrite Hs.
Qed.

Lemma split_on_app_last sep d name :
  free_of sep name = true →
  last (split_on sep (d +:+ String sep name)) = Some name
  ∧ (2 ≤ length (split_on sep (d +:+ String sep name)))%nat.
Proof.
  intros Hname. induction d as [| c d [IHlast IHlen]].
  - change ("" +:+ String sep name) with (String sep name). cbn [split_on].
    rewrite bool_decide_eq_true_2 by done. by rewrite split_on_free.
  - change (String c d +:+ String sep name) with (String c (d +:+ String sep name)).
    cbn [split_on]. case_bool_decide.
    + destruct (split_on sep (d +:+ String sep name)) as [| w0 ws]; [simpl in IHlen; lia |].
      split; [by rewrite last_cons, IHlast | simpl; lia].
    + destruct (split_on sep (d +:+ String sep name)) as [| w0 [| w1 ws]];
        [simpl in IHlen; lia | simpl in IHlen; lia |].
      split; [exact IHlast | simpl; lia].
Qed.

End file_names.

(** X25.  The file name under which the handler stores the downloaded
    document in [/tmp] is the part of the file key after its last slash: it
    holds no slash, and the key is this name or ends with a slash followed
    by it.  So the local path depends on that last part only: keys that
    differ just in their folders are downloaded to the same local path. *)
Theorem handler_local_file_path (file_key : string) :
  free_of "/" (file_name_of file_key) = true
  ∧ (file_key = file_name_of file_key
     ∨ ∃ folder, file_key = folder +:+ "/" +:+ file_name_of file_key)
  ∧ ∀ folder name,
      free_of "/" name = true →
      local_file_path (folder +:+ "/" +:+ name) = local_file_path name
      ∧ local_file_path name = "/tmp/" +:+ name.
Proof.
  unfold local_file_path, file_name_of.
  destruct (split_on_last "/" file_key) as (w & -> & Hfree & Hcases). simpl.
  split; [done |]. split.
  - destruct Hcases as [[_ Hs] | [[d Hs] _]]; [by left | right; by exists d].
  - intros folder name Hname.
    change (folder +:+ "/" +:+ name) with (folder +:+ String "/" name).
    destruct (split_on_app_last "/" folder name Hname) as [-> _].
    by rewrite split_on_free.
Qed.

(** ** The code fence around the model's answer *)

Section code_fence.

Implicit Types (s body ws pre post : string).

Lemma string_app_assoc s1 s2 s3 : (s1 +:+ s2) +:+ s3 = s1 +:+ s2 +:+ s3.
Proof. apply chars_inj. by rewrite !chars_app, app_assoc. Qed.

Lemma string_app_nil_r s : s +:+ "" = s.
Proof. apply chars_inj. by rewrite chars_app, app_nil_r. Qed.

(** The first character of a bracketed text behind blanks is a blank, a
    bracket or a brace. *)
Lemma fence_head ws (a : ascii) (mid rest : string) :
  all_chars is_py_space ws = true →
  a = "["%char ∨ a = "{"%char →
  ∃ (c : ascii) (t : string),
    ws +:+ String a mid +:+ rest = String c t ∧ c ≠ "`"%char ∧ c ≠ "j"%char.
Proof.
  intros Hws Ha. destruct ws as [| c ws].
  - exists a, (mid +:+ rest). split; [done |]. by destruct Ha as [-> | ->].
  - exists c, (ws +:+ String a mid +:+ rest). split; [done |].
    simpl in Hws. apply andb_true_iff in Hws as [Hc _].
    split; intros ->; done.
Qed.

Lemma py_strip_bracketed pre post body :
  all_chars is_py_space pre = true →
  all_chars is_py_space post = true →
  bracketed body →
  py_strip (pre +:+ body +:+ post) = body.
Proof.
  intros Hpre Hpost (a & z & mid & front & Ha & Hz & Hopen & Hclose).
  apply (py_strip_wrapped pre post body a z mid (String.rev front));
    try done.
  - by destruct Hopen as [-> | ->].
  - rewrite Hz, string_rev_app. done.
  - by destruct Hclose as [-> | ->].
Qed.

(** A text between two fences, behind blanks, is what the last three
    steps return. *)
Lemma fence_body ws1 ws2 body :
  all_chars is_py_space ws1 = true →
  all_chars is_py_space ws2 = true →
  bracketed body →
  let content := ws1 +:+ body +:+ ws2 +:+ "```" in
  py_strip
    (let content := if starts_with "```" content then drop_chars 3 content else content in
     if ends_with "```" content then drop_last_chars 3 content else content)
  = body.
Proof.
  intros Hws1 Hws2 Hbody. cbv zeta.
  destruct Hbody as (a & z & mid & front & Ha & Hz & Hopen & Hclose).
  destruct (fence_head ws1 a mid (ws2 +:+ "```") Hws1 Hopen) as (c & t & Hct & Hc & _).
  assert (starts_with "```" (ws1 +:+ body +:+ ws2 +:+ "```") = false) as ->.
  { rewrite Ha, Hct. unfold starts_with. cbn [strip_prefix].
    by rewrite bool_decide_eq_false_2 by congruence. }
  assert (String.rev (ws1 +:+ body +:+ ws2 +:+ "```")
          = "```" +:+ String.rev (ws1 +:+ body +:+ ws2)) as Hrev.
  { rewrite <- (string_app_assoc body), <- (string_app_assoc ws1).
    by rewrite (string_rev_app _ "```"). }
  unfold ends_with, drop_last_chars. rewrite Hrev.
  change (starts_with (String.rev "```") ("```" +:+ ?x)) with true.
  change (drop_chars 3 ("```" +:+ String.rev (ws1 +:+ body +:+ ws2)))
    with (String.rev (ws1 +:+ body +:+ ws2)).
  rewrite string_rev_involutive.
  apply py_strip_bracketed; [done | done |]. by exists a, z, mid, front.
Qed.

Lemma strip_code_fence_json pre post ws1 ws2 body :
  all_chars is_py_space pre = true → all_chars is_py_space post = true →
  all_chars is_py_space ws1 = true → all_chars is_py_space ws2 = true →
  bracketed body →
  strip_code_fence (pre +:+ ("```json" +:+ ws1 +:+ body +:+ ws2 +:+ "```") +:+ post) = body.
Proof.
  intros Hpre Hpost Hws1 Hws2 Hbody. unfold strip_code_fence.
  rewrite (py_strip_wrapped pre post _ "`"%char "`"%char
             ("``json" +:+ ws1 +:+ body +:+ ws2 +:+ "```")
             ("``" +:+ String.rev ("```json" +:+ ws1 +:+ body +:+ ws2)));
    [| done | done | done | done | | done].
  - change (starts_with "```json" ("```json" +:+ ?x)) with true. cbv iota.
    change (drop_chars 7 ("```json" +:+ ws1 +:+ body +:+ ws2 +:+ "```"))
      with (ws1 +:+ body +:+ ws2 +:+ "```").
    by apply fence_body.
  - rewrite <- (string_app_assoc body), <- (string_app_assoc ws1),
      <- (string_app_assoc "```json").
    by rewrite (string_rev_app _ "```").
Qed.

Lemma strip_code_fence_plain pre post ws1 ws2 body :
  all_chars is_py_space pre = true → all_chars is_py_space post = true →
  all_chars is_py_space ws1 = true → all_chars is_py_space ws2 = true →
  bracketed body →
  strip_code_fence (pre +:+ ("```" +:+ ws1 +:+ body +:+ ws2 +:+ "```") +:+ post) = body.
Proof.
  intros Hpre Hpost Hws1 Hws2 Hbody. unfold strip_code_fence.
  rewrite (py_strip_wrapped pre post _ "`"%char "`"%char
             ("``" +:+ ws1 +:+ body +:+ ws2 +:+ "```")
             ("``" +:+ String.rev ("```" +:+ ws1 +:+ body +:+ ws2)));
    [| done | done | done | done | | done].
  - destruct Hbody as (a & z & mid & front & Ha & Hz & Hopen & Hclose).
    destruct (fence_head ws1 a mid (ws2 +:+ "```") Hws1 Hopen) as (c & t & Hct & _ & Hc).
    assert (starts_with "```json" ("```" +:+ ws1 +:+ body +:+ ws2 +:+ "```") = false) as ->.
    { rewrite Ha, Hct. unfold starts_with.
      change ("```" +:+ String c t) with (String "`" (String "`" (String "`" (String c t)))).
      cbn [strip_prefix]. rewrite !bool_decide_eq_true_2 by done.
      by rewrite bool_decide_eq_false_2 by congruence. }
    change (starts_with "```" ("```" +:+ ?x)) with true. cbv iota.
    change (drop_chars 3 ("```" +:+ ws1 +:+ body +:+ ws2 +:+ "```"))
      with (ws1 +:+ body +:+ ws2 +:+ "```").
    assert (starts_with "```" (ws1 +:+ body +:+ ws2 +:+ "```") = false) as Hno.
    { rewrite Ha, Hct. unfold starts_with. cbn [strip_prefix].
      destruct (fence_head ws1 a mid (ws2 +:+ "```") Hws1 Hopen)
        as (c' & t' & Hct' & Hc' & _).
      rewrite Hct in Hct'. injection Hct' as <- <-.
      by rewrite bool_decide_eq_false_2 by congruence. }
    pose proof (fence_body ws1 ws2 body Hws1 Hws2) as Hfence. cbv zeta in Hfence.
    rewrite Hno in Hfence. apply Hfence. by exists a, z, mid, front.
  - rewrite <- (string_app_assoc body), <- (string_app_assoc ws1),
      <- (string_app_assoc "```").
    by rewrite (string_rev_app _ "```").
Qed.

Lemma strip_code_fence_bare pre post body :
  all_chars is_py_space pre = true → all_chars is_py_space post = true →
  bracketed body →
  strip_code_fence (pre +:+ body +:+ post) = body.
Proof.
  intros Hpre Hpost Hbody. unfold strip_code_fence.
  rewrite py_strip_bracketed by done.
  pose proof Hbody as (a & z & mid & front & Ha & Hz & Hopen & Hclose).
  assert (starts_with "```json" body = false) as ->.
  { rewrite Ha. unfold starts_with. cbn [strip_prefix].
    rewrite bool_decide_eq_false_2; [done |]. by destruct Hopen as [-> | ->]. }
  assert (starts_with "```" body = false) as ->.
  { rewrite Ha. unfold starts_with. cbn [strip_prefix].
    rewrite bool_decide_eq_false_2; [done |]. by destruct Hopen as [-> | ->]. }
  assert (ends_with "```" body = false) as ->.
  { unfold ends_with. rewrite Hz, string_rev_app.
    change (String.rev (String z "") +:+ String.rev front)
      with (String z (String.rev front)).
    unfold starts_with. change (String.rev "```") with "```". cbn [strip_prefix].
    rewrite bool_decide_eq_false_2; [done |]. by destruct Hclose as [-> | ->]. }
  rewrite <- (string_app_nil_r body) at 1.
  change (body +:+ "") with ("" +:+ body +:+ "") at 1.
  by apply py_strip_bracketed.
Qed.

End code_fence.

(** X26.  A JSON array or object in the model's answer reaches the JSON
    parser unchanged, whether it is wrapped in a [```json] fence, in a plain
    [```] fence, or not fenced at all, and whatever blanks or line breaks
    surround the fences and the text. *)
Theorem strip_code_fence_unwraps (pre post ws1 ws2 body : string) :
  all_chars is_py_space pre = true → all_chars is_py_space post = true →
  all_chars is_py_space ws1 = true → all_chars is_py_space ws2 = true →
  bracketed body →
  strip_code_fence (pre +:+ ("```json" +:+ ws1 +:+ body +:+ ws2 +:+ "```") +:+ post) = body
  ∧ strip_code_fence (pre +:+ ("```" +:+ ws1 +:+ body +:+ ws2 +:+ "```") +:+ post) = body
  ∧ strip_code_fence (pre +:+ body +:+ post) = body.
Proof.
  intros Hpre Hpost Hws1 Hws2 Hbody.
  split; [by apply strip_code_fence_json |].
  split; [by apply strip_code_fence_plain | by apply strip_code_fence_bare].
Qed.

Lemma strip_code_fence_unwraps_witness :
  strip_code_fence
    ("" +:+ ("```json" +:+ line_break +:+ "[{}]" +:+ line_break +:+ "```") +:+ line_break)
  = "[{}]"
  ∧ strip_code_fence
      ("" +:+ ("```" +:+ line_break +:+ "[{}]" +:+ line_break +:+ "```") +:+ line_break)
    = "[{}]"
  ∧ strip_code_fence ("" +:+ "[{}]" +:+ line_break) = "[{}]".
Proof.
  apply (strip_code_fence_unwraps "" line_break line_break line_break "[{}]");
    [reflexivity | reflexivity | reflexivity | reflexivity |].
  exists "["%char, "]"%char, "{}]", "[{}". repeat split; auto.
Defined.

(** X27.  In the payload that steps 5 to 7 of [main] produce, the
    [chunk_file_key] of every source of merged unit [i] is either the
    storage URI of its own unit and field,
    [s3://{bucket}/contracts/{job_id}/unit_{i+1}/{field}.png], or the
    fallback for a citation of that field in the combined unit: its chunk
    id, or null for the [calculated] marker.  No citation ever points to
    the artifact of another unit or of another field. *)
Theorem reconcile_chunk_file_keys
    (doc : list page_rect) (render : nat → rect → Q → bool)
    (local_exists : string → bool)
    (client_upload : string → string → string → string → bool)
    (chunks : list chunk) (store : gmap (string * string) s3_object)
    (bucket_name job_id : string) (contract installment : list extraction_unit)
    (merged : list merged_unit) (i : nat) (mu : merged_unit) (e : merged_source) :
  reconcile doc render local_exists client_upload chunks store bucket_name job_id
    contract installment = Ok merged →
  merged !! i = Some mu →
  e ∈ mu_sources mu →
  chunk_file_key e
  = Some ("s3://" +:+ bucket_name +:+ "/"
            +:+ s3_key_of job_id (pretty (i + 1)%nat) (ms_field e) ".png")
  ∨ ∃ cu src,
      combine_results contract installment !! i = Some cu
      ∧ src ∈ eu_sources cu
      ∧ ms_field e = src_field src
      ∧ chunk_file_key e = fallback_key (src_chunk_id src).
Proof.
  intros Hrun Hmu He. unfold reconcile in Hrun.
  destruct (extract_cutouts doc render chunks (combine_results contract installment)
              "/tmp/output/cutouts" 10 2) as [cutouts |] eqn:Hex; simpl in Hrun; [| done].
  destruct (upload_cutouts_to_s3 local_exists client_upload store cutouts
              bucket_name job_id) as [store' uris] eqn:Hup.
  injection Hrun as <-.
  rewrite lookup_merge_results in Hmu.
  destruct (take (length contract) (combine_results contract installment) !! i)
    as [cu' |] eqn:Hcu'; [| done].
  injection Hmu as <-.
  apply lookup_take_Some in Hcu' as [Hcu' Hlt].
  destruct (lookup_lt_is_Some_2 contract i Hlt) as [cu Hcu].
  rewrite (combine_results_lookup _ _ _ _ Hcu) in Hcu'.
  assert (mu_sources (merge_unit installment uris i cu')
          = contract_source uris (i + 1) <$> eu_sources cu') as Hsources.
  { destruct (installment !! i) as [iu |] eqn:Hiu; simplify_eq.
    - by destruct (merge_unit_combined installment uris i cu iu Hiu) as (_ & -> & _).
    - by rewrite mu_sources_merge_unit, Hiu. }
  rewrite Hsources in He. apply list_elem_of_fmap in He as (src & -> & Hsrc).
  unfold contract_source. cbn [chunk_file_key ms_field].
  destruct (first_uri uris (field_key (i + 1) (src_field src))) as [u |] eqn:Hfirst.
  - left.
    assert (uris = (upload_cutouts_to_s3 local_exists client_upload store cutouts
                      bucket_name job_id).2) as Huris by (by rewrite Hup).
    rewrite Huris in Hfirst.
    apply first_uri_upload_cutouts in Hfirst as (paths & p & Hk & Hp & ->).
    destruct (extract_cutouts_justified _ _ _ _ _ _ _ _ Hex _ _ _ Hk Hp)
      as (i' & u' & src' & c & dir & pg & _ & _ & _ & _ & ->).
    unfold s3_uri_for. by rewrite s3_key_for_artifact, split_field_key_field_key.
  - right. exists cu', src.
    rewrite (combine_results_lookup _ _ _ _ Hcu). by rewrite Hcu'.
Qed.

Lemma reconcile_chunk_file_keys_witness :
  chunk_file_key
    {| ms_field := "unitCode";
       chunk_file_key := Some "s3://bucket/contracts/job/unit_1/unitCode.png" |}
  = Some ("s3://" +:+ "bucket" +:+ "/" +:+ s3_key_of "job" (pretty (0 + 1)%nat)
            (ms_field
               {| ms_field := "unitCode";
                  chunk_file_key := Some "s3://bucket/contracts/job/unit_1/unitCode.png" |})
            ".png")
  ∨ ∃ cu src,
      combine_results [unit_citing_chunk_000] [] !! O = Some cu
      ∧ src ∈ eu_sources cu
      ∧ ms_field
          {| ms_field := "unitCode";
             chunk_file_key := Some "s3://bucket/contracts/job/unit_1/unitCode.png" |}
        = src_field src
      ∧ chunk_file_key
          {| ms_field := "unitCode";
             chunk_file_key := Some "s3://bucket/contracts/job/unit_1/unitCode.png" |}
        = fallback_key (src_chunk_id src).
Proof.
  apply (reconcile_chunk_file_keys one_page_doc (λ _ _ _, true) (λ _, true)
           (λ _ _ _ _, true) [chunk_000] ∅ "bucket" "job" [unit_citing_chunk_000] []
           (merge_results_with_cutouts [unit_citing_chunk_000] []
              [("unit1_unitCode", ["s3://bucket/contracts/job/unit_1/unitCode.png"])])
           O
           (merge_unit [] [("unit1_unitCode",
                            ["s3://bucket/contracts/job/unit_1/unitCode.png"])]
              O unit_citing_chunk_000)).
  - vm_compute. reflexivity.
  - reflexivity.
  - vm_compute. apply list_elem_of_here.
Defined.
